(** * dev-events: the Event and Booking models and the database connection cache

    A shallow embedding of
    - the Event model ([event.model]): [nonEmptyString], [slugify],
      [normalizeDate], [normalizeTime], the Event schema and its pre-save hook;
    - the Booking model: [isValidEmail], the Booking schema and its pre-save
      hook;
    - the connection module: its top level, [connectToDatabase] and the
      process-wide cache.

    The models run inside Mongoose and the JavaScript engine.  What the
    development takes from them is written out as definitions: strings and
    the regular expressions, the Date built-in, [save] as validators first,
    then the pre-save hook, then the write to the store, and the
    run-to-completion jobs of the event loop.

    JavaScript strings are sequences of UTF-16 code units.  This development
    covers the strings whose code units lie in U+0000..U+00FF, as lists of
    [ascii]: on that range [toLowerCase], [trim] and the character classes of
    the regular expressions are the ones defined below. *)

From Stdlib Require Import ZArith NArith List Ascii String Bool Lia.
From stdpp Require Import base list gmap.

Import ListNotations.
Local Open Scope list_scope.

(** ** Strings *)

Module JS.

Definition jsstring := list ascii.

Definition str (s : string) : jsstring := list_ascii_of_string s.

Definition code (c : ascii) : N := N_of_ascii c.

(** WhiteSpace and LineTerminator of ECMAScript below U+0100: TAB, LF, VT, FF,
    CR, SP and NBSP.  This is both what [trim] strips and what the class
    [\s] matches. *)
Definition isWhiteSpace (c : ascii) : bool :=
  let n := code c in
  ((9 <=? n) && (n <=? 13) || (n =? 32) || (n =? 160))%N.

Definition isDigit (c : ascii) : bool :=
  let n := code c in ((48 <=? n) && (n <=? 57))%N.

Definition isLower (c : ascii) : bool :=
  let n := code c in ((97 <=? n) && (n <=? 122))%N.

Definition hyphen : ascii := "-"%char.

(** [String.prototype.toLowerCase] on one code unit: A-Z and the upper-case
    letters of Latin-1 (U+00C0..U+00DE but the multiplication sign U+00D7)
    move up by 32, every other code unit below U+0100 is kept. *)
Definition toLowerUnit (c : ascii) : ascii :=
  let n := code c in
  if ((65 <=? n) && (n <=? 90) ||
      (192 <=? n) && (n <=? 222) && negb (n =? 215))%N
  then ascii_of_N (n + 32) else c.

Definition toLowerCase (s : jsstring) : jsstring := map toLowerUnit s.

Fixpoint dropWhile {A} (p : A -> bool) (l : list A) : list A :=
  match l with
  | [] => []
  | a :: l' => if p a then dropWhile p l' else l
  end.

Definition trimStart (s : jsstring) : jsstring := dropWhile isWhiteSpace s.
Definition trimEnd (s : jsstring) : jsstring := rev (dropWhile isWhiteSpace (rev s)).

(** [String.prototype.trim] *)
Definition trim (s : jsstring) : jsstring := trimEnd (trimStart s).

(** [===] on strings *)
Fixpoint str_eqb (x y : jsstring) : bool :=
  match x, y with
  | [], [] => true
  | a :: x', b :: y' => (code a =? code b)%N && str_eqb x' y'
  | _, _ => false
  end.

(** [String.prototype.slice(from, to)] for [0 <= from <= to]. *)
Definition slice (from to : nat) (s : jsstring) : jsstring :=
  take (to - from) (drop from s).

(** [String.prototype.padStart(n, fill)] *)
Fixpoint fillTo (n : nat) (fill cur : jsstring) : jsstring :=
  match n with
  | 0 => []
  | S n' =>
      match cur with
      | [] => match fill with [] => [] | f :: fs => f :: fillTo n' fill fs end
      | c :: cs => c :: fillTo n' fill cs
      end
  end.

Definition padStart (n : nat) (fill s : jsstring) : jsstring :=
  match fill with
  | [] => s
  | _ => fillTo (n - length s) fill fill ++ s
  end.

(** ** Regular expressions

    The fragment of ECMAScript's pattern language the three modules use:
    character classes, sequencing, greedy bounded and unbounded repetition,
    capture groups and the anchors [^] and [$] (no [m] flag).  The matcher is
    the backtracking matcher of the language definition in
    continuation-passing style. *)

Inductive cset : Type :=
| CChar (c : ascii)             (* a literal code unit *)
| CRange (lo hi : ascii)        (* lo-hi *)
| CSpace                        (* \s *)
| CDigit                        (* \d *)
| CUnion (a b : cset)           (* the members of a bracket *)
| CNot (a : cset).              (* [^...] *)

Fixpoint cmem (cs : cset) (c : ascii) : bool :=
  match cs with
  | CChar x => (code c =? code x)%N
  | CRange lo hi => ((code lo <=? code c) && (code c <=? code hi))%N
  | CSpace => isWhiteSpace c
  | CDigit => isDigit c
  | CUnion a b => cmem a c || cmem b c
  | CNot a => negb (cmem a c)
  end.

Inductive regex : Type :=
| Class (cs : cset)
| Seq (r1 r2 : regex)
| Repeat (lo : nat) (hi : option nat) (r : regex)   (* greedy {lo,hi}; [None] is no upper bound *)
| Capture (i : nat) (r : regex)
| Bol                                               (* ^ *)
| Eol.                                              (* $ *)

Definition plus (r : regex) : regex := Repeat 1 None r.
Definition opt (r : regex) : regex := Repeat 0 (Some 1) r.
Definition times (n : nat) (r : regex) : regex := Repeat n (Some n) r.

Definition captures := nat -> option jsstring.

Definition no_captures : captures := fun _ => None.

Definition set_capture (i : nat) (v : option jsstring) (c : captures) : captures :=
  fun j => if Nat.eqb i j then v else c j.

(** A match state is the rest of the input, the index reached and the
    captures; a continuation takes one to the end index and captures of the
    whole match, or fails. *)
Definition matchResult := option (nat * captures).
Definition cont := jsstring -> nat -> captures -> matchResult.
Definition matcher := jsstring -> nat -> captures -> cont -> matchResult.

Definition accept : cont := fun _ pos c => Some (pos, c).

Fixpoint groups (r : regex) : list nat :=
  match r with
  | Class _ | Bol | Eol => []
  | Seq r1 r2 => groups r1 ++ groups r2
  | Repeat _ _ r' => groups r'
  | Capture i r' => i :: groups r'
  end.

Definition reset_captures (gs : list nat) (c : captures) : captures :=
  fold_right (fun i acc => set_capture i None acc) c gs.

Definition pred_bound (hi : option nat) : option nat :=
  match hi with Some n => Some (pred n) | None => None end.

(** RepeatMatcher: when the upper bound is 0 go on with the continuation;
    otherwise run the body once more (captures of the body cleared) and loop,
    an iteration past the lower bound having to consume input; a greedy
    repetition past its lower bound falls back to the continuation.  Each
    level of the loop either lowers [lo] or consumes a code unit, so
    [lo + length s + 1] levels are enough. *)
Fixpoint repeatMatcher (body : matcher) (gs : list nat) (fuel lo : nat)
    (hi : option nat) (s : jsstring) (pos : nat) (c : captures) (k : cont)
    {struct fuel} : matchResult :=
  match hi with
  | Some 0 => k s pos c
  | _ =>
      match fuel with
      | 0 => None
      | S fuel' =>
          let d : cont := fun s' pos' c' =>
            if Nat.eqb lo 0 && Nat.eqb pos' pos then None
            else repeatMatcher body gs fuel' (pred lo) (pred_bound hi) s' pos' c' k in
          let cr := reset_captures gs c in
          if Nat.eqb lo 0 then
            match body s pos cr d with
            | Some z => Some z
            | None => k s pos c
            end
          else body s pos cr d
      end
  end.

Fixpoint rmatch (r : regex) (s : jsstring) (pos : nat) (c : captures) (k : cont)
    {struct r} : matchResult :=
  match r with
  | Class cs =>
      match s with
      | a :: s' => if cmem cs a then k s' (S pos) c else None
      | [] => None
      end
  | Seq r1 r2 => rmatch r1 s pos c (fun s' pos' c' => rmatch r2 s' pos' c' k)
  | Repeat lo hi r' =>
      repeatMatcher (rmatch r') (groups r') (lo + length s + 1) lo hi s pos c k
  | Capture i r' =>
      rmatch r' s pos c
        (fun s' pos' c' => k s' pos' (set_capture i (Some (take (pos' - pos) s)) c'))
  | Bol => if Nat.eqb pos 0 then k s pos c else None
  | Eol => match s with [] => k s pos c | _ :: _ => None end
  end.

(** RegExpBuiltinExec without the [g] and [y] flags, from index [pos] of the
    input whose rest is [s]: the first index at which the pattern matches,
    with the end index and the captures. *)
Fixpoint exec_from (r : regex) (s : jsstring) (pos : nat) : option (nat * nat * captures) :=
  match rmatch r s pos no_captures accept with
  | Some (e, c) => Some (pos, e, c)
  | None =>
      match s with
      | [] => None
      | _ :: s' => exec_from r s' (S pos)
      end
  end.

(** [RegExp.prototype.test] *)
Definition test (r : regex) (s : jsstring) : bool :=
  match exec_from r s 0 with Some _ => true | None => false end.

(** [String.prototype.match] with a pattern without the [g] flag: [None] is
    [null]; index 0 of the array is the matched text, index [i] group [i]. *)
Definition String_match (r : regex) (s : jsstring) : option (nat -> option jsstring) :=
  match exec_from r s 0 with
  | Some (b, e, c) =>
      Some (fun i => match i with 0 => Some (slice b e s) | _ => c i end)
  | None => None
  end.

(** [String.prototype.replace] with a pattern with the [g] flag and a
    replacement text without [$]: scan from the left, replace every match,
    resume after it (one code unit further after an empty match).  [skip]
    counts the code units of the current match still to be passed over. *)
Fixpoint replace_loop (r : regex) (by_ : jsstring) (s : jsstring) (pos skip : nat)
    {struct s} : jsstring :=
  match skip with
  | S n =>
      match s with
      | [] => []
      | _ :: s' => replace_loop r by_ s' (S pos) n
      end
  | 0 =>
      match rmatch r s pos no_captures accept, s with
      | Some (e, _), a :: s' =>
          by_ ++ (if Nat.eqb e pos then a :: replace_loop r by_ s' (S pos) 0
                  else replace_loop r by_ s' (S pos) (e - pos - 1))
      | Some _, [] => by_
      | None, a :: s' => a :: replace_loop r by_ s' (S pos) 0
      | None, [] => []
      end
  end.

Definition replace_g (r : regex) (by_ : jsstring) (s : jsstring) : jsstring :=
  replace_loop r by_ s 0 0.

End JS.

Import JS.


(** ** Exceptions and numbers *)

(** What the modules throw or reject with. *)
Inductive exn : Type :=
| Error (message : string)                            (* [new Error(message)] *)
| ValidationError (errors : list (string * string))   (* the schema validators: path and message *)
| DuplicateKey (index : string)                       (* the store refuses a second document under a unique index *)
| DocumentNotFound.                                   (* an update of a document the store does not hold *)

Inductive result (A : Type) : Type :=
| Ok (a : A)
| Throw (e : exn).

Arguments Ok {A} a.
Arguments Throw {A} e.

Definition bind {A B} (x : result A) (f : A -> result B) : result B :=
  match x with
  | Ok a => f a
  | Throw e => Throw e
  end.

Notation "x <- e1 ;; e2" := (bind e1 (fun x => e2))
  (at level 100, e1 at next level, right associativity).

(** The numbers that arise: integers and NaN. *)
Inductive number : Type :=
| NaN
| Int (z : Z).

Definition digit_value (c : ascii) : Z := Z.of_N (code c) - 48.

Definition decimal (s : jsstring) : Z :=
  fold_left (fun acc c => 10 * acc + digit_value c)%Z s 0%Z.

(** [Number(v)] for [v] a run of decimal digits (what a group of [\d]
    captures) or [undefined] (a group that took no part in the match). *)
Definition Number (v : option jsstring) : number :=
  match v with
  | Some s => if forallb isDigit s then Int (decimal s) else NaN
  | None => NaN
  end.

(** [<] and [>] on numbers; a comparison with NaN is false. *)
Definition num_lt (a : number) (z : Z) : bool :=
  match a with Int x => (x <? z)%Z | NaN => false end.
Definition num_gt (a : number) (z : Z) : bool :=
  match a with Int x => (x >? z)%Z | NaN => false end.

Definition digit_char (d : Z) : ascii := ascii_of_N (Z.to_N (d + 48)).

(** The decimal digits of a natural number, most significant first. *)
Fixpoint digits_of (fuel : nat) (z : Z) (acc : jsstring) : jsstring :=
  match fuel with
  | 0 => acc
  | S fuel' =>
      let acc' := digit_char (z mod 10) :: acc in
      if (z <? 10)%Z then acc' else digits_of fuel' (z / 10) acc'
  end.

(** [Number.prototype.toString] on the numbers above. *)
Definition toString (a : number) : jsstring :=
  match a with
  | NaN => str "NaN"
  | Int z =>
      if (z <? 0)%Z then "-"%char :: digits_of (S (Z.to_nat (Z.log2 (- z)))) (- z) []
      else digits_of (S (Z.to_nat (Z.log2 z))) z []
  end.


(** ** The built-in Date, as far as [normalizeDate] uses it

    A time value is a number of milliseconds since 1970-01-01T00:00:00Z, at
    most 8.64e15 in absolute value; [None] stands for NaN, the time value of
    an invalid Date. *)

Module Date.

Definition msPerDay : Z := 86400000.
Definition maxTime : Z := 8640000000000000.

(** TimeClip *)
Definition TimeClip (t : Z) : option Z :=
  if (Z.abs t <=? maxTime)%Z then Some t else None.

Definition isLeapYear (y : Z) : bool :=
  ((y mod 4 =? 0) && (negb (y mod 100 =? 0) || (y mod 400 =? 0)))%Z.

Definition DaysInMonth (y m : Z) : Z :=
  (if (m =? 2) then (if isLeapYear y then 29 else 28)
   else if (m =? 4) || (m =? 6) || (m =? 9) || (m =? 11) then 30
   else 31)%Z.

(** DayFromYear: the day number of the first day of year [y]. *)
Definition DayFromYear (y : Z) : Z :=
  (365 * (y - 1970) + (y - 1969) / 4 - (y - 1901) / 100 + (y - 1601) / 400)%Z.

(** Days of year [y] before its month [m] (1-12). *)
Definition daysBeforeMonth (y m : Z) : Z :=
  (let common :=
     if m =? 1 then 0 else if m =? 2 then 31 else if m =? 3 then 59
     else if m =? 4 then 90 else if m =? 5 then 120 else if m =? 6 then 151
     else if m =? 7 then 181 else if m =? 8 then 212 else if m =? 9 then 243
     else if m =? 10 then 273 else if m =? 11 then 304 else 334 in
   if isLeapYear y && (2 <? m) then common + 1 else common)%Z.

(** MakeDay for a month in 1-12 and a day of that month. *)
Definition MakeDay (y m d : Z) : Z :=
  (DayFromYear y + daysBeforeMonth y m + (d - 1))%Z.

Definition validDate (y m d : Z) : bool :=
  ((1 <=? m) && (m <=? 12) && (1 <=? d) && (d <=? DaysInMonth y m))%Z.

(** YearFromTime, MonthFromTime (here 1-12) and DateFromTime of the day
    number [day], by the era / day-of-era computation; [MakeDay] of the
    result is [day] again (lemma [civil_ok_all]). *)
Definition civil (day : Z) : Z * Z * Z :=
  (let z := day + 719468 in
   let era := z / 146097 in
   let doe := z - era * 146097 in
   let yoe := (doe - doe / 1460 + doe / 36524 - doe / 146096) / 365 in
   let doy := doe - (365 * yoe + yoe / 4 - yoe / 100) in
   let mp := (5 * doy + 2) / 153 in
   let d := doy - (153 * mp + 2) / 5 + 1 in
   let m := if mp <? 10 then mp + 3 else mp - 9 in
   let y := yoe + era * 400 + (if m <=? 2 then 1 else 0) in
   (y, m, d))%Z.

(** A non-negative integer in decimal, padded with zeros to [n] digits. *)
Definition pad (n : nat) (z : Z) : jsstring :=
  padStart n (str "0") (toString (Int z)).

(** [Date.prototype.toISOString] of a time value: YYYY-MM-DDTHH:mm:ss.sssZ,
    the year with a sign and six digits outside 0..9999. *)
Definition toISOString (t : Z) : jsstring :=
  (let day := t / msPerDay in
   let ms := t mod msPerDay in
   let '(y, m, d) := civil day in
   let year :=
     if (0 <=? y) && (y <=? 9999) then pad 4 y
     else (if y <? 0 then "-"%char else "+"%char) :: pad 6 (Z.abs y) in
   year ++ str "-" ++ pad 2 m ++ str "-" ++ pad 2 d ++ str "T" ++
   pad 2 (ms / 3600000) ++ str ":" ++ pad 2 (ms / 60000 mod 60) ++ str ":" ++
   pad 2 (ms / 1000 mod 60) ++ str "." ++ pad 3 (ms mod 1000) ++ str "Z")%Z.

(** The date-only forms of the Date Time String Format: YYYY or a sign and
    YYYYYY (but not -000000), then optionally -MM, then optionally -DD. *)
Definition split_year (s : jsstring) : option (Z * jsstring) :=
  match s with
  | sg :: s' =>
      if (code sg =? code "+")%N || (code sg =? code "-")%N then
        if Nat.eqb (length (take 6 s')) 6 && forallb isDigit (take 6 s') then
          let y := decimal (take 6 s') in
          if (code sg =? code "-")%N then
            (if (y =? 0)%Z then None else Some ((- y)%Z, drop 6 s'))
          else Some (y, drop 6 s')
        else None
      else if Nat.eqb (length (take 4 s)) 4 && forallb isDigit (take 4 s) then
        Some (decimal (take 4 s), drop 4 s)
      else None
  | [] => None
  end.

Definition split_field (s : jsstring) : option (Z * jsstring) :=
  match s with
  | h :: a :: b :: rest =>
      if (code h =? code "-")%N && isDigit a && isDigit b
      then Some (decimal [a; b], rest) else None
  | _ => None
  end.

Definition parse_date_only (s : jsstring) : option (Z * Z * Z) :=
  match split_year s with
  | None => None
  | Some (y, []) => Some (y, 1, 1)%Z
  | Some (y, r1) =>
      match split_field r1 with
      | None => None
      | Some (m, []) => Some (y, m, 1%Z)
      | Some (m, r2) =>
          match split_field r2 with
          | Some (d, []) => Some (y, m, d)
          | _ => None
          end
      end
  end.

(** A date-only text of a day of the calendar is that day at 00:00 UTC.
    What a text of these forms that names no day of the calendar (2024-02-30)
    or a day out of range stands for is left to the engine: engines differ. *)
Definition parse_utc_date (s : jsstring) : option Z :=
  match parse_date_only s with
  | Some (y, m, d) =>
      if validDate y m d then TimeClip (MakeDay y m d * msPerDay) else None
  | None => None
  end.

Section Engine.

(** What the engine makes of every other text: the forms of the format with
    a time of day, and the formats of its own that an engine falls back to.
    NaN is [None]. *)
Variable Date_parse_impl : jsstring -> option Z.

(** [Date.parse] *)
Definition parse (s : jsstring) : option Z :=
  match parse_utc_date s with
  | Some t => Some t
  | None => Date_parse_impl s
  end.

(** [new Date(value)] for a string: its time value. *)
Definition new (value : jsstring) : option Z :=
  match parse value with
  | Some t => TimeClip t
  | None => None
  end.

End Engine.

End Date.

(** ** The Event model: the helpers *)

(** [const nonEmptyString = (value) => value.trim().length > 0] *)
Definition nonEmptyString (value : jsstring) : bool :=
  Nat.ltb 0 (length (trim value)).

(** [/[^a-z0-9\s-]/g] *)
Definition re_not_slug_char : regex :=
  Class (CNot (CUnion (CRange "a" "z") (CUnion (CRange "0" "9") (CUnion CSpace (CChar "-"))))).

(** [/\s+/g] *)
Definition re_spaces : regex := plus (Class CSpace).

(** [/-+/g] *)
Definition re_dashes : regex := plus (Class (CChar "-")).

(** [slugify]: lower-case, trim, then the three global replacements. *)
Definition slugify (value : jsstring) : jsstring :=
  replace_g re_dashes (str "-")
    (replace_g re_spaces (str "-")
       (replace_g re_not_slug_char (str "")
          (trim (toLowerCase value)))).


(** ** The Event model: [normalizeDate] *)

Definition msg_date : string :=
  "Invalid event date. Please provide a valid date value.".

Section Engine.

Variable Date_parse_impl : jsstring -> option Z.

Definition normalizeDate (value : jsstring) : result jsstring :=
  match Date.new Date_parse_impl value with
  | None => Throw (Error msg_date)
  | Some parsed => Ok (slice 0 10 (Date.toISOString parsed))
  end.

End Engine.

(** ** The Event model: [normalizeTime] *)

(** [/^(\d{1,2}):(\d{2})(?::(\d{2}))?$/] *)
Definition re_time : regex :=
  Seq Bol
   (Seq (Capture 1 (Repeat 1 (Some 2) (Class CDigit)))
   (Seq (Class (CChar ":"))
   (Seq (Capture 2 (times 2 (Class CDigit)))
   (Seq (opt (Seq (Class (CChar ":")) (Capture 3 (times 2 (Class CDigit)))))
        Eol)))).

Definition msg_time_format : string :=
  "Invalid event time. Expected format HH:MM or HH:MM:SS (24-hour).".
Definition msg_time_range : string :=
  "Invalid event time. Hour must be 0-23 and minutes 0-59.".

Definition normalizeTime (value : jsstring) : result jsstring :=
  let trimmed := trim value in
  match String_match re_time trimmed with
  | None => Throw (Error msg_time_format)
  | Some m =>
      let hours := Number (m 1) in
      let minutes := Number (m 2) in
      if num_lt hours 0 || num_gt hours 23 || num_lt minutes 0 || num_gt minutes 59
      then Throw (Error msg_time_range)
      else Ok (padStart 2 (str "0") (toString hours) ++ str ":" ++
               padStart 2 (str "0") (toString minutes))
  end.

(** ** The Event model: the schema, the pre-save hook and [save] *)

Definition ObjectId := N.

(** [interface EventAttrs].  [slug] is the one path the schema does not
    require: [None] is a document whose slug is not set. *)
Record EventAttrs : Type := {
  title : jsstring;
  slug : option jsstring;
  description : jsstring;
  overview : jsstring;
  image : jsstring;
  venue : jsstring;
  location : jsstring;
  date : jsstring;
  time : jsstring;
  mode : jsstring;
  audience : jsstring;
  agenda : list jsstring;
  organizer : jsstring;
  tags : list jsstring
}.

(** [interface EventDocument extends EventAttrs, Document]: the paths, the
    identifier, whether the document is new, and the paths modified since it
    was loaded. *)
Record EventDocument : Type := {
  event_id : ObjectId;
  event_isNew : bool;
  event_modified : list string;
  event_attrs : EventAttrs
}.

Definition isModified (path : string) (d : EventDocument) : bool :=
  existsb (String.eqb path) (event_modified d).

(** Assignments to the paths the hook writes.  The three paths are declared
    with [trim: true], so the value assigned is trimmed. *)
Definition with_slug (v : jsstring) (a : EventAttrs) : EventAttrs :=
  {| title := title a; slug := Some (trim v); description := description a;
     overview := overview a; image := image a; venue := venue a;
     location := location a; date := date a; time := time a; mode := mode a;
     audience := audience a; agenda := agenda a; organizer := organizer a;
     tags := tags a |}.

Definition with_date (v : jsstring) (a : EventAttrs) : EventAttrs :=
  {| title := title a; slug := slug a; description := description a;
     overview := overview a; image := image a; venue := venue a;
     location := location a; date := trim v; time := time a; mode := mode a;
     audience := audience a; agenda := agenda a; organizer := organizer a;
     tags := tags a |}.

Definition with_time (v : jsstring) (a : EventAttrs) : EventAttrs :=
  {| title := title a; slug := slug a; description := description a;
     overview := overview a; image := image a; venue := venue a;
     location := location a; date := date a; time := trim v; mode := mode a;
     audience := audience a; agenda := agenda a; organizer := organizer a;
     tags := tags a |}.

(** What the setters of the schema make of the attributes given to
    [new Event(attrs)]: every String path is declared with [trim: true] and
    is trimmed; the items of [agenda] and [tags] are kept as they are. *)
Definition trimmed (a : EventAttrs) : EventAttrs :=
  {| title := trim (title a); slug := option_map trim (slug a);
     description := trim (description a); overview := trim (overview a);
     image := trim (image a); venue := trim (venue a);
     location := trim (location a); date := trim (date a); time := trim (time a);
     mode := trim (mode a); audience := trim (audience a); agenda := agenda a;
     organizer := trim (organizer a); tags := tags a |}.

Definition assign (path : string) (f : EventAttrs -> EventAttrs) (d : EventDocument)
    : EventDocument :=
  {| event_id := event_id d; event_isNew := event_isNew d;
     event_modified := path :: event_modified d;
     event_attrs := f (event_attrs d) |}.

(** *** The schema's validators *)

Open Scope string_scope.

(** A String path with [required: true] and [validate: nonEmptyString], for
    a document that has the path (the interface declares it a string): the
    required check refuses the empty string, with the library's message,
    then the validator runs; the first failure is the path's error. *)
Definition validateString (path message : string) (value : jsstring)
    : list (string * string) :=
  if Nat.eqb (length value) 0 then [(path, "Path `" ++ path ++ "` is required.")]
  else if nonEmptyString value then [] else [(path, message)].

(** An array path ([agenda], [tags]):
    [Array.isArray(value) && value.length > 0 && value.every(nonEmptyString)] *)
Definition validateItems (path message : string) (value : list jsstring)
    : list (string * string) :=
  if Nat.ltb 0 (length value) && forallb nonEmptyString value then []
  else [(path, message)].

(** The errors of a document, path by path in the order of the schema
    ([slug] has no validator). *)
Definition validate (a : EventAttrs) : list (string * string) :=
  validateString "title" "Event title is required." (title a) ++
  validateString "description" "Event description is required." (description a) ++
  validateString "overview" "Event overview is required." (overview a) ++
  validateString "image" "Event image is required." (image a) ++
  validateString "venue" "Event venue is required." (venue a) ++
  validateString "location" "Event location is required." (location a) ++
  validateString "date" "Event date is required." (date a) ++
  validateString "time" "Event time is required." (time a) ++
  validateString "mode" "Event mode is required." (mode a) ++
  validateString "audience" "Event audience is required." (audience a) ++
  validateItems "agenda" "Event agenda must contain at least one non-empty item." (agenda a) ++
  validateString "organizer" "Event organizer is required." (organizer a) ++
  validateItems "tags" "Event tags must contain at least one non-empty tag." (tags a).

Close Scope string_scope.

(** [!this.slug]: no slug, or the empty one. *)
Definition slug_unset (a : EventAttrs) : bool :=
  match slug a with
  | None => true
  | Some s => Nat.eqb (length s) 0
  end.

(** *** The store *)

(** The two collections, by identifier. *)
Record Database : Type := {
  events : gmap ObjectId EventAttrs;
  bookings : gmap ObjectId (ObjectId * jsstring)      (* eventId, email *)
}.

Definition with_events (ev : gmap ObjectId EventAttrs) (db : Database) : Database :=
  {| events := ev; bookings := bookings db |}.

Definition with_bookings (bk : gmap ObjectId (ObjectId * jsstring)) (db : Database) : Database :=
  {| events := events db; bookings := bk |}.

Definition same_slug (a b : option jsstring) : bool :=
  match a, b with
  | Some x, Some y => str_eqb x y
  | None, None => true
  | _, _ => false
  end.

(** The unique index [{ slug: 1 }]: does a document other than [id] hold
    the key [s]? *)
Definition slug_taken (ev : gmap ObjectId EventAttrs) (id : ObjectId)
    (s : option jsstring) : bool :=
  existsb (fun kv => negb (N.eqb (fst kv) id) && same_slug (slug (snd kv)) s)
          (map_to_list ev).

(** The write at the end of [save]: an insert for a new document, an update
    of the stored one otherwise; both are refused when the slug is taken.
    The update is the one of a loaded document that is in step with the
    store, whose paths are the stored ones but for those modified since it was
    loaded: writing the modified paths then leaves the document in the store. *)
Definition write_event (db : Database) (d : EventDocument) : result Database :=
  let ev := events db in
  let id := event_id d in
  if event_isNew d then
    match ev !! id with
    | Some _ => Throw (DuplicateKey "_id_")
    | None =>
        if slug_taken ev id (slug (event_attrs d)) then Throw (DuplicateKey "slug_1")
        else Ok (with_events (<[id := event_attrs d]> ev) db)
    end
  else
    match ev !! id with
    | None => Throw DocumentNotFound
    | Some _ =>
        if slug_taken ev id (slug (event_attrs d)) then Throw (DuplicateKey "slug_1")
        else Ok (with_events (<[id := event_attrs d]> ev) db)
    end.

Definition saved (d : EventDocument) : EventDocument :=
  {| event_id := event_id d; event_isNew := false; event_modified := [];
     event_attrs := event_attrs d |}.

Section Engine.

Variable Date_parse_impl : jsstring -> option Z.

(** [eventSchema.pre("save", ...)] *)
Definition event_pre_save (this : EventDocument) : result EventDocument :=
  let this1 :=
    if (isModified "title" this || slug_unset (event_attrs this))
       && nonEmptyString (title (event_attrs this))
    then assign "slug" (with_slug (slugify (title (event_attrs this)))) this
    else this in
  d <- normalizeDate Date_parse_impl (date (event_attrs this1)) ;;
  let this2 := assign "date" (with_date d) this1 in
  t <- normalizeTime (time (event_attrs this2)) ;;
  Ok (assign "time" (with_time t) this2).

(** [document.save()]: the validators, then the pre-save hook, then the
    write.  The store comes back as it was when any of them fails. *)
Definition Event_save (db : Database) (d : EventDocument)
    : Database * result EventDocument :=
  match validate (event_attrs d) with
  | (_ :: _) as errors => (db, Throw (ValidationError errors))
  | [] =>
      match event_pre_save d with
      | Throw e => (db, Throw e)
      | Ok d' =>
          match write_event db d' with
          | Throw e => (db, Throw e)
          | Ok db' => (db', Ok (saved d'))
          end
      end
  end.

End Engine.

(** ** The Booking model *)

(** [/^[^\s@]+@[^\s@]+\.[^\s@]+$/] *)
Definition not_space_or_at : cset := CNot (CUnion CSpace (CChar "@")).

Definition emailRegex : regex :=
  Seq Bol
   (Seq (plus (Class not_space_or_at))
   (Seq (Class (CChar "@"))
   (Seq (plus (Class not_space_or_at))
   (Seq (Class (CChar "."))
   (Seq (plus (Class not_space_or_at))
        Eol))))).

Definition isValidEmail (value : jsstring) : bool :=
  test emailRegex (trim value).

(** [interface BookingDocument extends BookingAttrs, Document] *)
Record BookingDocument : Type := {
  booking_id : ObjectId;
  booking_isNew : bool;
  eventId : ObjectId;
  email : jsstring
}.

Definition msg_email_path : string := "Booking email must be a valid email address.".
Definition msg_email_hook : string := "Invalid email format for booking.".
Definition msg_no_event : string := "Cannot create booking: referenced event does not exist.".

(** The schema's validators: [email] is required and validated by
    [isValidEmail]; [eventId] is required, and a document has one. *)
Definition validate_booking (b : BookingDocument) : list (string * string) :=
  if Nat.eqb (length (email b)) 0 then [("email", "Path `email` is required.")%string]
  else if isValidEmail (email b) then [] else [("email"%string, msg_email_path)].

(** [Event.exists({ _id: id })] *)
Definition Event_exists (db : Database) (id : ObjectId) : bool :=
  match events db !! id with
  | Some _ => true
  | None => false
  end.

(** [bookingSchema.pre('save', ...)] *)
Definition booking_pre_save (db : Database) (this : BookingDocument) : result unit :=
  if negb (isValidEmail (email this)) then Throw (Error msg_email_hook)
  else
    let eventExists := Event_exists db (eventId this) in
    if negb eventExists then Throw (Error msg_no_event)
    else Ok tt.

(** The write at the end of [save]: an insert for a new document; for a
    loaded one an update, here of a document in step with the store, as for
    an Event. *)
Definition write_booking (db : Database) (b : BookingDocument) : result Database :=
  let bk := bookings db in
  let id := booking_id b in
  match bk !! id, booking_isNew b with
  | Some _, true => Throw (DuplicateKey "_id_")
  | None, false => Throw DocumentNotFound
  | _, _ => Ok (with_bookings (<[id := (eventId b, email b)]> bk) db)
  end.

Definition saved_booking (b : BookingDocument) : BookingDocument :=
  {| booking_id := booking_id b; booking_isNew := false;
     eventId := eventId b; email := email b |}.

(** [document.save()] of a Booking: validators, pre-save hook, write. *)
Definition Booking_save (db : Database) (b : BookingDocument)
    : Database * result BookingDocument :=
  match validate_booking b with
  | (_ :: _) as errors => (db, Throw (ValidationError errors))
  | [] =>
      match booking_pre_save db b with
      | Throw e => (db, Throw e)
      | Ok _ =>
          match write_booking db b with
          | Throw e => (db, Throw e)
          | Ok db' => (db', Ok (saved_booking b))
          end
      end
  end.


(** ** The connection module: [connectToDatabase]

    JavaScript runs one job at a time.  A call of [connectToDatabase] runs
    up to its [await] in one job; when the promise of [mongoose.connect]
    settles, the continuations of the calls awaiting it run one after the
    other before any other job, so here they are part of the settlement. *)

Module Mongo.

(** The Mongoose instance a connection resolves to. *)
Definition Handle := N.

Inductive outcome : Type :=
| Resolved (h : Handle)
| Rejected (reason : string).

(** [interface MongooseCache]; a promise is named by its index among the
    promises [mongoose.connect] has returned. *)
Record MongooseCache : Type := {
  conn : option Handle;
  promise : option nat
}.

(** Where a call of [connectToDatabase] stands. *)
Inductive call_state : Type :=
| Awaiting (p : nat)          (* suspended at [await cached.promise] *)
| Returned (h : Handle)
| Thrown (reason : string).

Record World : Type := {
  cached : MongooseCache;
  promises : list (option outcome);      (* [None]: pending *)
  calls : gmap nat call_state
}.

(** [cached = { conn: null, promise: null }] and nothing called yet. *)
Definition init : World :=
  {| cached := {| conn := None; promise := None |}; promises := []; calls := ∅ |}.

(** The number of calls of [mongoose.connect]. *)
Definition attempts (w : World) : nat := length (promises w).

(** The number of connections established. *)
Definition established (w : World) : nat :=
  length (List.filter (fun o => match o with Some (Resolved _) => true | _ => false end)
                      (promises w)).

(** The continuation of a call after [await]: on success
    [cached.conn = ...; return cached.conn], on failure
    [cached.promise = null; throw error]. *)
Definition after_await (o : outcome) (c : MongooseCache) : MongooseCache * call_state :=
  match o with
  | Resolved h => ({| conn := Some h; promise := promise c |}, Returned h)
  | Rejected e => ({| conn := conn c; promise := None |}, Thrown e)
  end.

(** Call number [i] of [connectToDatabase()], up to its [await]. *)
Definition connectToDatabase (i : nat) (w : World) : World :=
  match conn (cached w) with
  | Some h =>
      (* if (cached?.conn) return cached.conn *)
      {| cached := cached w; promises := promises w;
         calls := <[i := Returned h]> (calls w) |}
  | None =>
      (* if (!cached?.promise) cached.promise = mongoose.connect(...) *)
      let '(p, ps) :=
        match promise (cached w) with
        | Some p => (p, promises w)
        | None => (length (promises w), promises w ++ [None])
        end in
      let c := {| conn := None; promise := Some p |} in
      match ps !! p with
      | Some (Some o) =>
          (* the promise awaited has settled already *)
          let '(c', st) := after_await o c in
          {| cached := c'; promises := ps; calls := <[i := st]> (calls w) |}
      | _ =>
          {| cached := c; promises := ps; calls := <[i := Awaiting p]> (calls w) |}
      end
  end.

Definition is_awaiting (p : nat) (st : call_state) : bool :=
  match st with
  | Awaiting q => Nat.eqb q p
  | _ => false
  end.

(** The promise [p] settles with [o]: every call awaiting it goes on. *)
Definition settle (p : nat) (o : outcome) (w : World) : World :=
  let waited := existsb (fun kv => is_awaiting p (snd kv)) (map_to_list (calls w)) in
  {| cached := if waited then fst (after_await o (cached w)) else cached w;
     promises := <[p := Some o]> (promises w);
     calls := (fun st => if is_awaiting p st then snd (after_await o (cached w)) else st)
                <$> calls w |}.

Inductive event : Type :=
| Call (i : nat)                      (* a caller invokes [connectToDatabase] *)
| Settle (p : nat) (o : outcome).     (* the driver settles a pending promise *)

(** A call has a number of its own; only a pending promise settles. *)
Definition step (e : event) (w : World) : option World :=
  match e with
  | Call i =>
      match calls w !! i with
      | None => Some (connectToDatabase i w)
      | Some _ => None
      end
  | Settle p o =>
      match promises w !! p with
      | Some None => Some (settle p o w)
      | _ => None
      end
  end.

Fixpoint run (trace : list event) (w : World) : option World :=
  match trace with
  | [] => Some w
  | e :: trace' =>
      match step e w with
      | Some w' => run trace' w'
      | None => None
      end
  end.




End Mongo.

(** ** The connection module: its top level

    The statements of the module outside [connectToDatabase] run each time the
    module is evaluated: when the server starts, and again whenever the
    development server reloads the file.  [cached] is bound to the object
    [global.mongoose] refers to or, when there is none, to a new object that
    [global.mongoose] is then made to refer to.  Either way the two name one
    object, and nothing else assigns [global.mongoose]: the process holds one
    cache, the [cached] of [Mongo.World]. *)

Module TopLevel.

Import Mongo.

Definition quote : string := String (ascii_of_nat 34) EmptyString.

Definition msg_uri : string :=
  ("Invalid or missing environment variable: " ++ quote ++ "MONGODB_URI" ++ quote ++ ". " ++
   "Please add it to your environment (e.g. .env.local).")%string.

(** The server process: what [global.mongoose] refers to ([None]: undefined),
    the promises [mongoose.connect] has returned, the calls of
    [connectToDatabase], and whether an evaluation of the module has completed
    and so exported the function. *)
Record Process : Type := {
  global_mongoose : option MongooseCache;
  connects : list (option outcome);
  callers : gmap nat call_state;
  exported : bool
}.

(** A process that has not evaluated the module. *)
Definition boot : Process :=
  {| global_mongoose := None; connects := []; callers := ∅; exported := false |}.

(** [!MONGODB_URI]: the variable is undefined or the empty string. *)
Definition missing (uri : option jsstring) : bool :=
  match uri with
  | None => true
  | Some s => Nat.eqb (length s) 0
  end.

(** One evaluation of the module, [process.env.MONGODB_URI] being [uri]. *)
Definition load (uri : option jsstring) (pr : Process) : result Process :=
  if missing uri then Throw (Error msg_uri)
  else
    let cached :=
      match global_mongoose pr with
      | Some c => c                                   (* cached = global.mongoose *)
      | None => {| conn := None; promise := None |}   (* if (!cached) cached = {...} *)
      end in
    Ok {| global_mongoose := Some cached; connects := connects pr;
          callers := callers pr; exported := true |}.

(** The cache, promises and calls of a process whose cache exists. *)
Definition world (pr : Process) : option World :=
  match global_mongoose pr with
  | Some c => Some {| cached := c; promises := connects pr; calls := callers pr |}
  | None => None
  end.

Definition with_world (w : World) (pr : Process) : Process :=
  {| global_mongoose := Some (cached w); connects := promises w; callers := calls w;
     exported := exported pr |}.

Inductive event : Type :=
| Load (uri : option jsstring)    (* the module is evaluated *)
| Run (e : Mongo.event).          (* a call of the exported function, or a settlement *)

(** An evaluation that throws leaves the process as it was; the function can
    be called once an evaluation has completed. *)
Definition step (e : event) (pr : Process) : option Process :=
  match e with
  | Load uri =>
      match load uri pr with
      | Ok pr' => Some pr'
      | Throw _ => Some pr
      end
  | Run e' =>
      if exported pr then
        match world pr with
        | Some w =>
            match Mongo.step e' w with
            | Some w' => Some (with_world w' pr)
            | None => None
            end
        | None => None
        end
      else None
  end.

Fixpoint run (trace : list event) (pr : Process) : option Process :=
  match trace with
  | [] => Some pr
  | e :: trace' =>
      match step e pr with
      | Some pr' => run trace' pr'
      | None => None
      end
  end.

(** The calls and settlements of a trace, the evaluations left out. *)
Fixpoint runs (trace : list event) : list Mongo.event :=
  match trace with
  | [] => []
  | Load _ :: trace' => runs trace'
  | Run e :: trace' => e :: runs trace'
  end.


End TopLevel.

(** ** The slug as the specification words it *)

Module SlugSpec.

Definition is_hyphen (c : ascii) : bool := (code c =? code hyphen)%N.

(** a lowercase letter, digit, whitespace, or hyphen *)
Definition slug_or_space (c : ascii) : bool :=
  isLower c || (isDigit c || (isWhiteSpace c || is_hyphen c)).

(** Collapse each run of code units satisfying [p] into a single hyphen: a
    code unit of a run is dropped when the run goes on and becomes the hyphen
    when it is the last of its run. *)
Fixpoint collapse (p : ascii -> bool) (s : jsstring) : jsstring :=
  match s with
  | [] => []
  | a :: s' =>
      if p a then
        match s' with
        | b :: _ => if p b then collapse p s' else hyphen :: collapse p s'
        | [] => [hyphen]
        end
      else a :: collapse p s'
  end.

Definition slug_of_title (title : jsstring) : jsstring :=
  collapse is_hyphen
    (collapse isWhiteSpace
       (List.filter slug_or_space
          (trim (toLowerCase title)))).

(** a lowercase letter, digit, or hyphen *)
Definition slug_char (c : ascii) : bool :=
  isLower c || (isDigit c || is_hyphen c).

Definition leading_hyphen (s : jsstring) : bool :=
  match s with
  | a :: _ => is_hyphen a
  | [] => false
  end.

Definition trailing_hyphen (s : jsstring) : bool := leading_hyphen (rev s).

(** Does a hyphen stand next to a hyphen? *)
Fixpoint adjacent_hyphens (s : jsstring) : bool :=
  match s with
  | a :: s' => (is_hyphen a && leading_hyphen s') || adjacent_hyphens s'
  | [] => false
  end.

End SlugSpec.


(** ** The time of day as the specification words it *)

Module TimeSpec.

Definition digits (s : jsstring) : Prop := forallb isDigit s = true.

(** hour:minute or hour:minute:second *)
Record time_text : Type := {
  hour : jsstring;
  minute : jsstring;
  second : option jsstring
}.

Definition text_of (p : time_text) : jsstring :=
  hour p ++ ":"%char :: minute p ++
  match second p with
  | Some sec => ":"%char :: sec
  | None => []
  end.

(** The pattern: one or two digits for the hour, two for the minute and, when
    given, two for the second. *)
Definition well_formed (p : time_text) : Prop :=
  digits (hour p) /\ (length (hour p) = 1 \/ length (hour p) = 2) /\
  digits (minute p) /\ length (minute p) = 2 /\
  match second p with
  | Some sec => digits sec /\ length sec = 2
  | None => True
  end.

(** hour 0-23 and minute 0-59 *)
Definition in_range (p : time_text) : Prop :=
  (decimal (hour p) <= 23)%Z /\ (decimal (minute p) <= 59)%Z.

(** hour 0-23, minute and second each 0-59 *)
Definition in_range_with_seconds (p : time_text) : Prop :=
  in_range p /\
  match second p with
  | Some sec => (decimal sec <= 59)%Z
  | None => True
  end.

Definition two_digits (z : Z) : jsstring :=
  [digit_char (z / 10); digit_char (z mod 10)].

(** the zero-padded hour:minute *)
Definition stored (p : time_text) : jsstring :=
  two_digits (decimal (hour p)) ++ ":"%char :: two_digits (decimal (minute p)).

(** What may follow the minute: nothing, or a colon and two digits. *)
Definition seconds_tail (tail : jsstring) : Prop :=
  tail = [] \/ exists sec, tail = ":"%char :: sec /\ digits sec /\ length sec = 2.

End TimeSpec.

(** ** The stored date as the specification words it *)

Module DateSpec.

(** the year-month-day shape: YYYY-MM-DD *)
Definition year_month_day (s : jsstring) : bool :=
  match s with
  | [y1; y2; y3; y4; h1; m1; m2; h2; d1; d2] =>
      isDigit y1 && isDigit y2 && isDigit y3 && isDigit y4 &&
      (code h1 =? code "-")%N && isDigit m1 && isDigit m2 &&
      (code h2 =? code "-")%N && isDigit d1 && isDigit d2
  | _ => false
  end.

End DateSpec.

(** ** The field checks as the specification words them *)

Module EventSpec.

Inductive EventField : Type :=
| FTitle | FDescription | FOverview | FImage | FVenue | FLocation | FDate | FTime
| FMode | FAudience | FAgenda | FOrganizer | FTags.

Definition field_path (f : EventField) : string :=
  match f with
  | FTitle => "title" | FDescription => "description" | FOverview => "overview"
  | FImage => "image" | FVenue => "venue" | FLocation => "location"
  | FDate => "date" | FTime => "time" | FMode => "mode" | FAudience => "audience"
  | FAgenda => "agenda" | FOrganizer => "organizer" | FTags => "tags"
  end.

(** a non-empty collection all of whose elements are non-empty after trimming *)
Definition items_ok (l : list jsstring) : bool :=
  negb (Nat.eqb (length l) 0) && forallb nonEmptyString l.

(** non-empty after trimming surrounding whitespace *)
Definition field_ok (f : EventField) (a : EventAttrs) : bool :=
  match f with
  | FTitle => nonEmptyString (title a)
  | FDescription => nonEmptyString (description a)
  | FOverview => nonEmptyString (overview a)
  | FImage => nonEmptyString (image a)
  | FVenue => nonEmptyString (venue a)
  | FLocation => nonEmptyString (location a)
  | FDate => nonEmptyString (date a)
  | FTime => nonEmptyString (time a)
  | FMode => nonEmptyString (mode a)
  | FAudience => nonEmptyString (audience a)
  | FAgenda => items_ok (agenda a)
  | FOrganizer => nonEmptyString (organizer a)
  | FTags => items_ok (tags a)
  end.

End EventSpec.

(** ** The email shape as the specification words it *)

Module EmailSpec.

(** neither whitespace nor "@" *)
Definition plain (c : ascii) : bool :=
  negb (isWhiteSpace c) && negb (code c =? code "@")%N.

Definition all_plain (s : jsstring) : Prop := forallb plain s = true.

(** A non-empty local part, "@", and a domain containing a dot, with no
    whitespace or extra "@". *)
Definition local_at_domain_with_dot (s : jsstring) : Prop :=
  exists loc dom,
    s = loc ++ "@"%char :: dom /\ loc <> [] /\ all_plain loc /\ all_plain dom /\
    In "."%char dom.

(** The same with the dot inside the domain: something before it and
    something after it. *)
Definition local_at_domain_dot_inside (s : jsstring) : Prop :=
  exists loc d1 d2,
    s = loc ++ "@"%char :: d1 ++ "."%char :: d2 /\
    loc <> [] /\ d1 <> [] /\ d2 <> [] /\
    all_plain loc /\ all_plain d1 /\ all_plain d2.

End EmailSpec.

(** ** Vocabulary of the matcher's facts *)

(** Length of the longest prefix of [s] inside the class [cs]. *)
Fixpoint span (cs : cset) (s : jsstring) : nat :=
  match s with
  | a :: s' => if cmem cs a then S (span cs s') else 0
  | [] => 0
  end.

Definition bound (hi : option nat) (n : nat) : nat :=
  match hi with Some h => Nat.min h n | None => n end.

Definition le_bound (lo : nat) (hi : option nat) : Prop :=
  match hi with Some h => lo <= h | None => True end.

(** The first success among [f n, f (n-1), ..., f lo]. *)
Fixpoint first_down (f : nat -> matchResult) (lo n : nat) : matchResult :=
  if Nat.ltb n lo then None
  else match f n with
       | Some z => Some z
       | None => match n with 0 => None | S n' => first_down f lo n' end
       end.

Definition cont_eq (k1 k2 : cont) : Prop := forall s pos c, k1 s pos c = k2 s pos c.

Definition respects (m : matcher) : Prop :=
  forall k1 k2, cont_eq k1 k2 -> forall s pos c, m s pos c k1 = m s pos c k2.


(** ** Vocabulary of the calendar's facts *)

Local Open Scope Z_scope.

(** The day number [day] is a day of the calendar and [MakeDay] of its
    year, month and day is [day] again. *)
Definition civil_ok (day : Z) : bool :=
  let '(y, m, d) := Date.civil day in
  Date.validDate y m d && (Date.MakeDay y m d =? day).

(** The day a leap year adds. *)
Definition leap_day (y : Z) : Z := if Date.isLeapYear y then 1 else 0.

(** [P] holds of the [fuel] integers from [z] on. *)
Fixpoint all_from (fuel : nat) (z : Z) (P : Z -> bool) : bool :=
  match fuel with
  | O => true
  | S fuel' => P z && all_from fuel' (z + 1) P
  end.


(** Four digits, and two, that read back as the number. *)
Definition pad4_ok (y : Z) : bool :=
  match Date.pad 4 y with
  | [a; b; c; d] =>
      isDigit a && isDigit b && isDigit c && isDigit d && (decimal [a; b; c; d] =? y)
  | _ => false
  end.

Definition pad2_ok (z : Z) : bool :=
  match Date.pad 2 z with
  | [a; b] => isDigit a && isDigit b && (decimal [a; b] =? z)
  | _ => false
  end.

Local Close Scope Z_scope.

(** ** Vocabulary of the facts about [save] and the connection *)

(** The attributes [a] with the three paths the pre-save hook writes
    replaced. *)
Definition with_hook_paths (s : option jsstring) (dt tm : jsstring) (a : EventAttrs)
    : EventAttrs :=
  {| title := title a; slug := s; description := description a;
     overview := overview a; image := image a; venue := venue a;
     location := location a; date := dt; time := tm; mode := mode a;
     audience := audience a; agenda := agenda a; organizer := organizer a;
     tags := tags a |}.

(** The slug the hook leaves on a document whose title is not empty after
    trimming: [if (this.isModified("title") || !this.slug) this.slug = slugify(this.title)]. *)
Definition hook_slug (d : EventDocument) : option jsstring :=
  if isModified "title" d || slug_unset (event_attrs d)
  then Some (slugify (title (event_attrs d)))
  else slug (event_attrs d).

(** No two events of the collection hold the same key of the slug index. *)
Definition unique_slugs (ev : gmap ObjectId EventAttrs) : Prop :=
  forall i j a b, ev !! i = Some a -> ev !! j = Some b -> i <> j ->
                  same_slug (slug a) (slug b) = false.

(** Every booking of the store refers to an event of the store. *)
Definition bookings_refer (db : Database) : Prop :=
  forall k e mail, bookings db !! k = Some (e, mail) -> Event_exists db e = true.

Definition no_space (s : jsstring) : bool := forallb (fun c => negb (isWhiteSpace c)) s.

(** The text YYYY-MM-DD of a year, month and day. *)
Definition ymd (y m d : Z) : jsstring :=
  Date.pad 4 y ++ str "-" ++ Date.pad 2 m ++ str "-" ++ Date.pad 2 d.

(** *** Titles made of words *)

Module Words.

(** A letter or a digit, once lower-cased. *)
Definition alnum (c : ascii) : bool :=
  isLower (toLowerUnit c) || isDigit (toLowerUnit c).

Definition word (w : jsstring) : Prop := w <> [] /\ forallb alnum w = true.

Definition gap (g : jsstring) : Prop := g <> [] /\ forallb isWhiteSpace g = true.

(** Words with the gaps before them: a first word, then gaps and words in
    turn. *)
Fixpoint spaced (w : jsstring) (rest : list (jsstring * jsstring)) : jsstring :=
  match rest with
  | [] => w
  | (g, w') :: rest' => w ++ g ++ spaced w' rest'
  end.

(** The words with one hyphen for each gap. *)
Fixpoint hyphenated (w : jsstring) (rest : list (jsstring * jsstring)) : jsstring :=
  match rest with
  | [] => w
  | (_, w') :: rest' => w ++ hyphen :: hyphenated w' rest'
  end.

Definition words_and_gaps (rest : list (jsstring * jsstring)) : Prop :=
  Forall (fun q => gap (fst q) /\ word (snd q)) rest.

End Words.

Module MongoCount.

Import Mongo.





End MongoCount.

(** ** Sample data *)

Module Sample.

(** An engine that knows the date-only forms and nothing else. *)
Definition date_only_engine : jsstring -> option Z := fun _ => None.

Definition empty_db : Database := {| events := ∅; bookings := ∅ |}.

Definition event_titled (t : jsstring) : EventAttrs :=
  {| title := t; slug := None; description := str "An evening of talks";
     overview := str "Talks and pizza"; image := str "/images/meetup.png";
     venue := str "Hall 1"; location := str "Berlin";
     date := str "2024-03-05"; time := str "9:05"; mode := str "in-person";
     audience := str "developers"; agenda := [str "Doors open"; str "Talks"];
     organizer := str "Dev Events"; tags := [str "meetup"] |}.

(** [new Event(attrs)]: the attributes go through the setters, and the paths
    given are the modified ones. *)
Definition new_event (id : ObjectId) (a : EventAttrs) : EventDocument :=
  {| event_id := id; event_isNew := true;
     event_modified := ["title"; "description"; "overview"; "image"; "venue";
                        "location"; "date"; "time"; "mode"; "audience"; "agenda";
                        "organizer"; "tags"]%string ++
                       match slug a with Some _ => ["slug"%string] | None => [] end;
     event_attrs := trimmed a |}.

Definition meetup : EventDocument :=
  new_event 1%N (event_titled (str "My Awesome Dev Meetup!!")).

(** [new Booking({ eventId, email })]: [email] is declared with [trim: true]. *)
Definition new_booking (id event : ObjectId) (mail : jsstring) : BookingDocument :=
  {| booking_id := id; booking_isNew := true; eventId := event; email := trim mail |}.

End Sample.

(** * Facts *)

Example slugify_ex1 : slugify (str "My Awesome Dev Meetup!!") = str "my-awesome-dev-meetup".
Proof. vm_compute. reflexivity. Qed.

Example slugify_ex2 : slugify (str "  a  --  b  ") = str "a-b".
Proof. vm_compute. reflexivity. Qed.

Example slugify_ex3 : slugify (str "-a!-") = str "-a-".
Proof. vm_compute. reflexivity. Qed.


(** ** Facts about the matcher *)

Section MatcherFacts.

Lemma first_down_step_0 f t :
  first_down f 0 (S t) =
  match first_down (fun n => f (S n)) 0 t with Some z => Some z | None => f 0 end.
Proof.
  induction t as [|t IH].
  - simpl. destruct (f 1); [reflexivity|]. destruct (f 0); reflexivity.
  - change (first_down f 0 (S (S t)))
      with (match f (S (S t)) with Some z => Some z | None => first_down f 0 (S t) end).
    rewrite IH.
    change (first_down (fun n => f (S n)) 0 (S t))
      with (match f (S (S t)) with
            | Some z => Some z
            | None => first_down (fun n => f (S n)) 0 t end).
    destruct (f (S (S t))); reflexivity.
Qed.

Lemma first_down_step_S f l t :
  first_down f (S l) (S t) = first_down (fun n => f (S n)) l t.
Proof.
  induction t as [|t IH].
  - simpl. destruct l; reflexivity.
  - change (first_down f (S l) (S (S t)))
      with (if Nat.ltb (S (S t)) (S l) then None
            else match f (S (S t)) with
                 | Some z => Some z | None => first_down f (S l) (S t) end).
    rewrite IH.
    change (first_down (fun n => f (S n)) l (S t))
      with (if Nat.ltb (S t) l then None
            else match f (S (S t)) with
                 | Some z => Some z
                 | None => first_down (fun n => f (S n)) l t end).
    reflexivity.
Qed.

Lemma first_down_ext f g lo n :
  (forall i, f i = g i) -> first_down f lo n = first_down g lo n.
Proof.
  intros E. induction n as [|n IH]; simpl.
  - rewrite E. reflexivity.
  - rewrite E, IH. reflexivity.
Qed.

Lemma first_down_Some f lo n z :
  first_down f lo n = Some z -> exists i, lo <= i <= n /\ f i = Some z.
Proof.
  induction n as [|n IH]; simpl.
  - destruct (Nat.ltb_spec 0 lo); [discriminate|].
    destruct (f 0) eqn:E; [|discriminate]. intros [= <-]. exists 0. split; [lia|exact E].
  - destruct (Nat.ltb_spec (S n) lo); [discriminate|].
    destruct (f (S n)) eqn:E.
    + intros [= <-]. exists (S n). split; [lia|exact E].
    + intros H1. destruct (IH H1) as (i & Hi & Hf). exists i. split; [lia|exact Hf].
Qed.

Lemma first_down_None f lo n :
  first_down f lo n = None -> forall i, lo <= i <= n -> f i = None.
Proof.
  induction n as [|n IH]; simpl.
  - destruct (Nat.ltb_spec 0 lo); [intros _ i Hi; lia|].
    destruct (f 0) eqn:E; [discriminate|]. intros _ i Hi.
    assert (i = 0) as -> by lia. exact E.
  - destruct (Nat.ltb_spec (S n) lo); [intros _ i Hi; lia|].
    destruct (f (S n)) eqn:E; [discriminate|].
    intros H1 i Hi. destruct (Nat.eq_dec i (S n)) as [->|Hne]; [exact E|].
    apply IH; [exact H1|lia].
Qed.

(** When only the top candidate can succeed, it decides. *)
Lemma first_down_top f lo n :
  lo <= n -> (forall i, lo <= i < n -> f i = None) -> first_down f lo n = f n.
Proof.
  intros Hle Hn. destruct (first_down f lo n) eqn:E.
  - apply first_down_Some in E. destruct E as (i & Hi & Hf).
    destruct (Nat.eq_dec i n) as [->|Hne]; [symmetry; exact Hf|].
    rewrite Hn in Hf by lia. discriminate.
  - symmetry. eapply first_down_None; [exact E|lia].
Qed.

Lemma first_down_empty f lo n : n < lo -> first_down f lo n = None.
Proof.
  intros H. destruct n; simpl.
  - destruct (Nat.ltb_spec 0 lo); [reflexivity|lia].
  - destruct (Nat.ltb_spec (S n) lo); [reflexivity|lia].
Qed.

(** A greedy repetition of a class tries the longest run first and gives
    code units back one at a time down to the lower bound. *)
Lemma repeat_class cs k c fuel :
  forall lo hi s pos,
    le_bound lo hi -> lo + length s < fuel ->
    repeatMatcher (rmatch (Class cs)) [] fuel lo hi s pos c k =
    first_down (fun n => k (drop n s) (pos + n) c) lo (bound hi (span cs s)).
Proof.
  induction fuel as [|fuel IH]; intros lo hi s pos Hb Hf; [lia|].
  assert (E0 : forall lo', first_down (fun n => k (drop n s) (pos + n) c) lo' 0 =
                           if Nat.eqb lo' 0 then k s pos c else None).
  { intros [|lo']; simpl; rewrite ?Nat.add_0_r, ?drop_0; [destruct (k s pos c)|]; reflexivity. }
  destruct hi as [[|h]|].
  - (* {lo,0} *)
    simpl in Hb. assert (lo = 0) as -> by lia. simpl.
    rewrite Nat.add_0_r, drop_0. destruct (k s pos c); reflexivity.
  - (* {lo,S h} *)
    cbn [repeatMatcher reset_captures fold_right rmatch].
    destruct s as [|a s'].
    + cbn [span bound]. rewrite Nat.min_0_r, E0. destruct (Nat.eqb lo 0); reflexivity.
    + cbn [span]. destruct (cmem cs a) eqn:Ea.
      * replace (Nat.eqb lo 0 && Nat.eqb (S pos) pos) with false
          by (symmetry; apply andb_false_iff; right; apply Nat.eqb_neq; lia).
        cbn [pred_bound pred bound]. rewrite <- Nat.succ_min_distr.
        simpl in Hb, Hf.
        rewrite IH by (simpl; destruct lo; simpl; lia).
        destruct lo as [|lo]; cbn [Nat.eqb pred].
        -- rewrite first_down_step_0. cbn [drop]. rewrite Nat.add_0_r.
           erewrite first_down_ext; [reflexivity|].
           intros i. cbn [drop]. f_equal. lia.
        -- rewrite first_down_step_S.
           apply first_down_ext. intros i. cbn [drop]. f_equal. lia.
      * cbn [bound]. rewrite Nat.min_0_r, E0. destruct (Nat.eqb lo 0); reflexivity.
  - (* {lo,} *)
    cbn [repeatMatcher reset_captures fold_right rmatch].
    destruct s as [|a s'].
    + cbn [span bound]. rewrite E0. destruct (Nat.eqb lo 0); reflexivity.
    + cbn [span]. destruct (cmem cs a) eqn:Ea.
      * replace (Nat.eqb lo 0 && Nat.eqb (S pos) pos) with false
          by (symmetry; apply andb_false_iff; right; apply Nat.eqb_neq; lia).
        cbn [pred_bound bound].
        simpl in Hf.
        rewrite IH by (simpl; destruct lo; simpl; lia).
        cbn [bound].
        destruct lo as [|lo]; cbn [Nat.eqb pred].
        -- rewrite first_down_step_0. cbn [drop]. rewrite Nat.add_0_r.
           erewrite first_down_ext; [reflexivity|].
           intros i. cbn [drop]. f_equal. lia.
        -- rewrite first_down_step_S.
           apply first_down_ext. intros i. cbn [drop]. f_equal. lia.
      * cbn [bound]. rewrite E0. destruct (Nat.eqb lo 0); reflexivity.
Qed.

Lemma rmatch_repeat_class cs lo hi s pos c k :
  le_bound lo hi ->
  rmatch (Repeat lo hi (Class cs)) s pos c k =
  first_down (fun n => k (drop n s) (pos + n) c) lo (bound hi (span cs s)).
Proof.
  intros Hb. cbn [rmatch groups]. apply repeat_class; [exact Hb|lia].
Qed.

End MatcherFacts.

(** ** Global replacement by a class and by a run of a class *)

Section ReplaceFacts.

Lemma first_down_accept c pos lo n :
  first_down (fun i => accept [] (pos + i) c) lo n =
  if Nat.leb lo n then Some (pos + n, c) else None.
Proof.
  destruct (Nat.leb_spec lo n) as [H|H].
  - destruct n; simpl.
    + destruct (Nat.ltb_spec 0 lo); [lia|reflexivity].
    + destruct (Nat.ltb_spec (S n) lo); [lia|reflexivity].
  - apply first_down_empty. exact H.
Qed.

Lemma rmatch_plus_class_accept cs s pos c :
  rmatch (plus (Class cs)) s pos c accept =
  if Nat.leb 1 (span cs s) then Some (pos + span cs s, c) else None.
Proof.
  unfold plus. rewrite rmatch_repeat_class by exact I. apply first_down_accept.
Qed.

Lemma drop_span_dropWhile cs s : drop (span cs s) s = dropWhile (cmem cs) s.
Proof.
  induction s as [|a s IH]; simpl; [reflexivity|].
  destruct (cmem cs a); simpl; [exact IH|reflexivity].
Qed.

Lemma span_le_length cs s : span cs s <= length s.
Proof.
  induction s as [|a s IH]; simpl; [lia|]. destruct (cmem cs a); simpl; lia.
Qed.

Lemma replace_loop_skip r by_ n :
  forall s pos, n <= length s ->
    replace_loop r by_ s pos n = replace_loop r by_ (drop n s) (pos + n) 0.
Proof.
  induction n as [|n IH]; intros s pos Hn.
  - rewrite Nat.add_0_r, drop_0. reflexivity.
  - destruct s as [|a s]; simpl in Hn; [lia|].
    cbn [replace_loop drop]. rewrite IH by lia. f_equal. lia.
Qed.

(** Replacing every code unit of a class by the empty text filters them out. *)
Lemma replace_g_class cs s :
  replace_g (Class cs) [] s = List.filter (fun c => negb (cmem cs c)) s.
Proof.
  unfold replace_g. generalize 0 at 1 as pos.
  induction s as [|a s IH]; intros pos; [reflexivity|].
  cbn [replace_loop rmatch List.filter]. destruct (cmem cs a); cbn [negb accept].
  - replace (Nat.eqb (S pos) pos) with false by (symmetry; apply Nat.eqb_neq; lia).
    replace (S pos - pos - 1) with 0 by lia. cbn [app]. apply IH.
  - rewrite IH. reflexivity.
Qed.

End ReplaceFacts.

Section SlugFacts.

Import SlugSpec.

Lemma collapse_run p a s :
  p a = true -> collapse p (a :: s) = hyphen :: collapse p (dropWhile p s).
Proof.
  revert a. induction s as [|b s IH]; intros a Ha.
  - simpl. rewrite Ha. reflexivity.
  - cbn [collapse dropWhile]. rewrite Ha.
    destruct (p b) eqn:Hb.
    + rewrite <- (IH b Hb). cbn [collapse]. rewrite Hb. reflexivity.
    + cbn [collapse]. rewrite Hb. reflexivity.
Qed.

Lemma length_dropWhile {A} (p : A -> bool) l : length (dropWhile p l) <= length l.
Proof.
  induction l as [|a l IH]; simpl; [lia|]. destruct (p a); simpl; lia.
Qed.

(** Replacing every run of a class by a hyphen collapses the runs. *)
Lemma replace_g_plus_class cs s :
  replace_g (plus (Class cs)) [hyphen] s = collapse (cmem cs) s.
Proof.
  unfold replace_g. generalize 0 at 1 as pos.
  remember (length s) as n eqn:Hn. revert s Hn.
  induction n as [n IH] using lt_wf_ind. intros s Hn pos.
  destruct s as [|a s].
  - reflexivity.
  - cbn [replace_loop]. rewrite rmatch_plus_class_accept.
    cbn [span]. destruct (cmem cs a) eqn:Ha.
    + cbn [Nat.leb].
      replace (Nat.eqb (pos + S (span cs s)) pos) with false
        by (symmetry; apply Nat.eqb_neq; lia).
      replace (pos + S (span cs s) - pos - 1) with (span cs s) by lia.
      rewrite replace_loop_skip by apply span_le_length.
      rewrite collapse_run by exact Ha.
      rewrite drop_span_dropWhile. cbn [app]. f_equal.
      eapply IH; [|reflexivity].
      subst n. pose proof (length_dropWhile (cmem cs) s). simpl. lia.
    + cbn [Nat.leb collapse]. rewrite Ha. f_equal.
      eapply IH; [|reflexivity]. subst n. simpl. lia.
Qed.

Lemma slug_or_space_not_slug_char c :
  negb (cmem (CNot (CUnion (CRange "a" "z") (CUnion (CRange "0" "9") (CUnion CSpace (CChar "-"))))) c)
  = slug_or_space c.
Proof. cbn [cmem]. rewrite negb_involutive. reflexivity. Qed.

(** [slugify] computes the slug the specification describes. *)
Lemma slugify_spec title : slugify title = slug_of_title title.
Proof.
  unfold slugify, slug_of_title, re_dashes, re_spaces, re_not_slug_char.
  change (str "-") with [hyphen]. change (str "") with (@nil ascii).
  rewrite replace_g_class, !replace_g_plus_class.
  f_equal. f_equal. apply filter_ext. intros c. apply slug_or_space_not_slug_char.
Qed.

End SlugFacts.

Example normalizeTime_ex1 : normalizeTime (str "9:05") = Ok (str "09:05").
Proof. vm_compute. reflexivity. Qed.
Example normalizeTime_ex2 : normalizeTime (str " 23:59:07 ") = Ok (str "23:59").
Proof. vm_compute. reflexivity. Qed.
Example normalizeTime_ex3 : normalizeTime (str "9:5") = Throw (Error msg_time_format).
Proof. vm_compute. reflexivity. Qed.
Example normalizeTime_ex4 : normalizeTime (str "24:00") = Throw (Error msg_time_range).
Proof. vm_compute. reflexivity. Qed.
Example normalizeTime_ex5 : normalizeTime (str "12:30:99") = Ok (str "12:30").
Proof. vm_compute. reflexivity. Qed.
Example normalizeTime_ex6 : normalizeTime (str "12:30:9") = Throw (Error msg_time_format).
Proof. vm_compute. reflexivity. Qed.
Example toString_ex : toString (Int 1234567) = str "1234567" /\ toString (Int 0) = str "0"
  /\ toString (Int 10) = str "10" /\ toString (Int (-15)) = str "-15".
Proof. vm_compute. repeat split; reflexivity. Qed.

(** ** More facts about the matcher: continuations, anchors, bounded repetition *)

Section MatcherFacts2.

Lemma repeatMatcher_ext body gs :
  respects body ->
  forall fuel k1 k2, cont_eq k1 k2 ->
  forall lo hi s pos c,
    repeatMatcher body gs fuel lo hi s pos c k1 = repeatMatcher body gs fuel lo hi s pos c k2.
Proof.
  intros Hbody fuel k1 k2 Hk. induction fuel as [|fuel IH]; intros lo hi s pos c.
  - simpl. destruct hi as [[|h]|]; [apply Hk|reflexivity|reflexivity].
  - assert (Hd : forall hi', cont_eq
       (fun s' pos' c' => if Nat.eqb lo 0 && Nat.eqb pos' pos then None
                         else repeatMatcher body gs fuel (pred lo) hi' s' pos' c' k1)
       (fun s' pos' c' => if Nat.eqb lo 0 && Nat.eqb pos' pos then None
                         else repeatMatcher body gs fuel (pred lo) hi' s' pos' c' k2)).
    { intros hi' s' pos' c'. destruct (Nat.eqb lo 0 && Nat.eqb pos' pos); [reflexivity|apply IH]. }
    cbn [repeatMatcher].
    destruct hi as [[|h]|]; [apply Hk| |];
      rewrite (Hbody _ _ (Hd _)), Hk; reflexivity.
Qed.

Lemma rmatch_ext r : respects (rmatch r).
Proof.
  induction r as [cs|r1 IH1 r2 IH2|lo hi r IH|i r IH| |]; intros k1 k2 Hk s pos c; cbn [rmatch].
  - destruct s as [|a s]; [reflexivity|]. rewrite Hk. reflexivity.
  - apply IH1. intros s' pos' c'. apply IH2. exact Hk.
  - apply repeatMatcher_ext; assumption.
  - apply IH. intros s' pos' c'. apply Hk.
  - rewrite Hk. reflexivity.
  - destruct s; [apply Hk|reflexivity].
Qed.

Lemma repeatMatcher_done body gs fuel lo s pos c k :
  repeatMatcher body gs fuel lo (Some 0) s pos c k = k s pos c.
Proof. destruct fuel; reflexivity. Qed.

(** [r?]: one run of [r] that consumes input, or nothing. *)
Lemma rmatch_opt r s pos c k :
  rmatch (opt r) s pos c k =
  match rmatch r s pos (reset_captures (groups r) c)
          (fun s' pos' c' => if Nat.eqb pos' pos then None else k s' pos' c') with
  | Some z => Some z
  | None => k s pos c
  end.
Proof.
  unfold opt. cbn [rmatch]. replace (0 + length s + 1) with (S (length s)) by lia.
  cbn [repeatMatcher Nat.eqb andb pred_bound pred].
  erewrite rmatch_ext; [reflexivity|].
  intros s' pos' c'. cbn beta. rewrite repeatMatcher_done. reflexivity.
Qed.

(** [cs{n}]: exactly [n] code units of the class. *)
Lemma rmatch_times_class cs n s pos c k :
  rmatch (times n (Class cs)) s pos c k =
  if Nat.leb n (span cs s) then k (drop n s) (pos + n) c else None.
Proof.
  unfold times. rewrite rmatch_repeat_class by (simpl; lia). cbn [bound].
  destruct (Nat.leb_spec n (span cs s)) as [H|H].
  - rewrite Nat.min_l by exact H. apply first_down_top; [lia|intros i Hi; lia].
  - apply first_down_empty. lia.
Qed.

Lemma exec_from_bol_later r s pos : exec_from (Seq Bol r) s (S pos) = None.
Proof.
  revert pos. induction s as [|a s IH]; intros pos; cbn [exec_from rmatch Nat.eqb];
    [reflexivity|apply IH].
Qed.

(** A pattern that starts with [^] matches at index 0 or not at all. *)
Lemma exec_from_bol r s :
  exec_from (Seq Bol r) s 0 =
  match rmatch r s 0 no_captures accept with
  | Some (e, c) => Some (0, e, c)
  | None => None
  end.
Proof.
  destruct s as [|a s]; cbn [exec_from rmatch Nat.eqb];
    destruct (rmatch r _ 0 no_captures accept) as [[e c]|]; try reflexivity.
  apply exec_from_bol_later.
Qed.

Lemma span_take_forall cs n s : n <= span cs s -> forallb (cmem cs) (take n s) = true.
Proof.
  revert s. induction n as [|n IH]; intros s Hn; [reflexivity|].
  destruct s as [|a s]; simpl in Hn; [lia|].
  destruct (cmem cs a) eqn:Ea; [|lia].
  cbn [take forallb]. rewrite Ea. apply IH. lia.
Qed.

Lemma span_app_stop cs l a s :
  forallb (cmem cs) l = true -> cmem cs a = false -> span cs (l ++ a :: s) = length l.
Proof.
  intros Hl Ha. induction l as [|b l IH]; simpl.
  - rewrite Ha. reflexivity.
  - simpl in Hl. apply andb_true_iff in Hl as [Hb Hl]. rewrite Hb, IH by exact Hl. reflexivity.
Qed.

Lemma span_all cs l : forallb (cmem cs) l = true -> span cs l = length l.
Proof.
  induction l as [|b l IH]; simpl; [reflexivity|].
  intros H. apply andb_true_iff in H as [Hb Hl]. rewrite Hb, IH by exact Hl. reflexivity.
Qed.

Lemma code_inj a b : (code a =? code b)%N = true -> a = b.
Proof.
  intros H. apply N.eqb_eq in H. unfold code in H.
  rewrite <- (ascii_N_embedding a), <- (ascii_N_embedding b), H. reflexivity.
Qed.

End MatcherFacts2.

(** ** [normalizeTime] *)

Section TimeFacts.

Import TimeSpec.

Lemma rmatch_Seq r1 r2 s pos c k :
  rmatch (Seq r1 r2) s pos c k = rmatch r1 s pos c (fun s' pos' c' => rmatch r2 s' pos' c' k).
Proof. reflexivity. Qed.

Lemma rmatch_Capture i r s pos c k :
  rmatch (Capture i r) s pos c k =
  rmatch r s pos c (fun s' pos' c' => k s' pos' (set_capture i (Some (take (pos' - pos) s)) c')).
Proof. reflexivity. Qed.

Lemma rmatch_Bol s c k : rmatch Bol s 0 c k = k s 0 c.
Proof. reflexivity. Qed.

Lemma rmatch_Eol_nil pos c k : rmatch Eol [] pos c k = k [] pos c.
Proof. reflexivity. Qed.

Lemma rmatch_Eol_inv s pos c k z : rmatch Eol s pos c k = Some z -> s = [] /\ k [] pos c = Some z.
Proof. destruct s; [auto|discriminate]. Qed.

Lemma rmatch_Class_cons cs a s pos c k :
  rmatch (Class cs) (a :: s) pos c k = if cmem cs a then k s (S pos) c else None.
Proof. reflexivity. Qed.

Lemma rmatch_Class_nil cs pos c k : rmatch (Class cs) [] pos c k = None.
Proof. reflexivity. Qed.

Lemma rmatch_class_inv cs s pos c k z :
  rmatch (Class cs) s pos c k = Some z ->
  exists a s', s = a :: s' /\ cmem cs a = true /\ k s' (S pos) c = Some z.
Proof.
  cbn [rmatch]. destruct s as [|a s']; [discriminate|].
  destruct (cmem cs a) eqn:E; [|discriminate]. intros H. eauto.
Qed.

Lemma rmatch_times_class_inv cs n s pos c k z :
  rmatch (times n (Class cs)) s pos c k = Some z ->
  n <= span cs s /\ k (drop n s) (pos + n) c = Some z.
Proof.
  rewrite rmatch_times_class. destruct (Nat.leb_spec n (span cs s)); [auto|discriminate].
Qed.

(** What a match of the time pattern says about the text. *)
Lemma re_time_inv t e c :
  rmatch re_time t 0 no_captures accept = Some (e, c) ->
  exists H M tail,
    t = H ++ ":"%char :: M ++ tail /\
    digits H /\ (length H = 1 \/ length H = 2) /\
    digits M /\ length M = 2 /\ seconds_tail tail /\
    c 1 = Some H /\ c 2 = Some M.
Proof.
  unfold re_time. rewrite rmatch_Seq, rmatch_Bol, rmatch_Seq, rmatch_Capture.
  rewrite rmatch_repeat_class by (simpl; lia).
  intros H0. apply first_down_Some in H0. destruct H0 as (n & Hn & H0).
  cbn beta in H0. rewrite rmatch_Seq in H0.
  apply rmatch_class_inv in H0. destruct H0 as (a & s1 & Hs1 & Ha & H0).
  rewrite rmatch_Seq, rmatch_Capture in H0.
  apply rmatch_times_class_inv in H0. destruct H0 as [Hm H0].
  rewrite rmatch_Seq, rmatch_opt in H0.
  assert (Hbound : n <= span CDigit t /\ (n = 1 \/ n = 2)) by (cbn [bound] in Hn; lia).
  destruct Hbound as [Hrun Hn12].
  assert (Hlen : length (take n t) = n).
  { rewrite length_take. pose proof (span_le_length CDigit t). lia. }
  assert (Ht : t = take n t ++ ":"%char :: take 2 s1 ++ drop 2 s1).
  { rewrite take_drop. apply code_inj in Ha. subst a. rewrite <- Hs1.
    symmetry. apply take_drop. }
  assert (HM : length (take 2 s1) = 2).
  { rewrite length_take. pose proof (span_le_length CDigit s1). lia. }
  exists (take n t), (take 2 s1), (drop 2 s1).
  split; [exact Ht|].
  split; [apply (span_take_forall CDigit); exact Hrun|].
  split; [rewrite Hlen; exact Hn12|].
  split; [apply (span_take_forall CDigit); exact Hm|].
  split; [exact HM|].
  match type of H0 with match ?X with _ => _ end = _ => destruct X as [z|] eqn:HX end.
  - injection H0 as ->.
    rewrite rmatch_Seq in HX. apply rmatch_class_inv in HX.
    destruct HX as (a2 & s2 & Hs2 & Ha2 & HX).
    rewrite rmatch_Capture in HX. apply rmatch_times_class_inv in HX.
    destruct HX as [Hsec HX].
    match type of HX with (if ?b then _ else _) = _ => destruct b; [discriminate|] end.
    apply rmatch_Eol_inv in HX. destruct HX as [Hend HX].
    unfold accept in HX. injection HX as He Hc.
    split.
    + right. exists s2. apply code_inj in Ha2. subst a2.
      split; [exact Hs2|].
      assert (s2 = take 2 s2) as Hs2'.
      { rewrite <- (take_drop 2 s2) at 1. rewrite Hend. apply app_nil_r. }
      split.
      * unfold digits. rewrite Hs2'. apply (span_take_forall CDigit). exact Hsec.
      * rewrite Hs2'. rewrite length_take. pose proof (span_le_length CDigit s2). lia.
    + subst c. cbn. rewrite Nat.sub_0_r.
      replace (n + 2 - n) with 2 by lia. split; reflexivity.
  - apply rmatch_Eol_inv in H0. destruct H0 as [Hend H0].
    unfold accept in H0. injection H0 as He Hc.
    split; [left; exact Hend|].
    subst c. cbn. rewrite Nat.sub_0_r.
    replace (n + 2 - n) with 2 by lia. split; reflexivity.
Qed.

Lemma digit_not_colon a : isDigit a = true -> cmem (CChar ":") a = false.
Proof.
  unfold isDigit. cbn [cmem]. change (code ":") with 58%N.
  destruct (N.eqb_spec (code a) 58) as [->|]; [|reflexivity].
  intros H; vm_compute in H; discriminate.
Qed.

Lemma span_digits_colon H rest :
  digits H -> span CDigit (H ++ ":"%char :: rest) = length H.
Proof. intros HH. apply span_app_stop; [exact HH|reflexivity]. Qed.

Lemma re_time_tail tail pos c :
  seconds_tail tail ->
  exists e c',
    rmatch (Seq (opt (Seq (Class (CChar ":")) (Capture 3 (times 2 (Class CDigit))))) Eol)
      tail pos c accept = Some (e, c') /\ c' 1 = c 1 /\ c' 2 = c 2.
Proof.
  intros [->|(sec & -> & HS & HlS)]; rewrite rmatch_Seq, rmatch_opt.
  - rewrite rmatch_Seq, rmatch_Class_nil, rmatch_Eol_nil. unfold accept. eauto.
  - rewrite rmatch_Seq, rmatch_Class_cons. change (cmem (CChar ":") ":") with true.
    cbn iota beta.
    rewrite rmatch_Capture, rmatch_times_class.
    rewrite (span_all CDigit sec HS), HlS. cbn [Nat.leb].
    replace (Nat.eqb (S pos + 2) pos) with false by (symmetry; apply Nat.eqb_neq; lia).
    replace (drop 2 sec) with (@nil ascii) by (symmetry; apply drop_ge; lia).
    rewrite rmatch_Eol_nil. unfold accept. do 2 eexists. split; [reflexivity|].
    split; reflexivity.
Qed.

(** A text of the pattern's shape is matched, with the hour and the minute
    in groups 1 and 2. *)
Lemma re_time_intro H M tail :
  digits H -> (length H = 1 \/ length H = 2) ->
  digits M -> length M = 2 -> seconds_tail tail ->
  exists e c, rmatch re_time (H ++ ":"%char :: M ++ tail) 0 no_captures accept = Some (e, c)
    /\ c 1 = Some H /\ c 2 = Some M.
Proof.
  intros HH HlH HM HlM Htail.
  unfold re_time. rewrite rmatch_Seq, rmatch_Bol, rmatch_Seq, rmatch_Capture.
  rewrite rmatch_repeat_class by (simpl; lia).
  rewrite span_digits_colon by exact HH. cbn [bound].
  replace (Nat.min 2 (length H)) with (length H) by lia.
  rewrite first_down_top; [|lia|].
  - cbn beta. rewrite drop_app_length, rmatch_Seq, rmatch_Class_cons.
    change (cmem (CChar ":") ":") with true. cbn iota beta.
    rewrite rmatch_Seq, rmatch_Capture, rmatch_times_class.
    assert (Hrun : span CDigit (M ++ tail) = 2).
    { destruct Htail as [->|(sec & -> & _)].
      - rewrite app_nil_r, (span_all CDigit M HM). exact HlM.
      - rewrite span_digits_colon by exact HM. exact HlM. }
    rewrite Hrun. cbn [Nat.leb].
    replace (drop 2 (M ++ tail)) with tail
      by (rewrite <- HlM; symmetry; apply drop_app_length).
    match goal with |- context [rmatch _ tail ?p ?c accept] =>
      destruct (re_time_tail tail p c Htail) as (e & c' & -> & H1 & H2) end.
    exists e, c'. split; [reflexivity|]. rewrite H1, H2. cbn.
    rewrite Nat.sub_0_r, take_app_length.
    replace (length H + 2 - length H) with 2 by lia.
    replace (take 2 (M ++ tail)) with M
      by (rewrite <- HlM; symmetry; apply take_app_length).
    split; reflexivity.
  - intros i Hi. assert (i = 1 /\ length H = 2) as [-> HlH2] by lia.
    destruct H as [|h1 [|h2 [|]]]; simpl in HlH2; try lia.
    cbn [app drop]. rewrite rmatch_Seq, rmatch_Class_cons.
    unfold digits in HH. simpl in HH. apply andb_true_iff in HH as [_ HH].
    apply andb_true_iff in HH as [HH _].
    rewrite (digit_not_colon h2 HH). reflexivity.
Qed.

Lemma exec_re_time t :
  exec_from re_time t 0 =
  match rmatch re_time t 0 no_captures accept with
  | Some (e, c) => Some (0, e, c)
  | None => None
  end.
Proof. unfold re_time. rewrite exec_from_bol. reflexivity. Qed.

Lemma digit_value_range a : isDigit a = true -> (0 <= digit_value a <= 9)%Z.
Proof.
  unfold isDigit, digit_value. intros H. apply andb_true_iff in H as [H1 H2].
  apply N.leb_le in H1, H2. lia.
Qed.

Lemma decimal_range s :
  digits s -> length s <= 2 -> (0 <= decimal s <= 99)%Z.
Proof.
  unfold digits, decimal. intros Hd Hl.
  destruct s as [|a [|b [|]]]; simpl in Hl; try lia; simpl in Hd |- *.
  - lia.
  - rewrite andb_true_r in Hd. pose proof (digit_value_range a Hd). lia.
  - apply andb_true_iff in Hd as [Ha Hb]. rewrite andb_true_r in Hb.
    pose proof (digit_value_range a Ha). pose proof (digit_value_range b Hb). lia.
Qed.

Lemma padStart_two_digits z :
  (0 <= z <= 99)%Z -> padStart 2 (str "0") (toString (Int z)) = two_digits z.
Proof.
  intros Hz. assert (E : exists n, z = Z.of_nat n /\ n < 100).
  { exists (Z.to_nat z). lia. }
  destruct E as (n & -> & Hn).
  do 100 (destruct n as [|n]; [vm_compute; reflexivity|]). lia.
Qed.

Lemma normalizeTime_Ok_inv value out :
  normalizeTime value = Ok out ->
  exists p, well_formed p /\ text_of p = trim value /\ in_range p /\ out = stored p.
Proof.
  unfold normalizeTime, String_match. rewrite exec_re_time.
  destruct (rmatch re_time (trim value) 0 no_captures accept) as [[e c]|] eqn:Hm; [|discriminate].
  apply re_time_inv in Hm.
  destruct Hm as (H & M & tail & Ht & HH & HlH & HM & HlM & Htail & Hc1 & Hc2).
  cbn beta iota. rewrite Hc1, Hc2. unfold Number.
  unfold digits in HH, HM. rewrite HH, HM.
  pose proof (decimal_range H HH ltac:(lia)) as RH.
  pose proof (decimal_range M HM ltac:(lia)) as RM.
  cbn [num_lt num_gt].
  destruct (Z.ltb_spec (decimal H) 0); [lia|].
  destruct (Z.ltb_spec (decimal M) 0); [lia|].
  destruct (Z.gtb_spec (decimal H) 23); [discriminate|].
  destruct (Z.gtb_spec (decimal M) 59); [cbn; discriminate|].
  cbn [orb]. rewrite !padStart_two_digits by lia.
  intros [= <-].
  destruct Htail as [->|(sec & -> & Hs & Hls)].
  - exists {| hour := H; minute := M; second := None |}.
    unfold well_formed, text_of, in_range, stored; cbn.
    rewrite app_nil_r in Ht. rewrite app_nil_r. repeat split; auto; try lia.
  - exists {| hour := H; minute := M; second := Some sec |}.
    unfold well_formed, text_of, in_range, stored; cbn.
    repeat split; auto; try lia.
Qed.

Lemma normalizeTime_Ok_intro value p :
  well_formed p -> text_of p = trim value -> in_range p ->
  normalizeTime value = Ok (stored p).
Proof.
  intros (HH & HlH & HM & HlM & Hsec) Ht [RH RM].
  assert (Htail : seconds_tail (match second p with Some sec => ":"%char :: sec | None => [] end)).
  { destruct (second p) as [sec|]; [right; exists sec; tauto|left; reflexivity]. }
  destruct (re_time_intro _ _ _ HH HlH HM HlM Htail) as (e & c & Hm & Hc1 & Hc2).
  unfold normalizeTime, String_match. rewrite exec_re_time, <- Ht.
  change (rmatch re_time (text_of p) 0 no_captures accept = Some (e, c)) in Hm.
  rewrite Hm. cbn beta iota. rewrite Hc1, Hc2. unfold Number.
  unfold digits in HH, HM. rewrite HH, HM.
  pose proof (decimal_range _ HH ltac:(lia)) as BH.
  pose proof (decimal_range _ HM ltac:(lia)) as BM.
  cbn [num_lt num_gt].
  destruct (Z.ltb_spec (decimal (hour p)) 0); [lia|].
  destruct (Z.ltb_spec (decimal (minute p)) 0); [lia|].
  destruct (Z.gtb_spec (decimal (hour p)) 23); [lia|].
  destruct (Z.gtb_spec (decimal (minute p)) 59); [lia|].
  cbn [orb]. rewrite !padStart_two_digits by lia. reflexivity.
Qed.

End TimeFacts.

(** ** [normalizeDate] *)

Example toISOString_ex :
  Date.toISOString 1709632800123 = str "2024-03-05T10:00:00.123Z"
  /\ Date.toISOString 0 = str "1970-01-01T00:00:00.000Z"
  /\ Date.toISOString (-1) = str "1969-12-31T23:59:59.999Z"
  /\ Date.toISOString Date.maxTime = str "+275760-09-13T00:00:00.000Z"
  /\ Date.toISOString (- Date.maxTime) = str "-271821-04-20T00:00:00.000Z"
  /\ Date.toISOString (-62198755200000) = str "-000001-01-01T00:00:00.000Z".
Proof. vm_compute. repeat split; reflexivity. Qed.

Example normalizeDate_ex impl :
  normalizeDate impl (str "2024-03-05") = Ok (str "2024-03-05")
  /\ normalizeDate impl (str "2024-02-29") = Ok (str "2024-02-29")
  /\ normalizeDate impl (str "2024") = Ok (str "2024-01-01")
  /\ normalizeDate impl (str "+010000-01-01") = Ok (str "+010000-01").
Proof. vm_compute. repeat split; reflexivity. Qed.

Section DateFacts.

Import DateSpec.

Local Open Scope Z_scope.

Lemma all_from_spec P fuel : forall z,
  all_from fuel z P = true -> forall k, z <= k < z + Z.of_nat fuel -> P k = true.
Proof.
  induction fuel as [|fuel IH]; intros z H k Hk; [lia|].
  cbn [all_from] in H. apply andb_true_iff in H as [Hz H].
  destruct (Z.eq_dec k z) as [->|Hne]; [exact Hz|].
  apply (IH (z + 1) H). lia.
Qed.

(** Month and day of the month from the day of the year that starts in March. *)
Lemma month_day_of_doy doy :
  0 <= doy <= 365 ->
  let mp := (5 * doy + 2) / 153 in
  let d := doy - (153 * mp + 2) / 5 + 1 in
  0 <= mp <= 11 /\ 1 <= d <= 31 /\
  (mp = 0 -> doy = d - 1) /\ (mp = 1 -> doy = 31 + d - 1 /\ d <= 30) /\
  (mp = 2 -> doy = 61 + d - 1) /\ (mp = 3 -> doy = 92 + d - 1 /\ d <= 30) /\
  (mp = 4 -> doy = 122 + d - 1) /\ (mp = 5 -> doy = 153 + d - 1) /\
  (mp = 6 -> doy = 184 + d - 1 /\ d <= 30) /\ (mp = 7 -> doy = 214 + d - 1) /\
  (mp = 8 -> doy = 245 + d - 1 /\ d <= 30) /\ (mp = 9 -> doy = 275 + d - 1) /\
  (mp = 10 -> doy = 306 + d - 1) /\ (mp = 11 -> doy = 337 + d - 1 /\ d <= 29).
Proof.
  intros H. cbv zeta. Z.div_mod_to_equations. lia.
Qed.

Lemma year_of_doe doe :
  0 <= doe < 146097 ->
  let yoe := (doe - doe / 1460 + doe / 36524 - doe / 146096) / 365 in
  let doy := doe - (365 * yoe + yoe / 4 - yoe / 100) in
  0 <= yoe <= 399 /\ 0 <= doy <= 365 /\
  (doy = 365 -> Date.isLeapYear (yoe + 1) = true).
Proof.
  intros H. cbv zeta. unfold Date.isLeapYear.
  split; [Z.div_mod_to_equations; lia|]. split; [Z.div_mod_to_equations; lia|].
  intros Hd. apply andb_true_iff. rewrite orb_true_iff, negb_true_iff, !Z.eqb_eq, Z.eqb_neq.
  Z.div_mod_to_equations. lia.
Qed.

Lemma DayFromYear_next yoe :
  0 <= yoe <= 399 ->
  Date.DayFromYear (yoe + 1) = 365 * yoe + yoe / 4 - yoe / 100 - 719162.
Proof. intros H. unfold Date.DayFromYear. Z.div_mod_to_equations. lia. Qed.

Lemma DayFromYear_leap yoe :
  0 <= yoe <= 399 ->
  Date.DayFromYear yoe + (if Date.isLeapYear yoe then 1 else 0)
  = 365 * yoe + yoe / 4 - yoe / 100 - 719527.
Proof.
  intros H. unfold Date.DayFromYear, Date.isLeapYear.
  destruct (Z.eqb_spec (yoe mod 4) 0), (Z.eqb_spec (yoe mod 100) 0),
    (Z.eqb_spec (yoe mod 400) 0); cbn [andb orb negb];
    Z.div_mod_to_equations; lia.
Qed.

Lemma month_table y :
  Date.DaysInMonth y 1 = 31 /\ Date.DaysInMonth y 2 = 28 + leap_day y /\
  Date.DaysInMonth y 3 = 31 /\ Date.DaysInMonth y 4 = 30 /\
  Date.DaysInMonth y 5 = 31 /\ Date.DaysInMonth y 6 = 30 /\
  Date.DaysInMonth y 7 = 31 /\ Date.DaysInMonth y 8 = 31 /\
  Date.DaysInMonth y 9 = 30 /\ Date.DaysInMonth y 10 = 31 /\
  Date.DaysInMonth y 11 = 30 /\ Date.DaysInMonth y 12 = 31 /\
  Date.daysBeforeMonth y 1 = 0 /\ Date.daysBeforeMonth y 2 = 31 /\
  Date.daysBeforeMonth y 3 = 59 + leap_day y /\ Date.daysBeforeMonth y 4 = 90 + leap_day y /\
  Date.daysBeforeMonth y 5 = 120 + leap_day y /\ Date.daysBeforeMonth y 6 = 151 + leap_day y /\
  Date.daysBeforeMonth y 7 = 181 + leap_day y /\ Date.daysBeforeMonth y 8 = 212 + leap_day y /\
  Date.daysBeforeMonth y 9 = 243 + leap_day y /\ Date.daysBeforeMonth y 10 = 273 + leap_day y /\
  Date.daysBeforeMonth y 11 = 304 + leap_day y /\ Date.daysBeforeMonth y 12 = 334 + leap_day y.
Proof.
  unfold Date.DaysInMonth, Date.daysBeforeMonth, leap_day.
  destruct (Date.isLeapYear y); repeat split; reflexivity.
Qed.

Lemma civil_ok_era0 n : -719468 <= n < -719468 + 146097 -> civil_ok n = true.
Proof.
  intros Hn. unfold civil_ok, Date.civil.
  replace ((n + 719468) / 146097) with 0 by (symmetry; apply Z.div_small; lia).
  replace (n + 719468 - 0 * 146097) with (n + 719468) by lia.
  set (doe := n + 719468).
  pose proof (year_of_doe doe ltac:(unfold doe; lia)) as Hy. cbv zeta in Hy.
  remember ((doe - doe / 1460 + doe / 36524 - doe / 146096) / 365) as yoe eqn:Eyoe.
  remember (doe - (365 * yoe + yoe / 4 - yoe / 100)) as doy eqn:Edoy.
  destruct Hy as (Hyoe & Hdoy & Hleap).
  pose proof (month_day_of_doy doy Hdoy) as Hm. cbv zeta in Hm.
  remember ((5 * doy + 2) / 153) as mp eqn:Emp.
  remember (doy - (153 * mp + 2) / 5 + 1) as d eqn:Ed.
  destruct Hm as (Hmp & Hd & M0 & M1 & M2 & M3 & M4 & M5 & M6 & M7 & M8 & M9 & M10 & M11).
  pose proof (DayFromYear_next yoe Hyoe) as K1.
  pose proof (DayFromYear_leap yoe Hyoe) as K2. fold (leap_day yoe) in K2.
  cbv zeta.
  remember (if mp <? 10 then mp + 3 else mp - 9) as m eqn:Em.
  remember (yoe + 0 * 400 + (if m <=? 2 then 1 else 0)) as y eqn:Ey.
  assert (Hcase : mp = 0 \/ mp = 1 \/ mp = 2 \/ mp = 3 \/ mp = 4 \/ mp = 5 \/ mp = 6 \/
                  mp = 7 \/ mp = 8 \/ mp = 9 \/ mp = 10 \/ mp = 11) by lia.
  clear Emp Ed Eyoe.
  assert (Hfeb : doy = 365 -> leap_day (yoe + 1) = 1).
  { intros X. unfold leap_day. rewrite (Hleap X). reflexivity. }
  assert (Hl1 : 0 <= leap_day (yoe + 1) <= 1) by (unfold leap_day; destruct (Date.isLeapYear _); lia).
  clear Hleap.
  unfold Date.validDate, Date.MakeDay.
  destruct (month_table y)
    as (D1 & D2 & D3 & D4 & D5 & D6 & D7 & D8 & D9 & D10 & D11 & D12 &
        B1 & B2 & B3 & B4 & B5 & B6 & B7 & B8 & B9 & B10 & B11 & B12).
  repeat (destruct Hcase as [Hc|Hcase]); try rename Hcase into Hc;
    rewrite Hc in *; vm_compute in Em; subst m;
    match type of Ey with
    | _ = _ + _ + ?a => let v := eval vm_compute in a in change a with v in Ey
    end;
    (assert (Hy' : y = yoe \/ y = yoe + 1) by lia);
    rewrite ?D1, ?D2, ?D3, ?D4, ?D5, ?D6, ?D7, ?D8, ?D9, ?D10, ?D11, ?D12,
            ?B1, ?B2, ?B3, ?B4, ?B5, ?B6, ?B7, ?B8, ?B9, ?B10, ?B11, ?B12;
    (assert (Ey' : y = yoe \/ y = yoe + 1) by lia);
    rewrite !andb_true_iff, !Z.leb_le, Z.eqb_eq;
    (destruct Ey' as [-> | ->]; [| ]; try lia).
Qed.

Lemma isLeapYear_shift y e : Date.isLeapYear (y + 400 * e) = Date.isLeapYear y.
Proof.
  unfold Date.isLeapYear.
  replace ((y + 400 * e) mod 4) with (y mod 4)
    by (replace (y + 400 * e) with (y + (100 * e) * 4) by lia; symmetry; apply Z.mod_add; lia).
  replace ((y + 400 * e) mod 100) with (y mod 100)
    by (replace (y + 400 * e) with (y + (4 * e) * 100) by lia; symmetry; apply Z.mod_add; lia).
  replace ((y + 400 * e) mod 400) with (y mod 400)
    by (replace (y + 400 * e) with (y + e * 400) by lia; symmetry; apply Z.mod_add; lia).
  reflexivity.
Qed.

Lemma DayFromYear_shift y e : Date.DayFromYear (y + 400 * e) = Date.DayFromYear y + 146097 * e.
Proof.
  unfold Date.DayFromYear.
  replace ((y + 400 * e - 1969) / 4) with ((y - 1969) / 4 + 100 * e)
    by (replace (y + 400 * e - 1969) with (y - 1969 + (100 * e) * 4) by lia;
        rewrite Z.div_add by lia; reflexivity).
  replace ((y + 400 * e - 1901) / 100) with ((y - 1901) / 100 + 4 * e)
    by (replace (y + 400 * e - 1901) with (y - 1901 + (4 * e) * 100) by lia;
        rewrite Z.div_add by lia; reflexivity).
  replace ((y + 400 * e - 1601) / 400) with ((y - 1601) / 400 + e)
    by (replace (y + 400 * e - 1601) with (y - 1601 + e * 400) by lia;
        rewrite Z.div_add by lia; reflexivity).
  lia.
Qed.

Lemma MakeDay_shift y m d e :
  Date.MakeDay (y + 400 * e) m d = Date.MakeDay y m d + 146097 * e.
Proof.
  unfold Date.MakeDay, Date.daysBeforeMonth.
  rewrite DayFromYear_shift, isLeapYear_shift. lia.
Qed.

Lemma validDate_shift y m d e : Date.validDate (y + 400 * e) m d = Date.validDate y m d.
Proof. unfold Date.validDate, Date.DaysInMonth. rewrite isLeapYear_shift. reflexivity. Qed.

Lemma civil_shift n e :
  Date.civil (n + 146097 * e) =
  let '(y, m, d) := Date.civil n in (y + 400 * e, m, d).
Proof.
  unfold Date.civil.
  replace (n + 146097 * e + 719468) with (n + 719468 + e * 146097) by lia.
  rewrite Z.div_add by lia.
  replace (n + 719468 + e * 146097 - ((n + 719468) / 146097 + e) * 146097)
    with (n + 719468 - (n + 719468) / 146097 * 146097) by lia.
  cbv zeta. f_equal. f_equal. lia.
Qed.

Lemma civil_ok_all day : civil_ok day = true.
Proof.
  set (e := (day + 719468) / 146097).
  set (n := day - 146097 * e).
  assert (Hn : -719468 <= n < -719468 + 146097).
  { unfold n, e.
    pose proof (Z.mod_pos_bound (day + 719468) 146097 ltac:(lia)) as Hm.
    rewrite Z.mod_eq in Hm by lia. lia. }
  pose proof (civil_ok_era0 n Hn) as H0.
  replace day with (n + 146097 * e) by (unfold n; lia).
  unfold civil_ok in *. rewrite civil_shift.
  destruct (Date.civil n) as [[y m] d].
  rewrite validDate_shift, MakeDay_shift.
  apply andb_true_iff in H0 as [Hv Hd]. rewrite Hv. cbn [andb].
  apply Z.eqb_eq in Hd. apply Z.eqb_eq. lia.
Qed.


Lemma pad4_ok_all : all_from (Z.to_nat 10000) 0 pad4_ok = true.
Proof. vm_compute. reflexivity. Qed.

Lemma pad2_ok_all : all_from (Z.to_nat 100) 0 pad2_ok = true.
Proof. vm_compute. reflexivity. Qed.

Lemma digit_not_sign a :
  isDigit a = true -> ((code a =? code "+")%N || (code a =? code "-")%N) = false.
Proof.
  unfold isDigit. change (code "+") with 43%N. change (code "-") with 45%N.
  intros H. apply andb_true_iff in H as [H1 H2]. apply N.leb_le in H1, H2.
  apply orb_false_iff. split; apply N.eqb_neq; lia.
Qed.

(** The text of a calendar day in the year-month-day shape is read back as
    that day. *)
Lemma parse_date_only_ymd y m d :
  0 <= y <= 9999 -> 0 <= m <= 99 -> 0 <= d <= 99 ->
  let r := Date.pad 4 y ++ str "-" ++ Date.pad 2 m ++ str "-" ++ Date.pad 2 d in
  year_month_day r = true /\ Date.parse_date_only r = Some (y, m, d).
Proof.
  intros Hy Hm Hd.
  pose proof (all_from_spec pad4_ok _ _ pad4_ok_all y ltac:(lia)) as Py.
  pose proof (all_from_spec pad2_ok _ _ pad2_ok_all m ltac:(lia)) as Pm.
  pose proof (all_from_spec pad2_ok _ _ pad2_ok_all d ltac:(lia)) as Pd.
  unfold pad4_ok in Py. unfold pad2_ok in Pm, Pd.
  destruct (Date.pad 4 y) as [|y1 [|y2 [|y3 [|y4 [|]]]]]; try discriminate.
  destruct (Date.pad 2 m) as [|m1 [|m2 [|]]]; try discriminate.
  destruct (Date.pad 2 d) as [|d1 [|d2 [|]]]; try discriminate.
  repeat match goal with
  | H : (_ && _) = true |- _ => apply andb_true_iff in H; destruct H as [? ?]
  end.
  repeat match goal with H : (_ =? _) = true |- _ => apply Z.eqb_eq in H end.
  cbn [app str list_ascii_of_string]. cbv zeta. split.
  - unfold year_month_day.
    repeat match goal with H : isDigit _ = true |- _ => rewrite H; clear H end.
    reflexivity.
  - unfold Date.parse_date_only, Date.split_year.
    rewrite (digit_not_sign y1) by assumption.
    cbn [take length Nat.eqb forallb andb drop].
    unfold Date.split_field.
    repeat first
      [ match goal with H : isDigit ?a = true |- context [isDigit ?a] => rewrite H end
      | progress change (code "-" =? code "-")%N with true
      | progress cbn [andb] ].
    repeat match goal with H : decimal _ = _ |- _ => rewrite H; clear H end.
    reflexivity.
Qed.

Lemma civil_range day :
  let '(y, m, d) := Date.civil day in 1 <= m <= 12 /\ 1 <= d <= 31.
Proof.
  pose proof (civil_ok_all day) as H. unfold civil_ok in H.
  destruct (Date.civil day) as [[y m] d].
  apply andb_true_iff in H as [H _]. unfold Date.validDate in H.
  repeat match goal with
  | H : (_ && _) = true |- _ => apply andb_true_iff in H; destruct H as [? ?]
  end.
  repeat match goal with H : (_ <=? _) = true |- _ => apply Z.leb_le in H end.
  assert (Date.DaysInMonth y m <= 31).
  { unfold Date.DaysInMonth.
    destruct (m =? 2); [destruct (Date.isLeapYear y); lia|].
    destruct ((m =? 4) || (m =? 6) || (m =? 9) || (m =? 11)); lia. }
  lia.
Qed.

Lemma TimeClip_Some t t' : Date.TimeClip t = Some t' -> t' = t /\ Z.abs t <= Date.maxTime.
Proof.
  unfold Date.TimeClip. destruct (Z.leb_spec (Z.abs t) Date.maxTime); [|discriminate].
  intros [= <-]. split; [reflexivity|assumption].
Qed.

Lemma new_in_range impl value t : Date.new impl value = Some t -> Z.abs t <= Date.maxTime.
Proof.
  unfold Date.new. destruct (Date.parse impl value) as [t0|]; [|discriminate].
  intros H. apply TimeClip_Some in H. destruct H as [-> H]. exact H.
Qed.

Lemma slice_date_prefix (a b : jsstring) : length a = 10%nat -> slice 0 10 (a ++ b) = a.
Proof.
  intros H. unfold slice. rewrite drop_0. cbn [Nat.sub]. rewrite <- H. apply take_app_length.
Qed.

(** [normalizeDate] on a date of the years 0..9999: the result has the
    year-month-day shape and is a fixed point. *)
Lemma normalizeDate_years_0_9999 impl value t :
  Date.new impl value = Some t ->
  0 <= fst (fst (Date.civil (t / Date.msPerDay))) <= 9999 ->
  exists r, normalizeDate impl value = Ok r /\ year_month_day r = true /\
            normalizeDate impl r = Ok r.
Proof.
  intros Hnew Hyear.
  pose proof (new_in_range impl value t Hnew) as Ht.
  set (day := t / Date.msPerDay) in *.
  pose proof (civil_range day) as Hrange.
  pose proof (civil_ok_all day) as Hok. unfold civil_ok in Hok.
  destruct (Date.civil day) as [[y m] d] eqn:Hcivil. cbn [fst] in Hyear.
  apply andb_true_iff in Hok as [Hvalid Hday]. apply Z.eqb_eq in Hday.
  destruct (parse_date_only_ymd y m d Hyear ltac:(lia) ltac:(lia)) as [Hshape Hparse].
  cbv zeta in Hshape, Hparse.
  set (r := Date.pad 4 y ++ str "-" ++ Date.pad 2 m ++ str "-" ++ Date.pad 2 d) in *.
  assert (Hlen : length r = 10%nat).
  { unfold year_month_day in Hshape.
    destruct r as [|? [|? [|? [|? [|? [|? [|? [|? [|? [|? [|]]]]]]]]]]]; try discriminate.
    reflexivity. }
  assert (Hiso : forall t0, t0 / Date.msPerDay = day ->
                            slice 0 10 (Date.toISOString t0) = r).
  { intros t0 H0. unfold Date.toISOString. rewrite H0, Hcivil.
    replace ((0 <=? y) && (y <=? 9999)) with true
      by (symmetry; apply andb_true_iff; split; apply Z.leb_le; lia).
    rewrite !app_assoc. rewrite <- !app_assoc.
    change (Date.pad 4 y ++ str "-" ++ Date.pad 2 m ++ str "-" ++ Date.pad 2 d ++ ?x)
      with (Date.pad 4 y ++ str "-" ++ Date.pad 2 m ++ str "-" ++ Date.pad 2 d ++ x).
    match goal with |- slice 0 10 (?a ++ ?b ++ ?c ++ ?e ++ ?f ++ ?g) = _ =>
      replace (a ++ b ++ c ++ e ++ f ++ g) with (r ++ g)
        by (unfold r; rewrite <- !app_assoc; reflexivity) end.
    apply slice_date_prefix. exact Hlen. }
  exists r. split; [|split].
  - unfold normalizeDate. rewrite Hnew. rewrite Hiso by reflexivity. reflexivity.
  - exact Hshape.
  - assert (Hclip : Z.abs (day * Date.msPerDay) <= Date.maxTime).
    { unfold day, Date.msPerDay, Date.maxTime in *.
      pose proof (Z.div_mod t 86400000 ltac:(lia)).
      pose proof (Z.mod_pos_bound t 86400000 ltac:(lia)). lia. }
    assert (Hnew' : Date.new impl r = Some (day * Date.msPerDay)).
    { unfold Date.new, Date.parse, Date.parse_utc_date. rewrite Hparse, Hvalid, Hday.
      unfold Date.TimeClip. destruct (Z.leb_spec (Z.abs (day * Date.msPerDay)) Date.maxTime);
        [|lia]. cbn. destruct (Z.leb_spec (Z.abs (day * Date.msPerDay)) Date.maxTime); [|lia].
      reflexivity. }
    unfold normalizeDate. rewrite Hnew'. rewrite Hiso; [reflexivity|].
    apply Z.div_mul. unfold Date.msPerDay. lia.
Qed.

Lemma normalizeDate_unparseable impl value :
  Date.new impl value = None -> normalizeDate impl value = Throw (Error msg_date).
Proof. intros H. unfold normalizeDate. rewrite H. reflexivity. Qed.

End DateFacts.

(** ** The characters of a slug *)

Section SlugChars.

Import SlugSpec.

Lemma collapse_In p c s :
  In c (collapse p s) -> c = hyphen \/ (In c s /\ p c = false).
Proof.
  induction s as [|a s IH]; [intros []|].
  cbn [collapse]. destruct (p a) eqn:Ha.
  - destruct s as [|b s'].
    + intros [<-|[]]. left; reflexivity.
    + destruct (p b) eqn:Hb.
      * intros H. destruct (IH H) as [->|[Hin Hp]]; [left; reflexivity|].
        right. split; [right; exact Hin|exact Hp].
      * intros [<-|H]; [left; reflexivity|].
        destruct (IH H) as [->|[Hin Hp]]; [left; reflexivity|].
        right. split; [right; exact Hin|exact Hp].
  - intros [<-|H].
    + right. split; [left; reflexivity|exact Ha].
    + destruct (IH H) as [->|[Hin Hp]]; [left; reflexivity|].
      right. split; [right; exact Hin|exact Hp].
Qed.

Lemma slug_char_hyphen : slug_char hyphen = true.
Proof. reflexivity. Qed.

(** Every code unit of a slug is a lowercase letter, a digit or a hyphen. *)
Lemma slug_of_title_chars title : forallb slug_char (slug_of_title title) = true.
Proof.
  apply forallb_forall. intros c Hc. unfold slug_of_title in Hc.
  apply collapse_In in Hc. destruct Hc as [->|[Hc Hh]]; [exact slug_char_hyphen|].
  apply collapse_In in Hc. destruct Hc as [->|[Hc Hw]]; [exact slug_char_hyphen|].
  apply filter_In in Hc. destruct Hc as [_ Hc].
  unfold slug_or_space in Hc. unfold slug_char. rewrite Hw in Hc.
  rewrite Hh in Hc |- *. exact Hc.
Qed.

Lemma leading_collapse_non_hyphen b s :
  is_hyphen b = false -> leading_hyphen (collapse is_hyphen (b :: s)) = false.
Proof. intros Hb. cbn [collapse]. rewrite Hb. cbn. exact Hb. Qed.

(** No hyphen of a slug stands next to another. *)
Lemma collapse_no_adjacent_hyphens s : adjacent_hyphens (collapse is_hyphen s) = false.
Proof.
  induction s as [|a s IH]; [reflexivity|].
  cbn [collapse]. destruct (is_hyphen a) eqn:Ha.
  - destruct s as [|b s'].
    + reflexivity.
    + destruct (is_hyphen b) eqn:Hb; [exact IH|].
      cbn [adjacent_hyphens]. rewrite IH, (leading_collapse_non_hyphen b s' Hb).
      rewrite andb_false_r. reflexivity.
  - cbn [adjacent_hyphens]. rewrite Ha, IH. reflexivity.
Qed.

Lemma slug_char_not_space c : slug_char c = true -> isWhiteSpace c = false.
Proof.
  unfold slug_char, isWhiteSpace, isLower, isDigit, is_hyphen.
  change (code hyphen) with 45%N. generalize (code c). intros n H.
  destruct (9 <=? n)%N eqn:E1, (n <=? 13)%N eqn:E2, (n =? 32)%N eqn:E3, (n =? 160)%N eqn:E4;
    try reflexivity; exfalso;
    rewrite ?N.leb_le, ?N.eqb_eq in *;
    repeat match goal with
    | H : (_ || _) = true |- _ => apply orb_true_iff in H; destruct H as [H|H]
    | H : (_ && _) = true |- _ => apply andb_true_iff in H; destruct H as [? H]
    end; rewrite ?N.leb_le, ?N.eqb_eq in *; lia.
Qed.

Lemma dropWhile_head {A} (p : A -> bool) l :
  match l with a :: _ => p a = false | [] => True end -> dropWhile p l = l.
Proof. destruct l as [|a l]; [reflexivity|]. intros H. simpl. rewrite H. reflexivity. Qed.

(** Text without white space is its own trim. *)
Lemma trim_no_space s :
  forallb (fun c => negb (isWhiteSpace c)) s = true -> trim s = s.
Proof.
  intros H. rewrite forallb_forall in H.
  assert (Hd : forall l, (forall c, In c l -> negb (isWhiteSpace c) = true) ->
                         dropWhile isWhiteSpace l = l).
  { intros l Hl. apply dropWhile_head. destruct l as [|a l]; [exact I|].
    apply negb_true_iff. apply Hl. left; reflexivity. }
  unfold trim, trimStart, trimEnd. rewrite (Hd s H), Hd.
  - apply rev_involutive.
  - intros c Hc. apply H. apply in_rev. exact Hc.
Qed.

Lemma trim_slugify title : trim (slugify title) = slugify title.
Proof.
  apply trim_no_space. rewrite slugify_spec.
  pose proof (slug_of_title_chars title) as H. rewrite forallb_forall in H.
  apply forallb_forall. intros c Hc. rewrite (slug_char_not_space c (H c Hc)). reflexivity.
Qed.

Lemma In_dropWhile {A} (p : A -> bool) c l : In c (dropWhile p l) -> In c l.
Proof.
  induction l as [|a l IH]; cbn; [tauto|].
  destruct (p a); [intros H; right; apply IH; exact H|cbn; tauto].
Qed.

Lemma In_trim c s : In c (trim s) -> In c s.
Proof.
  unfold trim, trimEnd, trimStart. intros H.
  apply in_rev, In_dropWhile, in_rev, In_dropWhile in H. exact H.
Qed.

(** A title without a character of a slug, and without white space, has the
    empty slug. *)
Lemma slugify_no_slug_chars title :
  forallb (fun c => negb (slug_or_space (toLowerUnit c))) title = true ->
  slugify title = [].
Proof.
  intros H. rewrite forallb_forall in H. rewrite slugify_spec. unfold slug_of_title.
  assert (E : List.filter slug_or_space (trim (toLowerCase title)) = []).
  { destruct (List.filter slug_or_space (trim (toLowerCase title))) as [|c l] eqn:E;
      [reflexivity|].
    assert (Hc : In c (List.filter slug_or_space (trim (toLowerCase title))))
      by (rewrite E; left; reflexivity).
    apply filter_In in Hc. destruct Hc as [Hc Hs].
    apply In_trim in Hc. unfold toLowerCase in Hc. apply in_map_iff in Hc.
    destruct Hc as (c0 & <- & Hc0). specialize (H _ Hc0).
    rewrite Hs in H. discriminate. }
  rewrite E. reflexivity.
Qed.

End SlugChars.

(** ** The Event schema and [save] *)

Section EventFacts.

Import SlugSpec EventSpec.

Lemma nonEmptyString_length v : nonEmptyString v = true -> Nat.eqb (length v) 0 = false.
Proof.
  unfold nonEmptyString. destruct v as [|a v]; [intros H; vm_compute in H; discriminate|].
  reflexivity.
Qed.

Lemma validateString_ok path message v :
  nonEmptyString v = true -> validateString path message v = [].
Proof.
  intros H. unfold validateString. rewrite (nonEmptyString_length v H), H. reflexivity.
Qed.

Lemma validateString_error path message v :
  nonEmptyString v = false -> In path (map fst (validateString path message v)).
Proof.
  intros H. unfold validateString. rewrite H.
  destruct (Nat.eqb (length v) 0); left; reflexivity.
Qed.

Lemma validateItems_ok path message l :
  items_ok l = true -> validateItems path message l = [].
Proof.
  unfold items_ok, validateItems. destruct l as [|x l]; [discriminate|].
  cbn [length Nat.eqb negb Nat.ltb Nat.leb andb]. intros ->. reflexivity.
Qed.

Lemma validateItems_error path message l :
  items_ok l = false -> In path (map fst (validateItems path message l)).
Proof.
  unfold items_ok, validateItems. destruct l as [|x l]; [intros _; left; reflexivity|].
  cbn [length Nat.eqb negb Nat.ltb Nat.leb andb]. intros ->. left; reflexivity.
Qed.

Lemma validate_error f a :
  field_ok f a = false -> In (field_path f) (map fst (validate a)).
Proof.
  intros H. unfold validate. rewrite !map_app, !in_app_iff.
  destruct f; cbn [field_ok field_path] in H |- *;
    repeat match goal with
    | |- _ \/ _ =>
        first [ left; solve [ apply validateString_error; exact H
                            | apply validateItems_error; exact H ]
              | right ]
    end;
    first [apply validateString_error|apply validateItems_error]; exact H.
Qed.

Lemma validate_ok a : (forall f, field_ok f a = true) -> validate a = [].
Proof.
  intros H. unfold validate.
  rewrite (validateString_ok _ _ _ (H FTitle)), (validateString_ok _ _ _ (H FDescription)),
    (validateString_ok _ _ _ (H FOverview)), (validateString_ok _ _ _ (H FImage)),
    (validateString_ok _ _ _ (H FVenue)), (validateString_ok _ _ _ (H FLocation)),
    (validateString_ok _ _ _ (H FDate)), (validateString_ok _ _ _ (H FTime)),
    (validateString_ok _ _ _ (H FMode)), (validateString_ok _ _ _ (H FAudience)),
    (validateItems_ok _ _ _ (H FAgenda)), (validateString_ok _ _ _ (H FOrganizer)),
    (validateItems_ok _ _ _ (H FTags)).
  reflexivity.
Qed.

Lemma validate_nil_title a : validate a = [] -> nonEmptyString (title a) = true.
Proof.
  intros H. destruct (nonEmptyString (title a)) eqn:E; [reflexivity|].
  pose proof (validate_error FTitle a E) as Hin. rewrite H in Hin. destruct Hin.
Qed.

Lemma Event_save_Ok_inv impl db d db' d' :
  Event_save impl db d = (db', Ok d') ->
  validate (event_attrs d) = [] /\
  exists d1, event_pre_save impl d = Ok d1 /\ write_event db d1 = Ok db' /\ d' = saved d1.
Proof.
  unfold Event_save. destruct (validate (event_attrs d)); [|discriminate].
  destruct (event_pre_save impl d) as [d1|e]; [|discriminate].
  destruct (write_event db d1) as [db1|e] eqn:Hw; [|discriminate].
  intros [= <- <-]. split; [reflexivity|]. exists d1. repeat split. exact Hw.
Qed.



End EventFacts.

(** ** [isValidEmail] *)

Section EmailFacts.

Import EmailSpec.

Lemma first_down_exists f lo n i :
  lo <= i <= n -> f i <> None -> first_down f lo n <> None.
Proof.
  intros Hi Hf E. apply Hf. eapply first_down_None; [exact E|exact Hi].
Qed.

Lemma cmem_plain c : cmem not_space_or_at c = plain c.
Proof.
  unfold not_space_or_at, plain. cbn [cmem]. apply negb_orb.
Qed.

Lemma forallb_cmem_plain s : forallb (cmem not_space_or_at) s = forallb plain s.
Proof.
  induction s as [|a s IH]; cbn [forallb]; [reflexivity|].
  rewrite cmem_plain, IH. reflexivity.
Qed.

Lemma span_ge_prefix cs l rest :
  forallb (cmem cs) l = true -> length l <= span cs (l ++ rest).
Proof.
  induction l as [|a l IH]; simpl; [lia|].
  intros H. apply andb_true_iff in H as [Ha Hl]. rewrite Ha. specialize (IH Hl). lia.
Qed.

Lemma emailRegex_inv s z :
  rmatch emailRegex s 0 no_captures accept = Some z -> local_at_domain_dot_inside s.
Proof.
  unfold emailRegex, plus.
  rewrite rmatch_Seq, rmatch_Bol, rmatch_Seq, rmatch_repeat_class by exact I.
  intros H. apply first_down_Some in H. destruct H as (n1 & Hn1 & H). cbn beta in H.
  rewrite rmatch_Seq in H. apply rmatch_class_inv in H.
  destruct H as (a1 & s1 & Hs1 & Ha1 & H).
  rewrite rmatch_Seq, rmatch_repeat_class in H by exact I.
  apply first_down_Some in H. destruct H as (n2 & Hn2 & H). cbn beta in H.
  rewrite rmatch_Seq in H. apply rmatch_class_inv in H.
  destruct H as (a2 & s2 & Hs2 & Ha2 & H).
  rewrite rmatch_Seq, rmatch_repeat_class in H by exact I.
  apply first_down_Some in H. destruct H as (n3 & Hn3 & H). cbn beta in H.
  apply rmatch_Eol_inv in H. destruct H as [Hend _].
  cbn [bound] in Hn1, Hn2, Hn3.
  apply code_inj in Ha1, Ha2. subst a1 a2.
  exists (take n1 s), (take n2 s1), (take n3 s2).
  pose proof (span_le_length not_space_or_at s).
  pose proof (span_le_length not_space_or_at s1).
  pose proof (span_le_length not_space_or_at s2).
  assert (forall n (l : jsstring), 1 <= n <= length l -> take n l <> []) as Hne.
  { intros n l Hn E. apply (f_equal length) in E. rewrite length_take in E. simpl in E. lia. }
  repeat split.
  - rewrite <- (take_drop n1 s) at 1. rewrite Hs1. f_equal. f_equal.
    rewrite <- (take_drop n2 s1) at 1. rewrite Hs2. f_equal. f_equal.
    rewrite <- (take_drop n3 s2) at 1. rewrite Hend. apply app_nil_r.
  - apply Hne; lia.
  - apply Hne; lia.
  - apply Hne; lia.
  - unfold all_plain. rewrite <- forallb_cmem_plain. apply span_take_forall. lia.
  - unfold all_plain. rewrite <- forallb_cmem_plain. apply span_take_forall. lia.
  - unfold all_plain. rewrite <- forallb_cmem_plain. apply span_take_forall. lia.
Qed.

Lemma length_pos_nonempty (l : jsstring) : l <> [] -> 1 <= length l.
Proof. destruct l; [congruence|simpl; lia]. Qed.

Lemma emailRegex_intro s :
  local_at_domain_dot_inside s -> rmatch emailRegex s 0 no_captures accept <> None.
Proof.
  intros (loc & d1 & d2 & -> & Hl & H1 & H2 & Pl & P1 & P2).
  unfold all_plain in Pl, P1, P2. rewrite <- forallb_cmem_plain in Pl, P1, P2.
  apply length_pos_nonempty in Hl, H1, H2.
  unfold emailRegex, plus.
  rewrite rmatch_Seq, rmatch_Bol, rmatch_Seq, rmatch_repeat_class by exact I.
  apply (first_down_exists _ _ _ (length loc)).
  { cbn [bound]. pose proof (span_ge_prefix _ loc ("@"%char :: d1 ++ "."%char :: d2) Pl). lia. }
  cbn beta. rewrite drop_app_length, rmatch_Seq, rmatch_Class_cons.
  change (cmem (CChar "@") "@") with true. cbn iota beta.
  rewrite rmatch_Seq, rmatch_repeat_class by exact I.
  apply (first_down_exists _ _ _ (length d1)).
  { cbn [bound]. pose proof (span_ge_prefix _ d1 ("."%char :: d2) P1). lia. }
  cbn beta. rewrite drop_app_length, rmatch_Seq, rmatch_Class_cons.
  change (cmem (CChar ".") ".") with true. cbn iota beta.
  rewrite rmatch_Seq, rmatch_repeat_class by exact I.
  apply (first_down_exists _ _ _ (length d2)).
  { cbn [bound]. rewrite (span_all _ d2 P2). lia. }
  cbn beta. rewrite drop_all, rmatch_Eol_nil. discriminate.
Qed.

Lemma isValidEmail_shape value :
  isValidEmail value = true <-> local_at_domain_dot_inside (trim value).
Proof.
  unfold isValidEmail, test.
  assert (E : exec_from emailRegex (trim value) 0 =
              match rmatch emailRegex (trim value) 0 no_captures accept with
              | Some (e, c) => Some (0, e, c) | None => None end).
  { unfold emailRegex. rewrite exec_from_bol. reflexivity. }
  rewrite E. split.
  - destruct (rmatch emailRegex (trim value) 0 no_captures accept) as [[e c]|] eqn:Hm;
      [|discriminate].
    intros _. eapply emailRegex_inv. exact Hm.
  - intros Hs. apply emailRegex_intro in Hs.
    destruct (rmatch emailRegex (trim value) 0 no_captures accept) as [[e c]|];
      [reflexivity|congruence].
Qed.

Lemma all_plain_no_at l : all_plain l -> ~ In "@"%char l.
Proof.
  unfold all_plain. intros H Hin. rewrite forallb_forall in H.
  specialize (H _ Hin). vm_compute in H. discriminate.
Qed.

(** A text splits in one way at a character that occurs once in it. *)
Lemma split_at_unique (x : ascii) l1 r1 l2 r2 :
  ~ In x l1 -> ~ In x r1 -> l1 ++ x :: r1 = l2 ++ x :: r2 -> l1 = l2 /\ r1 = r2.
Proof.
  revert l2. induction l1 as [|a l1 IH]; intros l2 H1 Hr E.
  - destruct l2 as [|b l2]; cbn in E.
    + injection E as <-. split; reflexivity.
    + injection E as <- ->. exfalso. apply Hr. apply in_or_app. right. left. reflexivity.
  - destruct l2 as [|b l2]; cbn in E.
    + injection E as -> _. exfalso. apply H1. left. reflexivity.
    + injection E as <- E. destruct (IH l2) as [-> ->]; [|exact Hr|exact E|split; reflexivity].
      intros Hin. apply H1. right. exact Hin.
Qed.

End EmailFacts.

(** ** [connectToDatabase] *)

Section MongoFacts.

Import Mongo.

















(** Calls while the cached promise is pending all await it. *)
Lemma run_calls_pending callers : forall w p,
  conn (cached w) = None -> promise (cached w) = Some p -> promises w !! p = Some None ->
  List.NoDup callers -> (forall i, In i callers -> calls w !! i = None) ->
  exists w', run (map Call callers) w = Some w' /\
    cached w' = cached w /\ promises w' = promises w /\
    (forall i, In i callers -> calls w' !! i = Some (Awaiting p)) /\
    (forall i, ~ In i callers -> calls w' !! i = calls w !! i).
Proof.
  induction callers as [|i callers IH]; intros w p Hc Hp Hpend Hnd Hfresh.
  - exists w. cbn. repeat split; auto. intros i [].
  - apply List.NoDup_cons_iff in Hnd. destruct Hnd as [Hi Hnd].
    cbn [map run step]. rewrite (Hfresh i) by (left; reflexivity).
    set (w1 := connectToDatabase i w).
    assert (E1 : w1 = {| cached := cached w; promises := promises w;
                         calls := <[i := Awaiting p]> (calls w) |}).
    { unfold w1, connectToDatabase. rewrite Hc, Hp, Hpend.
      destruct (cached w) as [c pr]. cbn in Hc, Hp. subst. reflexivity. }
    destruct (IH w1 p) as (w' & Hr & Hc' & Hp' & Hin & Hout).
    + rewrite E1. exact Hc.
    + rewrite E1. exact Hp.
    + rewrite E1. exact Hpend.
    + exact Hnd.
    + intros j Hj. rewrite E1. cbn. rewrite lookup_insert_ne.
      * apply Hfresh. right. exact Hj.
      * intros ->. contradiction.
    + exists w'. split; [exact Hr|]. rewrite Hc', Hp', E1. cbn.
      repeat split.
      * intros j [<-|Hj]; [|apply Hin; exact Hj].
        rewrite (Hout i Hi), E1. cbn. apply lookup_insert_eq.
      * intros j Hj. rewrite (Hout j) by (intros H; apply Hj; right; exact H).
        rewrite E1. cbn. apply lookup_insert_ne. intros ->. apply Hj. left. reflexivity.
Qed.

End MongoFacts.

(** ** The models on sample data *)

Section Examples.

Import Sample Mongo.

(** A title of white space is trimmed to the empty string when the document
    is made, and the required check refuses it. *)
Example Event_save_blank_title :
  Event_save date_only_engine empty_db (new_event 1%N (event_titled (str "   ")))
  = (empty_db, Throw (ValidationError [("title", "Path `title` is required.")%string])).
Proof. vm_compute. reflexivity. Qed.

Example Event_save_no_tags :
  let a := event_titled (str "Meetup") in
  let a' := {| title := title a; slug := slug a; description := description a;
               overview := overview a; image := image a; venue := venue a;
               location := location a; date := date a; time := time a;
               mode := mode a; audience := audience a; agenda := agenda a;
               organizer := organizer a; tags := [str " "] |} in
  Event_save date_only_engine empty_db (new_event 1%N a')
  = (empty_db,
     Throw (ValidationError
              [("tags", "Event tags must contain at least one non-empty tag.")%string])).
Proof. vm_compute. reflexivity. Qed.

Example Event_save_bad_date :
  let a := event_titled (str "Meetup") in
  let a' := {| title := title a; slug := slug a; description := description a;
               overview := overview a; image := image a; venue := venue a;
               location := location a; date := str "someday"; time := time a;
               mode := mode a; audience := audience a; agenda := agenda a;
               organizer := organizer a; tags := tags a |} in
  Event_save date_only_engine empty_db (new_event 1%N a')
  = (empty_db, Throw (Error msg_date)).
Proof. vm_compute. reflexivity. Qed.

(** A second Event whose title gives the slug of a stored one is refused by
    the unique index. *)
Example Event_save_duplicate_slug :
  let db1 := fst (Event_save date_only_engine empty_db meetup) in
  snd (Event_save date_only_engine db1
         (new_event 2%N (event_titled (str "my awesome dev meetup"))))
  = Throw (DuplicateKey "slug_1").
Proof. vm_compute. reflexivity. Qed.

Example Booking_save_ok :
  let db1 := fst (Event_save date_only_engine empty_db meetup) in
  let b := new_booking 1%N 1%N (str " ada@example.org") in
  snd (Booking_save db1 b) = Ok (saved_booking b)
  /\ bookings (fst (Booking_save db1 b)) !! 1%N = Some (1%N, str "ada@example.org").
Proof. vm_compute. split; reflexivity. Qed.

(** A Booking with a malformed email is refused by the validator of the email
    path, whether the event it refers to is stored or not. *)
Example Booking_save_bad_email_first :
  events empty_db !! 7%N = None
  /\ Booking_save empty_db (new_booking 1%N 7%N (str "nobody"))
     = (empty_db, Throw (ValidationError [("email"%string, msg_email_path)])).
Proof. split; reflexivity. Qed.

Example isValidEmail_ex :
  isValidEmail (str "ada@example.org") = true
  /\ isValidEmail (str "a@b.c.d") = true
  /\ isValidEmail (str "ada.example.org") = false
  /\ isValidEmail (str "ada@example") = false
  /\ isValidEmail (str "a da@example.org") = false
  /\ isValidEmail (str "a@b@c.d") = false.
Proof. vm_compute. repeat split; reflexivity. Qed.

(** Two callers, a rejection, then a third caller who starts the second
    attempt. *)
Example connect_retry :
  exists w,
    run [Call 1; Call 2; Settle 0 (Rejected "unreachable"); Call 3] init = Some w
    /\ calls w !! 1 = Some (Thrown "unreachable")
    /\ calls w !! 2 = Some (Thrown "unreachable")
    /\ calls w !! 3 = Some (Awaiting 1)
    /\ attempts w = 2%nat /\ established w = 0%nat.
Proof. eexists. vm_compute. repeat split; reflexivity. Qed.

End Examples.

(** ** Strings: trimming and the fixed points of the slug *)

Section TrimFacts.

Lemma dropWhile_nil_forall {A} (p : A -> bool) l :
  dropWhile p l = [] <-> forallb p l = true.
Proof.
  induction l as [|a l IH]; cbn; [tauto|].
  destruct (p a); cbn; [exact IH|]. split; discriminate.
Qed.

Lemma dropWhile_all {A} (p : A -> bool) l : forallb p l = true -> dropWhile p l = [].
Proof. apply dropWhile_nil_forall. Qed.

Lemma trim_nil_iff s : trim s = [] <-> forallb isWhiteSpace s = true.
Proof.
  unfold trim, trimEnd, trimStart. split.
  - intros H. apply (f_equal (@rev ascii)) in H. rewrite rev_involutive in H. cbn in H.
    apply dropWhile_nil_forall in H. rewrite forallb_forall in H.
    destruct (dropWhile isWhiteSpace s) as [|a l] eqn:E.
    + apply dropWhile_nil_forall. exact E.
    + exfalso. assert (Ha : isWhiteSpace a = false).
      { clear H. induction s as [|b s IH]; [discriminate|].
        cbn in E. destruct (isWhiteSpace b) eqn:Hb; [apply IH; exact E|].
        injection E as <- _. exact Hb. }
      rewrite H in Ha; [discriminate|]. apply -> in_rev. left. reflexivity.
  - intros H. rewrite (dropWhile_all _ _ H). reflexivity.
Qed.

Lemma dropWhile_app {A} (p : A -> bool) l x :
  forallb p l = true -> dropWhile p (l ++ x) = dropWhile p x.
Proof.
  induction l as [|a l IH]; [reflexivity|]. cbn. intros H.
  apply andb_true_iff in H as [Ha Hl]. rewrite Ha. apply IH. exact Hl.
Qed.

Lemma dropWhile_app_stop {A} (p : A -> bool) x r :
  forallb p x = false -> dropWhile p (x ++ r) = dropWhile p x ++ r.
Proof.
  induction x as [|a x IH]; [discriminate|]. cbn.
  destruct (p a); [exact IH|reflexivity].
Qed.

Lemma trimEnd_app x r : forallb isWhiteSpace r = true -> trimEnd (x ++ r) = trimEnd x.
Proof.
  intros H. unfold trimEnd. rewrite rev_app_distr, dropWhile_app; [reflexivity|].
  rewrite forallb_forall in H |- *. intros c Hc. apply H. apply in_rev. exact Hc.
Qed.

Lemma trim_surrounded l v r :
  forallb isWhiteSpace l = true -> forallb isWhiteSpace r = true ->
  trim (l ++ v ++ r) = trim v.
Proof.
  intros Hl Hr. unfold trim, trimStart. rewrite dropWhile_app by exact Hl.
  destruct (forallb isWhiteSpace v) eqn:Hv.
  - rewrite dropWhile_app by exact Hv.
    rewrite (dropWhile_all _ _ Hr), (dropWhile_all _ _ Hv). reflexivity.
  - rewrite dropWhile_app_stop by exact Hv. apply trimEnd_app. exact Hr.
Qed.

Lemma toLowerCase_space l : forallb isWhiteSpace l = true -> toLowerCase l = l.
Proof.
  intros H. rewrite forallb_forall in H. unfold toLowerCase.
  rewrite <- (map_id l) at 2. apply map_ext_in. intros c Hc. specialize (H c Hc).
  revert H. unfold isWhiteSpace, toLowerUnit. generalize (code c) as n. intros n H.
  match goal with |- (if ?b then _ else _) = _ => destruct b eqn:E end; [exfalso|reflexivity].
  repeat match goal with
  | H : (_ || _) = true |- _ => apply orb_true_iff in H; destruct H as [H|H]
  | H : (_ && _) = true |- _ => apply andb_true_iff in H; destruct H as [? H]
  end; rewrite ?N.leb_le, ?N.eqb_eq in *; lia.
Qed.

End TrimFacts.

Section SlugFixedPoints.

Import SlugSpec.

Lemma toLowerUnit_slug_char c : slug_char c = true -> toLowerUnit c = c.
Proof.
  unfold slug_char, toLowerUnit, isLower, isDigit, is_hyphen.
  change (code hyphen) with 45%N. generalize (code c). intros n H.
  match goal with |- (if ?b then _ else _) = _ => destruct b eqn:E end; [exfalso|reflexivity].
  repeat match goal with
  | H : (_ || _) = true |- _ => apply orb_true_iff in H; destruct H as [H|H]
  | H : (_ && _) = true |- _ => apply andb_true_iff in H; destruct H as [? H]
  end; rewrite ?N.leb_le, ?N.eqb_eq in *; lia.
Qed.

Lemma collapse_none p s :
  forallb (fun c => negb (p c)) s = true -> collapse p s = s.
Proof.
  induction s as [|a s IH]; [reflexivity|].
  cbn [forallb collapse]. intros H. apply andb_true_iff in H as [Ha Hs].
  apply negb_true_iff in Ha. rewrite Ha, (IH Hs). reflexivity.
Qed.

Lemma is_hyphen_eq a : is_hyphen a = true -> a = hyphen.
Proof. apply code_inj. Qed.

Lemma collapse_single_hyphens s :
  adjacent_hyphens s = false -> collapse is_hyphen s = s.
Proof.
  induction s as [|a s IH]; [reflexivity|].
  cbn [adjacent_hyphens collapse]. intros H. apply orb_false_iff in H as [Ha Hs].
  specialize (IH Hs). destruct (is_hyphen a) eqn:Ea.
  - apply is_hyphen_eq in Ea. subst a. destruct s as [|b s']; [reflexivity|].
    cbn [leading_hyphen andb] in Ha. rewrite Ha, IH. reflexivity.
  - rewrite IH. reflexivity.
Qed.

Lemma slug_of_title_fixed s :
  forallb slug_char s = true -> adjacent_hyphens s = false -> slug_of_title s = s.
Proof.
  intros Hc Ha. unfold slug_of_title.
  pose proof Hc as Hall. rewrite forallb_forall in Hall.
  assert (E1 : toLowerCase s = s).
  { unfold toLowerCase. rewrite <- (map_id s) at 2. apply map_ext_in.
    intros c Hin. apply toLowerUnit_slug_char, Hall, Hin. }
  assert (Hns : forallb (fun c => negb (isWhiteSpace c)) s = true).
  { apply forallb_forall. intros c Hin. rewrite (slug_char_not_space c (Hall c Hin)). reflexivity. }
  rewrite E1, (trim_no_space s Hns).
  assert (E2 : List.filter slug_or_space s = s).
  { apply forallb_filter_id. apply forallb_forall. intros c Hin.
    specialize (Hall c Hin). unfold slug_char in Hall. unfold slug_or_space.
    destruct (isLower c); [reflexivity|]. destruct (isDigit c); [reflexivity|].
    cbn in Hall |- *. rewrite Hall. apply orb_true_r. }
  rewrite E2, (collapse_none _ _ Hns). apply collapse_single_hyphens. exact Ha.
Qed.

Lemma length_collapse p s : length (collapse p s) <= length s.
Proof.
  induction s as [|a s IH]; [reflexivity|].
  cbn [collapse]. destruct (p a).
  - destruct s as [|b s']; [reflexivity|]. destruct (p b); cbn [length] in *; lia.
  - cbn [length]. lia.
Qed.

Lemma length_trim s : length (trim s) <= length s.
Proof.
  unfold trim, trimEnd, trimStart. rewrite length_rev.
  pose proof (length_dropWhile isWhiteSpace (rev (dropWhile isWhiteSpace s))) as H1.
  rewrite length_rev in H1. pose proof (length_dropWhile isWhiteSpace s). lia.
Qed.

End SlugFixedPoints.

Section WordFacts.

Import SlugSpec Words.

Lemma collapse_app_other p l x :
  forallb (fun c => negb (p c)) l = true -> collapse p (l ++ x) = l ++ collapse p x.
Proof.
  induction l as [|a l IH]; [reflexivity|]. cbn [forallb app]. intros H.
  apply andb_true_iff in H as [Ha Hl]. apply negb_true_iff in Ha.
  cbn [collapse]. rewrite Ha, (IH Hl). reflexivity.
Qed.

Lemma collapse_gap p g b x :
  g <> [] -> forallb p g = true -> p b = false ->
  collapse p (g ++ b :: x) = hyphen :: collapse p (b :: x).
Proof.
  intros Hne Hg Hb. destruct g as [|a g]; [congruence|].
  cbn [forallb] in Hg. apply andb_true_iff in Hg as [Ha Hg].
  cbn [app]. rewrite (collapse_run p a _ Ha), (dropWhile_app p g _ Hg).
  cbn [dropWhile]. rewrite Hb. reflexivity.
Qed.

(** Collapsing the gaps of words that hold no code unit of the gaps. *)
Lemma collapse_spaced p : forall rest w,
  w <> [] -> forallb (fun c => negb (p c)) w = true ->
  Forall (fun q => (fst q <> [] /\ forallb p (fst q) = true) /\
                   (snd q <> [] /\ forallb (fun c => negb (p c)) (snd q) = true)) rest ->
  collapse p (spaced w rest) = hyphenated w rest.
Proof.
  induction rest as [|[g w'] rest IH]; intros w Hne Hw Hr; cbn [spaced hyphenated].
  - apply collapse_none. exact Hw.
  - apply Forall_cons in Hr as [[[Hg1 Hg2] [Hw1 Hw2]] Hr]. cbn [fst snd] in *.
    rewrite (collapse_app_other p w _ Hw). f_equal.
    specialize (IH w' Hw1 Hw2 Hr).
    assert (Hhead : exists b x, spaced w' rest = b :: x /\ p b = false).
    { destruct w' as [|b w'']; [congruence|]. cbn [forallb] in Hw2.
      apply andb_true_iff in Hw2 as [Hb _]. apply negb_true_iff in Hb.
      destruct rest as [|[g2 w2] rest']; cbn [spaced app]; eauto. }
    destruct Hhead as (b & x & E & Hb). rewrite E in IH |- *.
    rewrite (collapse_gap p g b x Hg1 Hg2 Hb). f_equal. exact IH.
Qed.

Lemma hyphenated_as_spaced w rest :
  hyphenated w rest = spaced w (map (fun q => ([hyphen], snd q)) rest).
Proof.
  revert w. induction rest as [|[g w'] rest IH]; intros w; cbn [hyphenated spaced map snd];
    [reflexivity|]. rewrite IH. reflexivity.
Qed.

Lemma alnum_lower c :
  alnum c = true ->
  isWhiteSpace (toLowerUnit c) = false /\ is_hyphen (toLowerUnit c) = false /\
  slug_or_space (toLowerUnit c) = true.
Proof.
  unfold alnum. intros H.
  assert (Hs : slug_char (toLowerUnit c) = true).
  { unfold slug_char. apply orb_true_iff in H as [H|H]; rewrite H; [reflexivity|].
    apply orb_true_r. }
  split; [exact (slug_char_not_space _ Hs)|]. split.
  - revert H. unfold isLower, isDigit, is_hyphen. change (code hyphen) with 45%N.
    generalize (code (toLowerUnit c)). intros n H. apply N.eqb_neq. intros ->.
    vm_compute in H. discriminate.
  - unfold slug_or_space. apply orb_true_iff in H as [H|H]; rewrite H; [reflexivity|].
    apply orb_true_r.
Qed.

Lemma toLowerCase_spaced w rest :
  words_and_gaps rest ->
  toLowerCase (spaced w rest)
  = spaced (toLowerCase w) (map (fun q => (fst q, toLowerCase (snd q))) rest).
Proof.
  revert w. induction rest as [|[g w'] rest IH]; intros w Hr; cbn [spaced map fst snd];
    [reflexivity|].
  apply Forall_cons in Hr as [[[_ Hg] _] Hr]. cbn [fst] in Hg.
  unfold toLowerCase at 1. rewrite !map_app.
  fold (toLowerCase w) (toLowerCase g) (toLowerCase (spaced w' rest)).
  rewrite (toLowerCase_space g Hg), (IH w' Hr). reflexivity.
Qed.

Lemma toLowerCase_hyphenated w rest :
  toLowerCase (hyphenated w rest)
  = hyphenated (toLowerCase w) (map (fun q => (fst q, toLowerCase (snd q))) rest).
Proof.
  revert w. induction rest as [|[g w'] rest IH]; intros w; cbn [hyphenated map fst snd];
    [reflexivity|].
  unfold toLowerCase at 1. rewrite map_app. cbn [map].
  fold (toLowerCase w) (toLowerCase (hyphenated w' rest)).
  rewrite (IH w'). reflexivity.
Qed.

(** Lower-cased words and the gaps between them are kept by the filter and
    by [trim]. *)
Lemma spaced_kept : forall rest w,
  w <> [] -> forallb alnum w = true -> words_and_gaps rest ->
  let t := spaced (toLowerCase w) (map (fun q => (fst q, toLowerCase (snd q))) rest) in
  forallb slug_or_space t = true
  /\ (exists a x, t = a :: x /\ isWhiteSpace a = false)
  /\ (exists x z, t = x ++ [z] /\ isWhiteSpace z = false).
Proof.
  assert (Hw : forall w, w <> [] -> forallb alnum w = true ->
            forallb slug_or_space (toLowerCase w) = true
            /\ (exists a x, toLowerCase w = a :: x /\ isWhiteSpace a = false)
            /\ (exists x z, toLowerCase w = x ++ [z] /\ isWhiteSpace z = false)).
  { intros w Hne Hall. rewrite forallb_forall in Hall. split; [|split].
    - apply forallb_forall. intros c Hc. unfold toLowerCase in Hc. apply in_map_iff in Hc.
      destruct Hc as (c0 & <- & Hc0). apply alnum_lower. apply Hall. exact Hc0.
    - destruct w as [|a x]; [congruence|]. exists (toLowerUnit a), (toLowerCase x).
      split; [reflexivity|]. apply alnum_lower. apply Hall. left. reflexivity.
    - destruct (exists_last Hne) as (x & z & ->). exists (toLowerCase x), (toLowerUnit z).
      split; [unfold toLowerCase; rewrite map_app; reflexivity|].
      apply alnum_lower. apply Hall. apply in_or_app. right. left. reflexivity. }
  induction rest as [|[g w'] rest IH]; intros w Hne Hall Hr; cbv zeta; cbn [spaced map fst snd].
  - apply Hw; assumption.
  - apply Forall_cons in Hr as [[[Hg1 Hg2] [Hw1 Hw2]] Hr]. cbn [fst snd] in *.
    destruct (Hw w Hne Hall) as (K1 & (a & x & E1 & Ha) & _).
    destruct (IH w' Hw1 Hw2 Hr) as (K2 & _ & (y & z & E2 & Hz)). cbv zeta in K2, E2.
    split; [|split].
    + rewrite !forallb_app, K1, K2, andb_true_r. cbn [andb].
      apply forallb_forall. intros c Hc. rewrite forallb_forall in Hg2.
      unfold slug_or_space. rewrite (Hg2 c Hc). rewrite !orb_true_r. reflexivity.
    + exists a, (x ++ g ++ spaced (toLowerCase w')
                          (map (fun q => (fst q, toLowerCase (snd q))) rest)).
      split; [rewrite E1; reflexivity|exact Ha].
    + exists (toLowerCase w ++ g ++ y), z. split; [|exact Hz].
      rewrite E2, <- !app_assoc. reflexivity.
Qed.

Lemma trim_ends t a x y z :
  t = a :: x -> isWhiteSpace a = false -> t = y ++ [z] -> isWhiteSpace z = false ->
  trim t = t.
Proof.
  intros E1 Ha E2 Hz. unfold trim, trimStart, trimEnd.
  assert (S1 : dropWhile isWhiteSpace t = t) by (rewrite E1; cbn; rewrite Ha; reflexivity).
  rewrite S1.
  assert (S2 : dropWhile isWhiteSpace (rev t) = rev t).
  { rewrite E2, rev_app_distr. cbn. rewrite Hz. reflexivity. }
  rewrite S2. apply rev_involutive.
Qed.

End WordFacts.

(** ** The time of day and the calendar, further *)

Section TimeNormalForm.

Import TimeSpec.

Lemma digit_not_space a : isDigit a = true -> isWhiteSpace a = false.
Proof.
  unfold isDigit, isWhiteSpace. generalize (code a). intros n H.
  apply andb_true_iff in H as [H1 H2]. apply N.leb_le in H1, H2.
  repeat (apply orb_false_iff; split); rewrite ?andb_false_iff, ?N.leb_gt, ?N.eqb_neq; lia.
Qed.

Lemma two_digits_ok z :
  (0 <= z <= 99)%Z ->
  digits (two_digits z) /\ length (two_digits z) = 2 /\ decimal (two_digits z) = z.
Proof.
  intros Hz.
  pose proof (all_from_spec pad2_ok _ _ pad2_ok_all z ltac:(lia)) as P.
  unfold pad2_ok, Date.pad in P. rewrite padStart_two_digits in P by lia.
  destruct (two_digits z) as [|a [|b [|]]]; try discriminate.
  apply andb_true_iff in P as [P Hd]. apply Z.eqb_eq in Hd.
  apply andb_true_iff in P as [Pa Pb].
  unfold digits. cbn [forallb]. rewrite Pa, Pb. repeat split. exact Hd.
Qed.

Lemma stored_no_space p :
  well_formed p -> in_range p -> trim (stored p) = stored p.
Proof.
  intros (HH & HlH & HM & HlM & _) [RH RM].
  pose proof (decimal_range _ HH ltac:(lia)) as BH.
  pose proof (decimal_range _ HM ltac:(lia)) as BM.
  destruct (two_digits_ok (decimal (hour p)) ltac:(lia)) as (D1 & _ & _).
  destruct (two_digits_ok (decimal (minute p)) ltac:(lia)) as (D2 & _ & _).
  apply trim_no_space. unfold stored. rewrite forallb_app. cbn [forallb].
  assert (G : forall l, digits l -> forallb (fun c => negb (isWhiteSpace c)) l = true).
  { intros l Hl. unfold digits in Hl. rewrite forallb_forall in Hl.
    apply forallb_forall. intros c Hc. rewrite (digit_not_space c (Hl c Hc)). reflexivity. }
  rewrite (G _ D1), (G _ D2). reflexivity.
Qed.

Lemma normalizeTime_stored p :
  well_formed p -> in_range p -> normalizeTime (stored p) = Ok (stored p).
Proof.
  intros Hw Hr. pose proof (stored_no_space p Hw Hr) as Htrim.
  destruct Hw as (HH & HlH & HM & HlM & _). destruct Hr as [RH RM].
  pose proof (decimal_range _ HH ltac:(lia)) as BH.
  pose proof (decimal_range _ HM ltac:(lia)) as BM.
  destruct (two_digits_ok (decimal (hour p)) ltac:(lia)) as (D1 & L1 & E1).
  destruct (two_digits_ok (decimal (minute p)) ltac:(lia)) as (D2 & L2 & E2).
  set (q := {| hour := two_digits (decimal (hour p));
               minute := two_digits (decimal (minute p)); second := None |}).
  assert (Hq : stored q = stored p).
  { unfold stored, q. cbn [hour minute]. rewrite E1, E2. reflexivity. }
  rewrite <- Hq at 2. apply normalizeTime_Ok_intro.
  - unfold well_formed, q. cbn [hour minute second]. repeat split; auto.
  - rewrite Htrim. unfold text_of, stored, q. cbn [hour minute second].
    rewrite app_nil_r. reflexivity.
  - unfold in_range, q. cbn [hour minute]. rewrite E1, E2. split; assumption.
Qed.

End TimeNormalForm.

Section CalendarDays.

Import DateSpec.
Local Open Scope Z_scope.

Lemma leap_day_range y : 0 <= leap_day y <= 1.
Proof. unfold leap_day. destruct (Date.isLeapYear y); lia. Qed.

Lemma DayFromYear_succ y :
  Date.DayFromYear (y + 1) = Date.DayFromYear y + 365 + leap_day y.
Proof.
  unfold leap_day, Date.DayFromYear, Date.isLeapYear.
  destruct (Z.eqb_spec (y mod 4) 0), (Z.eqb_spec (y mod 100) 0),
    (Z.eqb_spec (y mod 400) 0); cbn [andb orb negb];
    Z.div_mod_to_equations; lia.
Qed.

Lemma DayFromYear_mono y y' : y <= y' -> Date.DayFromYear y <= Date.DayFromYear y'.
Proof. intros H. unfold Date.DayFromYear. Z.div_mod_to_equations. lia. Qed.

Lemma validDate_month y m d :
  Date.validDate y m d = true ->
  let o := Date.daysBeforeMonth y m + d in
  let l := leap_day y in
  (m = 1 /\ o = d /\ 1 <= d <= 31) \/ (m = 2 /\ o = 31 + d /\ 1 <= d <= 28 + l) \/
  (m = 3 /\ o = 59 + l + d /\ 1 <= d <= 31) \/ (m = 4 /\ o = 90 + l + d /\ 1 <= d <= 30) \/
  (m = 5 /\ o = 120 + l + d /\ 1 <= d <= 31) \/ (m = 6 /\ o = 151 + l + d /\ 1 <= d <= 30) \/
  (m = 7 /\ o = 181 + l + d /\ 1 <= d <= 31) \/ (m = 8 /\ o = 212 + l + d /\ 1 <= d <= 31) \/
  (m = 9 /\ o = 243 + l + d /\ 1 <= d <= 30) \/ (m = 10 /\ o = 273 + l + d /\ 1 <= d <= 31) \/
  (m = 11 /\ o = 304 + l + d /\ 1 <= d <= 30) \/ (m = 12 /\ o = 334 + l + d /\ 1 <= d <= 31).
Proof.
  unfold Date.validDate. rewrite !andb_true_iff, !Z.leb_le. intros [[[Hm1 Hm2] Hd1] Hd2].
  destruct (month_table y)
    as (D1 & D2 & D3 & D4 & D5 & D6 & D7 & D8 & D9 & D10 & D11 & D12 &
        B1 & B2 & B3 & B4 & B5 & B6 & B7 & B8 & B9 & B10 & B11 & B12).
  cbv zeta.
  assert (Hc : m = 1 \/ m = 2 \/ m = 3 \/ m = 4 \/ m = 5 \/ m = 6 \/ m = 7 \/ m = 8 \/
               m = 9 \/ m = 10 \/ m = 11 \/ m = 12) by lia.
  repeat (destruct Hc as [Hc|Hc]); subst m;
    rewrite ?D1, ?D2, ?D3, ?D4, ?D5, ?D6, ?D7, ?D8, ?D9, ?D10, ?D11, ?D12 in Hd2;
    rewrite ?B1, ?B2, ?B3, ?B4, ?B5, ?B6, ?B7, ?B8, ?B9, ?B10, ?B11, ?B12; lia.
Qed.

Lemma validDate_offset y m d :
  Date.validDate y m d = true ->
  0 <= Date.daysBeforeMonth y m + (d - 1) < 365 + leap_day y.
Proof.
  intros Hv. pose proof (validDate_month _ _ _ Hv) as H. cbv zeta in H.
  pose proof (leap_day_range y). lia.
Qed.

Lemma validDate_offset_inj y m d m' d' :
  Date.validDate y m d = true -> Date.validDate y m' d' = true ->
  Date.daysBeforeMonth y m + d = Date.daysBeforeMonth y m' + d' ->
  m = m' /\ d = d'.
Proof.
  intros Hv Hv' E.
  pose proof (validDate_month _ _ _ Hv) as H. pose proof (validDate_month _ _ _ Hv') as H'.
  cbv zeta in H, H'. pose proof (leap_day_range y).
  rewrite <- E in H'. clear E Hv Hv'.
  generalize dependent (Date.daysBeforeMonth y m + d). generalize dependent (leap_day y).
  intros. lia.
Qed.

Lemma MakeDay_inj y m d y' m' d' :
  Date.validDate y m d = true -> Date.validDate y' m' d' = true ->
  Date.MakeDay y m d = Date.MakeDay y' m' d' -> y = y' /\ m = m' /\ d = d'.
Proof.
  intros Hv Hv' E. unfold Date.MakeDay in E.
  pose proof (validDate_offset _ _ _ Hv) as O.
  pose proof (validDate_offset _ _ _ Hv') as O'.
  pose proof (DayFromYear_succ y) as S1. pose proof (DayFromYear_succ y') as S2.
  assert (Hy : y = y').
  { destruct (Z.lt_trichotomy y y') as [L|[L|L]]; [|exact L|].
    - pose proof (DayFromYear_mono (y + 1) y' ltac:(lia)). lia.
    - pose proof (DayFromYear_mono (y' + 1) y ltac:(lia)). lia. }
  subst y'. split; [reflexivity|].
  apply (validDate_offset_inj y); try assumption. lia.
Qed.

(** The year, month and day of the day number of a calendar day are that
    day's. *)
Lemma civil_ok_inv day y m d :
  Date.civil day = (y, m, d) -> Date.validDate y m d = true /\ Date.MakeDay y m d = day.
Proof.
  intros E. pose proof (civil_ok_all day) as H. unfold civil_ok in H. rewrite E in H.
  apply andb_true_iff in H as [Hv Hd]. apply Z.eqb_eq in Hd. split; assumption.
Qed.

Lemma civil_MakeDay y m d :
  Date.validDate y m d = true -> Date.civil (Date.MakeDay y m d) = (y, m, d).
Proof.
  intros Hv. remember (Date.MakeDay y m d) as day eqn:Eday.
  destruct (Date.civil day) as [[y' m'] d'] eqn:E.
  apply civil_ok_inv in E. destruct E as [Hv' E]. rewrite Eday in E.
  destruct (MakeDay_inj _ _ _ _ _ _ Hv' Hv E) as (-> & -> & ->). reflexivity.
Qed.

End CalendarDays.

Section DateTexts.

Import DateSpec.
Local Open Scope Z_scope.

Lemma digit_value_inj a b :
  isDigit a = true -> isDigit b = true -> digit_value a = digit_value b -> a = b.
Proof.
  intros _ _ H. unfold digit_value in H. apply code_inj. apply N.eqb_eq. lia.
Qed.

(** The first ten code units of the ISO text of an instant of the years
    0..9999. *)
Lemma toISOString_date t y m d :
  Date.civil (t / Date.msPerDay) = (y, m, d) -> 0 <= y <= 9999 ->
  slice 0 10 (Date.toISOString t)
  = Date.pad 4 y ++ str "-" ++ Date.pad 2 m ++ str "-" ++ Date.pad 2 d.
Proof.
  intros Hc Hy. pose proof (civil_range (t / Date.msPerDay)) as Hr. rewrite Hc in Hr.
  destruct (parse_date_only_ymd y m d Hy ltac:(lia) ltac:(lia)) as [Hshape _].
  cbv zeta in Hshape.
  set (r := Date.pad 4 y ++ str "-" ++ Date.pad 2 m ++ str "-" ++ Date.pad 2 d) in *.
  assert (Hlen : length r = 10%nat).
  { unfold year_month_day in Hshape.
    destruct r as [|? [|? [|? [|? [|? [|? [|? [|? [|? [|? [|]]]]]]]]]]]; try discriminate.
    reflexivity. }
  unfold Date.toISOString. rewrite Hc.
  replace ((0 <=? y) && (y <=? 9999)) with true
    by (symmetry; apply andb_true_iff; split; apply Z.leb_le; lia).
  match goal with |- slice 0 10 (?a ++ ?b ++ ?c ++ ?e ++ ?f ++ ?g) = _ =>
    replace (a ++ b ++ c ++ e ++ f ++ g) with (r ++ g)
      by (unfold r; rewrite <- !app_assoc; reflexivity) end.
  apply slice_date_prefix. exact Hlen.
Qed.

Lemma year_month_day_parse s :
  year_month_day s = true ->
  exists y m d,
    Date.parse_date_only s = Some (y, m, d) /\ 0 <= y <= 9999 /\ 0 <= m <= 99 /\ 0 <= d <= 99 /\
    s = Date.pad 4 y ++ str "-" ++ Date.pad 2 m ++ str "-" ++ Date.pad 2 d.
Proof.
  unfold year_month_day.
  destruct s as [|y1 [|y2 [|y3 [|y4 [|h1 [|m1 [|m2 [|h2 [|d1 [|d2 [|]]]]]]]]]]]; try discriminate.
  intros H.
  repeat match goal with
  | H : (_ && _) = true |- _ => apply andb_true_iff in H; destruct H as [H ?]
  end.
  repeat match goal with H : (code _ =? code _)%N = true |- _ => apply code_inj in H; subst end.
  set (y := decimal [y1; y2; y3; y4]). set (m := decimal [m1; m2]). set (d := decimal [d1; d2]).
  repeat match goal with
  | H : isDigit ?a = true |- _ =>
      lazymatch goal with
      | _ : (0 <= digit_value a <= 9) |- _ => fail
      | _ => pose proof (digit_value_range a H)
      end
  end.
  assert (Hy : 0 <= y <= 9999) by (unfold y, decimal; cbn [fold_left]; lia).
  assert (Hm : 0 <= m <= 99) by (unfold m, decimal; cbn [fold_left]; lia).
  assert (Hd : 0 <= d <= 99) by (unfold d, decimal; cbn [fold_left]; lia).
  pose proof (all_from_spec pad4_ok _ _ pad4_ok_all y ltac:(lia)) as Py.
  pose proof (all_from_spec pad2_ok _ _ pad2_ok_all m ltac:(lia)) as Pm.
  pose proof (all_from_spec pad2_ok _ _ pad2_ok_all d ltac:(lia)) as Pd.
  unfold pad4_ok in Py. unfold pad2_ok in Pm, Pd.
  destruct (Date.pad 4 y) as [|a1 [|a2 [|a3 [|a4 [|]]]]] eqn:E4; try discriminate.
  destruct (Date.pad 2 m) as [|b1 [|b2 [|]]] eqn:E2; try discriminate.
  destruct (Date.pad 2 d) as [|c1 [|c2 [|]]] eqn:E3; try discriminate.
  repeat match goal with
  | H : (_ && _) = true |- _ => apply andb_true_iff in H; destruct H as [H ?]
  end.
  repeat match goal with H : (_ =? _) = true |- _ => apply Z.eqb_eq in H end.
  repeat match goal with
  | H : isDigit ?a = true |- _ =>
      lazymatch goal with
      | _ : (0 <= digit_value a <= 9) |- _ => fail
      | _ => pose proof (digit_value_range a H)
      end
  end.
  assert (a1 = y1 /\ a2 = y2 /\ a3 = y3 /\ a4 = y4) as (-> & -> & -> & ->).
  { unfold y, decimal in *. cbn [fold_left] in *.
    repeat split; apply digit_value_inj; try assumption; lia. }
  assert (b1 = m1 /\ b2 = m2) as (-> & ->).
  { unfold m, decimal in *. cbn [fold_left] in *.
    repeat split; apply digit_value_inj; try assumption; lia. }
  assert (c1 = d1 /\ c2 = d2) as (-> & ->).
  { unfold d, decimal in *. cbn [fold_left] in *.
    repeat split; apply digit_value_inj; try assumption; lia. }
  exists y, m, d. split; [|repeat split; try lia; rewrite E4, E2, E3; reflexivity].
  pose proof (parse_date_only_ymd y m d Hy Hm Hd) as [_ P]. cbv zeta in P.
  rewrite E4, E2, E3 in P. exact P.
Qed.

Lemma DayFromYear_0_9999 y : 0 <= y <= 10000 -> -719528 <= Date.DayFromYear y <= 2932897.
Proof.
  intros H. pose proof (DayFromYear_mono 0 y ltac:(lia)).
  pose proof (DayFromYear_mono y 10000 ltac:(lia)).
  change (Date.DayFromYear 0) with (-719528) in *.
  change (Date.DayFromYear 10000) with 2932897 in *. lia.
Qed.

(** The text of a calendar day of the years 0..9999 in the year-month-day
    shape is a date whatever the engine, and is its own normal form. *)
Lemma normalizeDate_ymd impl y m d :
  0 <= y <= 9999 -> Date.validDate y m d = true ->
  let r := Date.pad 4 y ++ str "-" ++ Date.pad 2 m ++ str "-" ++ Date.pad 2 d in
  Date.new impl r = Some (Date.MakeDay y m d * Date.msPerDay) /\ normalizeDate impl r = Ok r.
Proof.
  intros Hy Hv. cbv zeta.
  pose proof (validDate_offset _ _ _ Hv) as Ho. pose proof (leap_day_range y).
  pose proof (DayFromYear_0_9999 y ltac:(lia)) as Hb.
  assert (Hmd : 0 <= m <= 99 /\ 0 <= d <= 99).
  { pose proof (validDate_month _ _ _ Hv) as Hc. cbv zeta in Hc. lia. }
  destruct (parse_date_only_ymd y m d Hy ltac:(lia) ltac:(lia)) as [_ Hp]. cbv zeta in Hp.
  set (r := Date.pad 4 y ++ str "-" ++ Date.pad 2 m ++ str "-" ++ Date.pad 2 d) in *.
  set (day := Date.MakeDay y m d).
  assert (Hday : -719528 <= day <= 2932897 + 366).
  { unfold day, Date.MakeDay. lia. }
  assert (Hclip : Date.TimeClip (day * Date.msPerDay) = Some (day * Date.msPerDay)).
  { unfold Date.TimeClip, Date.msPerDay, Date.maxTime.
    destruct (Z.leb_spec (Z.abs (day * 86400000)) 8640000000000000); [reflexivity|lia]. }
  assert (Hnew : Date.new impl r = Some (day * Date.msPerDay)).
  { unfold Date.new, Date.parse, Date.parse_utc_date. rewrite Hp, Hv. fold day.
    rewrite Hclip. exact Hclip. }
  split; [exact Hnew|].
  unfold normalizeDate. rewrite Hnew. f_equal. apply toISOString_date; [|exact Hy].
  rewrite Z.div_mul by (unfold Date.msPerDay; lia). apply civil_MakeDay. exact Hv.
Qed.

End DateTexts.

(** ** [save], further: what the hook leaves, how a save fails *)

Section HookFacts.

Import SlugSpec EventSpec DateSpec TimeSpec.

Lemma no_space_app a b : no_space (a ++ b) = no_space a && no_space b.
Proof. apply forallb_app. Qed.

Lemma digit_char_no_space z : (0 <= z <= 9)%Z -> isWhiteSpace (digit_char z) = false.
Proof.
  intros H. apply digit_not_space. unfold digit_char, isDigit, code.
  rewrite N_ascii_embedding by lia. apply andb_true_iff. split; apply N.leb_le; lia.
Qed.

Lemma digits_of_no_space fuel : forall z acc,
  no_space acc = true -> no_space (digits_of fuel z acc) = true.
Proof.
  induction fuel as [|fuel IH]; intros z acc Hacc; [exact Hacc|].
  cbn [digits_of].
  assert (H1 : no_space (digit_char (z mod 10) :: acc) = true).
  { unfold no_space in Hacc |- *. cbn [forallb]. rewrite digit_char_no_space, Hacc; [reflexivity|].
    pose proof (Z.mod_pos_bound z 10 ltac:(lia)). lia. }
  destruct (z <? 10)%Z; [exact H1|]. apply IH. exact H1.
Qed.

Lemma toString_no_space z : no_space (toString (Int z)) = true.
Proof.
  unfold toString. destruct (z <? 0)%Z.
  - change (no_space ("-"%char :: ?l)) with (no_space l). apply digits_of_no_space. reflexivity.
  - apply digits_of_no_space. reflexivity.
Qed.

Lemma fillTo_zero_no_space n : forall cur, no_space cur = true ->
  no_space (fillTo n (str "0") cur) = true.
Proof.
  induction n as [|n IH]; intros cur Hc; [reflexivity|].
  cbn [fillTo]. destruct cur as [|c cs].
  - cbn. change (no_space (fillTo n (str "0") []) = true). apply IH. reflexivity.
  - unfold no_space in Hc |- *. cbn [forallb] in Hc |- *.
    apply andb_true_iff in Hc as [H1 H2]. rewrite H1. apply IH. exact H2.
Qed.

Lemma pad_no_space n z : no_space (Date.pad n z) = true.
Proof.
  unfold Date.pad.
  change (no_space (fillTo (n - length (toString (Int z))) (str "0") (str "0")
                      ++ toString (Int z)) = true).
  rewrite no_space_app, toString_no_space, fillTo_zero_no_space; reflexivity.
Qed.

Lemma toISOString_no_space t : no_space (Date.toISOString t) = true.
Proof.
  unfold Date.toISOString. destruct (Date.civil _) as [[y m] d].
  rewrite !no_space_app, !pad_no_space.
  destruct ((0 <=? y)%Z && (y <=? 9999)%Z).
  - rewrite pad_no_space. reflexivity.
  - change (no_space (?c :: Date.pad 6 (Z.abs y)))
      with (negb (isWhiteSpace c) && no_space (Date.pad 6 (Z.abs y))).
    rewrite pad_no_space. destruct (y <? 0)%Z; reflexivity.
Qed.

Lemma no_space_slice a b s : no_space s = true -> no_space (slice a b s) = true.
Proof.
  unfold no_space, slice. rewrite !forallb_forall. intros H c Hc.
  apply H. apply list_elem_of_In. apply list_elem_of_In in Hc.
  apply (subseteq_drop a s). apply (subseteq_take (b - a) _). exact Hc.
Qed.

Lemma normalizeDate_no_space impl value dt :
  normalizeDate impl value = Ok dt -> trim dt = dt /\ nonEmptyString dt = true.
Proof.
  unfold normalizeDate. destruct (Date.new impl value) as [t|]; [|discriminate].
  intros [= <-].
  assert (Hns : no_space (slice 0 10 (Date.toISOString t)) = true)
    by (apply no_space_slice, toISOString_no_space).
  pose proof (trim_no_space _ Hns) as Htrim. split; [exact Htrim|].
  unfold nonEmptyString. rewrite Htrim.
  unfold Date.toISOString. destruct (Date.civil _) as [[y m] d].
  destruct ((0 <=? y)%Z && (y <=? 9999)%Z).
  - unfold Date.pad at 1, padStart. change (str "0") with ["0"%char].
    destruct (toString (Int y)) as [|c l] eqn:E.
    + reflexivity.
    + cbn [length]. destruct (4 - S (length l)) as [|k]; reflexivity.
  - reflexivity.
Qed.

Lemma normalizeTime_no_space value tm :
  normalizeTime value = Ok tm -> trim tm = tm /\ nonEmptyString tm = true.
Proof.
  intros H. apply normalizeTime_Ok_inv in H. destruct H as (p & Hw & _ & Hr & ->).
  pose proof (stored_no_space p Hw Hr) as Ht. split; [exact Ht|].
  unfold nonEmptyString. rewrite Ht. reflexivity.
Qed.

(** What the hook leaves of a document that passes it. *)
Lemma event_pre_save_Ok impl d d1 :
  nonEmptyString (title (event_attrs d)) = true ->
  event_pre_save impl d = Ok d1 ->
  exists dt tm,
    normalizeDate impl (date (event_attrs d)) = Ok dt /\
    normalizeTime (time (event_attrs d)) = Ok tm /\
    event_attrs d1 = with_hook_paths (hook_slug d) dt tm (event_attrs d) /\
    event_id d1 = event_id d /\ event_isNew d1 = event_isNew d.
Proof.
  intros Ht. unfold event_pre_save, hook_slug, bind. rewrite Ht, andb_true_r.
  destruct (isModified "title" d || slug_unset (event_attrs d));
    cbn [assign event_attrs with_slug with_date date time];
    (destruct (normalizeDate impl _) as [dt|] eqn:Ed; [|discriminate]);
    cbn [assign event_attrs with_slug with_date date time];
    (destruct (normalizeTime _) as [tm|] eqn:Em; [|discriminate]);
    intros [= <-]; exists dt, tm;
    destruct (normalizeDate_no_space _ _ _ Ed) as [E1 _];
    destruct (normalizeTime_no_space _ _ Em) as [E2 _];
    unfold with_time, with_date, with_slug, with_hook_paths, assign;
    cbn [event_attrs event_id event_isNew title slug description overview image venue
         location date time mode audience agenda organizer tags];
    rewrite ?trim_slugify, E1, E2; repeat split.
Qed.

Lemma event_pre_save_intro impl d dt tm :
  nonEmptyString (title (event_attrs d)) = true ->
  normalizeDate impl (date (event_attrs d)) = Ok dt ->
  normalizeTime (time (event_attrs d)) = Ok tm ->
  exists d1, event_pre_save impl d = Ok d1 /\
    event_attrs d1 = with_hook_paths (hook_slug d) dt tm (event_attrs d) /\
    event_id d1 = event_id d /\ event_isNew d1 = event_isNew d.
Proof.
  intros Ht Ed Em.
  destruct (event_pre_save impl d) as [d1|e] eqn:E.
  - exists d1. split; [reflexivity|].
    destruct (event_pre_save_Ok impl d d1 Ht E) as (dt' & tm' & Ed' & Em' & Ha & Hi & Hn).
    rewrite Ed in Ed'. rewrite Em in Em'. injection Ed' as <-. injection Em' as <-.
    repeat split; assumption.
  - exfalso. unfold event_pre_save in E.
    destruct ((isModified "title" d || slug_unset (event_attrs d))
              && nonEmptyString (title (event_attrs d)));
      cbn [assign event_attrs with_slug with_date date time] in E; unfold bind in E;
      rewrite Ed in E; cbn [assign event_attrs with_slug with_date date time] in E;
      rewrite Em in E; discriminate.
Qed.

Lemma write_event_Ok db d db' :
  write_event db d = Ok db' ->
  db' = with_events (<[event_id d := event_attrs d]> (events db)) db /\
  slug_taken (events db) (event_id d) (slug (event_attrs d)) = false /\
  (if event_isNew d then events db !! event_id d = None
   else is_Some (events db !! event_id d)).
Proof.
  unfold write_event.
  destruct (event_isNew d), (events db !! event_id d) as [a|] eqn:E; try discriminate;
    destruct (slug_taken _ _ _); try discriminate;
    intros [= <-]; repeat split; eauto.
Qed.

Lemma str_eqb_refl x : str_eqb x x = true.
Proof. induction x as [|a x IH]; [reflexivity|]. cbn. rewrite N.eqb_refl, IH. reflexivity. Qed.

Lemma str_eqb_eq x y : str_eqb x y = true <-> x = y.
Proof.
  split; [|intros ->; apply str_eqb_refl].
  revert y. induction x as [|a x IH]; intros [|b y]; cbn; try discriminate; [reflexivity|].
  intros H. apply andb_true_iff in H as [H1 H2]. apply code_inj in H1. subst b.
  f_equal. apply IH. exact H2.
Qed.

Lemma same_slug_eq a b : same_slug a b = true <-> a = b.
Proof.
  destruct a as [x|], b as [y|]; cbn; try (split; [discriminate|discriminate]);
    [|split; reflexivity].
  rewrite str_eqb_eq. split; [intros ->; reflexivity|intros [= ->]; reflexivity].
Qed.

Lemma slug_taken_false ev id s :
  slug_taken ev id s = false <->
  forall j b, ev !! j = Some b -> j <> id -> slug b <> s.
Proof.
  unfold slug_taken. split.
  - intros H j b Hj Hne Hs.
    assert (Hex : existsb (fun kv => negb (N.eqb (fst kv) id) && same_slug (slug (snd kv)) s)
                          (map_to_list ev) = true).
    { apply existsb_exists. exists (j, b). split.
      - apply list_elem_of_In. apply elem_of_map_to_list. exact Hj.
      - cbn. apply andb_true_iff. split.
        + apply negb_true_iff. apply N.eqb_neq. exact Hne.
        + apply same_slug_eq. exact Hs. }
    rewrite Hex in H. discriminate.
  - intros H. destruct (existsb _ _) eqn:E; [|reflexivity]. exfalso.
    apply existsb_exists in E. destruct E as ([j b] & Hin & Hp). cbn in Hp.
    apply andb_true_iff in Hp as [H1 H2]. apply negb_true_iff, N.eqb_neq in H1.
    apply same_slug_eq in H2. apply list_elem_of_In, elem_of_map_to_list in Hin.
    exact (H j b Hin H1 H2).
Qed.

End HookFacts.

Section SaveFacts.

Import SlugSpec EventSpec DateSpec TimeSpec Sample.

(** A save that succeeds, in full. *)
Lemma Event_save_Ok impl db d db' d' :
  Event_save impl db d = (db', Ok d') ->
  validate (event_attrs d) = [] /\
  exists dt tm,
    normalizeDate impl (date (event_attrs d)) = Ok dt /\
    normalizeTime (time (event_attrs d)) = Ok tm /\
    d' = {| event_id := event_id d; event_isNew := false; event_modified := [];
            event_attrs := with_hook_paths (hook_slug d) dt tm (event_attrs d) |} /\
    db' = with_events (<[event_id d := event_attrs d']> (events db)) db /\
    slug_taken (events db) (event_id d) (hook_slug d) = false /\
    (if event_isNew d then events db !! event_id d = None
     else is_Some (events db !! event_id d)).
Proof.
  intros H. destruct (Event_save_Ok_inv _ _ _ _ _ H) as (Hv & d1 & Hpre & Hw & ->).
  split; [exact Hv|].
  destruct (event_pre_save_Ok impl d d1 (validate_nil_title _ Hv) Hpre)
    as (dt & tm & Ed & Em & Ha & Hi & Hn).
  destruct (write_event_Ok _ _ _ Hw) as (Hdb & Hs & Hnew).
  exists dt, tm. unfold saved. cbn [event_attrs]. rewrite Hi, Ha in *. rewrite Hn in Hnew.
  cbn [slug with_hook_paths] in Hs. repeat split; assumption.
Qed.

Lemma validate_with_hook_paths a s dt tm :
  validate a = [] -> nonEmptyString dt = true -> nonEmptyString tm = true ->
  validate (with_hook_paths s dt tm a) = [].
Proof.
  intros Hv Hd Ht. apply validate_ok. intros f.
  assert (Hf : field_ok f a = true).
  { destruct (field_ok f a) eqn:E; [reflexivity|].
    pose proof (validate_error f a E) as Hin. rewrite Hv in Hin. destruct Hin. }
  destruct f; cbn [field_ok with_hook_paths title description overview image venue location
                   date time mode audience agenda organizer tags] in *; assumption.
Qed.

Lemma slug_taken_insert ev id a s :
  slug_taken (<[id := a]> ev) id s = slug_taken ev id s.
Proof.
  destruct (slug_taken ev id s) eqn:E.
  - unfold slug_taken in *. apply existsb_exists in E. destruct E as ([j b] & Hin & Hp).
    apply existsb_exists. exists (j, b). split; [|exact Hp].
    cbn in Hp. apply andb_true_iff in Hp as [H1 _]. apply negb_true_iff, N.eqb_neq in H1.
    apply list_elem_of_In, elem_of_map_to_list. apply list_elem_of_In, elem_of_map_to_list in Hin.
    rewrite lookup_insert_ne by congruence. exact Hin.
  - apply slug_taken_false. intros j b Hj Hne.
    rewrite lookup_insert_ne in Hj by congruence.
    exact (proj1 (slug_taken_false ev id s) E j b Hj Hne).
Qed.

Lemma hook_slug_saved d dt tm :
  hook_slug {| event_id := event_id d; event_isNew := false; event_modified := [];
               event_attrs := with_hook_paths (hook_slug d) dt tm (event_attrs d) |}
  = hook_slug d.
Proof.
  unfold hook_slug at 1. cbn [event_attrs isModified event_modified existsb orb].
  cbn [title with_hook_paths slug].
  destruct (slug_unset (with_hook_paths (hook_slug d) dt tm (event_attrs d))) eqn:E;
    [|reflexivity].
  unfold slug_unset in E. cbn [slug with_hook_paths] in E.
  unfold hook_slug in E |- *.
  destruct (isModified "title" d || slug_unset (event_attrs d)) eqn:C; [reflexivity|].
  apply orb_false_iff in C as [_ C]. unfold slug_unset in C. rewrite C in E. discriminate.
Qed.

Lemma normalizeTime_Throw value e :
  normalizeTime value = Throw e -> e = Error msg_time_format \/ e = Error msg_time_range.
Proof.
  unfold normalizeTime.
  destruct (String_match re_time (trim value)) as [m|]; [|intros [= <-]; left; reflexivity].
  cbn beta iota.
  match goal with |- (if ?b then _ else _) = _ -> _ => destruct b end;
    [intros [= <-]; right; reflexivity|discriminate].
Qed.

Lemma normalizeDate_Throw impl value e :
  normalizeDate impl value = Throw e -> e = Error msg_date /\ Date.new impl value = None.
Proof.
  unfold normalizeDate. destruct (Date.new impl value); [discriminate|].
  intros [= <-]. split; reflexivity.
Qed.

(** The hook fails with the error of the date, or else with one of the
    time. *)
Lemma event_pre_save_Throw impl d e :
  event_pre_save impl d = Throw e ->
  normalizeDate impl (date (event_attrs d)) = Throw e \/
  ((exists dt, normalizeDate impl (date (event_attrs d)) = Ok dt) /\
   normalizeTime (time (event_attrs d)) = Throw e).
Proof.
  unfold event_pre_save, bind.
  destruct ((isModified "title" d || slug_unset (event_attrs d))
            && nonEmptyString (title (event_attrs d)));
    cbn [assign event_attrs with_slug with_date date time];
    (destruct (normalizeDate impl _) as [dt|e0]; [|intros [= <-]; left; reflexivity]);
    cbn [assign event_attrs with_slug with_date date time];
    (destruct (normalizeTime _) as [tm|e1]; [discriminate|]);
    intros [= <-]; right; (split; [exists dt|]; reflexivity).
Qed.

Lemma write_event_Throw db d e :
  write_event db d = Throw e ->
  e = DuplicateKey "_id_" \/ e = DuplicateKey "slug_1" \/ e = DocumentNotFound.
Proof.
  unfold write_event.
  destruct (event_isNew d), (events db !! event_id d); try destruct (slug_taken _ _ _);
    intros [= <-]; auto.
Qed.

(** How a save fails. *)
Lemma Event_save_Throw impl db d db' e :
  Event_save impl db d = (db', Throw e) ->
  db' = db /\
  ((e = ValidationError (validate (event_attrs d)) /\ validate (event_attrs d) <> []) \/
   (validate (event_attrs d) = [] /\ event_pre_save impl d = Throw e) \/
   (validate (event_attrs d) = [] /\
    exists d1, event_pre_save impl d = Ok d1 /\ write_event db d1 = Throw e)).
Proof.
  unfold Event_save. destruct (validate (event_attrs d)) as [|x l] eqn:Hv.
  - destruct (event_pre_save impl d) as [d1|e0] eqn:Hp.
    + destruct (write_event db d1) as [db1|e1] eqn:Hw; [discriminate|].
      intros [= <- <-]. split; [reflexivity|]. right. right. split; [reflexivity|].
      exists d1. split; [reflexivity|exact Hw].
    + intros [= <- <-]. split; [reflexivity|]. right. left. split; reflexivity.
  - intros [= <- <-]. split; [reflexivity|]. left. split; [reflexivity|discriminate].
Qed.

Lemma validateString_In p path message v :
  In p (map fst (validateString path message v)) -> p = path /\ nonEmptyString v = false.
Proof.
  unfold validateString. destruct v as [|c v].
  - cbn. intros [<-|[]]. split; reflexivity.
  - cbn [length Nat.eqb]. destruct (nonEmptyString (c :: v)); [intros []|].
    cbn. intros [<-|[]]. split; reflexivity.
Qed.

Lemma validateItems_In p path message l :
  In p (map fst (validateItems path message l)) -> p = path /\ items_ok l = false.
Proof.
  unfold validateItems, items_ok. destruct l as [|x l].
  - cbn. intros [<-|[]]. split; reflexivity.
  - cbn [length Nat.eqb negb Nat.ltb Nat.leb andb]. destruct (forallb nonEmptyString (x :: l)).
    + intros [].
    + cbn. intros [<-|[]]. split; reflexivity.
Qed.

Lemma validate_In p a :
  In p (map fst (validate a)) -> exists f, field_path f = p /\ field_ok f a = false.
Proof.
  unfold validate. rewrite !map_app, !in_app_iff.
  intros H.
  repeat match type of H with
  | _ \/ _ => destruct H as [H|H]
  end;
  first [ apply validateString_In in H | apply validateItems_In in H ];
  destruct H as [-> H];
  [ exists FTitle | exists FDescription | exists FOverview | exists FImage | exists FVenue
  | exists FLocation | exists FDate | exists FTime | exists FMode | exists FAudience
  | exists FAgenda | exists FOrganizer | exists FTags ]; (split; [reflexivity|exact H]).
Qed.

End SaveFacts.

Section BookingFacts.

Import Sample.

Lemma isValidEmail_nonempty v : isValidEmail v = true -> Nat.eqb (length v) 0 = false.
Proof. destruct v; [intros H; vm_compute in H; discriminate|reflexivity]. Qed.

Lemma write_booking_Ok db b db' :
  write_booking db b = Ok db' ->
  db' = with_bookings (<[booking_id b := (eventId b, email b)]> (bookings db)) db /\
  (if booking_isNew b then bookings db !! booking_id b = None
   else is_Some (bookings db !! booking_id b)).
Proof.
  unfold write_booking.
  destruct (bookings db !! booking_id b) as [x|] eqn:E, (booking_isNew b); try discriminate;
    intros [= <-]; split; eauto.
Qed.

Lemma write_booking_new db b :
  booking_isNew b = true -> bookings db !! booking_id b = None ->
  write_booking db b
  = Ok (with_bookings (<[booking_id b := (eventId b, email b)]> (bookings db)) db).
Proof. intros Hn Hb. unfold write_booking. rewrite Hb, Hn. reflexivity. Qed.

(** A save of a Booking that succeeds, in full. *)
Lemma Booking_save_Ok db b db' b' :
  Booking_save db b = (db', Ok b') ->
  isValidEmail (email b) = true /\ Event_exists db (eventId b) = true /\
  write_booking db b = Ok db' /\ b' = saved_booking b.
Proof.
  unfold Booking_save, validate_booking, booking_pre_save.
  destruct (Nat.eqb (length (email b)) 0); [discriminate|].
  destruct (isValidEmail (email b)); [|discriminate]. cbn [negb].
  destruct (Event_exists db (eventId b)); [|discriminate]. cbn [negb].
  destruct (write_booking db b) as [db1|e]; [|discriminate].
  intros [= <- <-]. repeat split.
Qed.

Lemma Booking_save_intro db b db' :
  isValidEmail (email b) = true -> Event_exists db (eventId b) = true ->
  write_booking db b = Ok db' ->
  Booking_save db b = (db', Ok (saved_booking b)).
Proof.
  intros Hm He Hw. unfold Booking_save, validate_booking, booking_pre_save.
  rewrite (isValidEmail_nonempty _ Hm), Hm, He, Hw. reflexivity.
Qed.

Lemma Booking_save_Throw db b db' e :
  Booking_save db b = (db', Throw e) ->
  db' = db /\
  ((isValidEmail (email b) = false /\ exists message, e = ValidationError [("email"%string, message)])
   \/ (isValidEmail (email b) = true /\ Event_exists db (eventId b) = false /\
       e = Error msg_no_event)
   \/ (isValidEmail (email b) = true /\ Event_exists db (eventId b) = true /\
       write_booking db b = Throw e)).
Proof.
  unfold Booking_save, validate_booking, booking_pre_save.
  destruct (isValidEmail (email b)) eqn:Hm.
  - rewrite (isValidEmail_nonempty _ Hm). cbn [negb].
    destruct (Event_exists db (eventId b)); cbn [negb].
    + destruct (write_booking db b) as [db1|e1]; [discriminate|].
      intros [= <- <-]. split; [reflexivity|]. right. right. repeat split.
    + intros [= <- <-]. split; [reflexivity|]. right. left. repeat split.
  - destruct (Nat.eqb (length (email b)) 0); intros [= <- <-];
      (split; [reflexivity|]); left; (split; [reflexivity|]); eexists; reflexivity.
Qed.

Lemma Event_exists_insert db id a e :
  Event_exists db e = true ->
  Event_exists (with_events (<[id := a]> (events db)) db) e = true.
Proof.
  unfold Event_exists. cbn [events with_events].
  destruct (decide (e = id)) as [->|Hne].
  - rewrite lookup_insert_eq. reflexivity.
  - rewrite lookup_insert_ne by congruence. exact (fun H => H).
Qed.

End BookingFacts.

(** ** The connection, further: counting attempts; the top level *)

Section AttemptFacts.

Import Mongo MongoCount.















End AttemptFacts.

Section TopLevelFacts.

Import Mongo TopLevel.



End TopLevelFacts.

(** * The claims *)

Section Claims.

Import SlugSpec TimeSpec EmailSpec EventSpec DateSpec Sample Mongo.


(** C2, as amended.  [normalizeTime] succeeds exactly when the trimmed input
    is hour:minute or hour:minute:second (one or two digits, two digits, two
    digits) with the hour in 0-23 and the minute in 0-59, whatever the two
    digits of the second are; it then returns the zero-padded hour:minute.
    Every other input fails with one of the two errors of the function. *)
Theorem normalizeTime_spec (value : jsstring) :
  (forall out, normalizeTime value = Ok out <->
      exists p, well_formed p /\ text_of p = trim value /\ in_range p /\ out = stored p)
  /\ (forall e, normalizeTime value = Throw e ->
        e = Error msg_time_format \/ e = Error msg_time_range).
Proof.
  split.
  - intros out. split.
    + apply normalizeTime_Ok_inv.
    + intros (p & Hw & Ht & Hr & ->). apply normalizeTime_Ok_intro; assumption.
  - intros e. unfold normalizeTime.
    destruct (String_match re_time (trim value)) as [m|]; [|intros [= <-]; left; reflexivity].
    cbn beta iota.
    match goal with |- (if ?b then _ else _) = _ -> _ => destruct b end;
      [intros [= <-]; right; reflexivity|discriminate].
Qed.

(** C2 as stated fails: a second of 99 is accepted, though no reading of
    12:30:99 has its second in 0-59. *)
Lemma normalizeTime_accepts_seconds_99 :
  normalizeTime (str "12:30:99") = Ok (str "12:30") /\
  ~ (exists p, well_formed p /\ text_of p = trim (str "12:30:99") /\ in_range_with_seconds p).
Proof.
  split; [vm_compute; reflexivity|].
  intros ([H M sec] & (HH & HlH & HM & HlM & Hsec) & Ht & [_ Hr]).
  change (trim (str "12:30:99")) with (str "12:30:99") in Ht.
  unfold text_of in Ht. cbn in *.
  destruct H as [|h1 [|h2 [|]]]; cbn in HlH; try lia;
  destruct M as [|m1 [|m2 [|]]]; cbn in HlM; try lia;
  destruct sec as [sec|]; cbn in Ht; try discriminate.
  injection Ht as -> -> -> -> ->. vm_compute in Hr. apply Hr. reflexivity.
Qed.


(** C3, as amended.  Every slug consists of lowercase letters, digits and
    hyphens, and no two hyphens of it are adjacent. *)
Theorem slugify_chars_no_double_hyphen (title : jsstring) :
  forallb slug_char (slugify title) = true /\ adjacent_hyphens (slugify title) = false.
Proof.
  rewrite slugify_spec. split.
  - apply slug_of_title_chars.
  - apply collapse_no_adjacent_hyphens.
Qed.

(** C3 as stated fails: a hyphen at either end of the title stays, and so
    does the hyphen made of the white space before a stripped character. *)
Lemma slugify_keeps_outer_hyphens :
  nonEmptyString (str "-a-") = true
  /\ leading_hyphen (slugify (str "-a-")) = true
  /\ trailing_hyphen (slugify (str "-a-")) = true
  /\ slugify (str "Rust & Go !") = str "rust-go-".
Proof. vm_compute. repeat split; reflexivity. Qed.

(** C4.  A save of a Booking whose eventId matches no Event fails and
    stores nothing: the store is as it was.  The referential check comes
    after the email check, so for every Booking whose email passes the email
    check the failure is the error that the referenced event does not exist;
    a Booking whose email fails it has been refused before, with the
    validation error of the email path. *)
Theorem Booking_save_missing_event (db : Database) (b : BookingDocument) :
  events db !! eventId b = None ->
  fst (Booking_save db b) = db
  /\ (isValidEmail (email b) = true ->
        snd (Booking_save db b) = Throw (Error msg_no_event))
  /\ (isValidEmail (email b) = false ->
        exists errors, snd (Booking_save db b) = Throw (ValidationError errors)
                       /\ In "email"%string (map fst errors)).
Proof.
  intros Hev. unfold Booking_save, validate_booking, booking_pre_save, Event_exists.
  rewrite Hev. destruct (isValidEmail (email b)) eqn:Hmail.
  - assert (Hlen : Nat.eqb (length (email b)) 0 = false).
    { destruct (email b); [vm_compute in Hmail; discriminate|reflexivity]. }
    rewrite Hlen. cbn. split; [reflexivity|]. split; [reflexivity|discriminate].
  - destruct (Nat.eqb (length (email b)) 0); cbn;
      (split; [reflexivity|]); (split; [discriminate|]);
      intros _; eexists; (split; [reflexivity|left; reflexivity]).
Qed.

(** C5.  A save whose document fails one of the field checks (a string path
    empty after trimming, or agenda or tags empty or with an element empty
    after trimming) is rejected with a validation error that names the path,
    and the store is as it was; a document that passes them all has no
    validation error. *)
Theorem Event_save_validates impl (db : Database) (d : EventDocument) :
  (forall f, field_ok f (event_attrs d) = false ->
     exists errors,
       Event_save impl db d = (db, Throw (ValidationError errors)) /\
       In (field_path f) (map fst errors))
  /\ ((forall f, field_ok f (event_attrs d) = true) -> validate (event_attrs d) = []).
Proof.
  split.
  - intros f Hf. pose proof (validate_error f _ Hf) as Hin.
    unfold Event_save. destruct (validate (event_attrs d)) as [|e errors] eqn:Hv; [destruct Hin|].
    exists (e :: errors). split; [reflexivity|exact Hin].
  - apply validate_ok.
Qed.


(** C6, as amended.  The email check passes exactly when the trimmed email is
    a non-empty local part, "@" and a domain with a dot inside it (something
    before the dot and something after it), without whitespace or another
    "@"; an email without "@", or without a dot in the domain, fails it, and
    the Booking is rejected with a validation error on the email path. *)
Theorem isValidEmail_spec (value : jsstring) :
  (isValidEmail value = true <-> local_at_domain_dot_inside (trim value))
  /\ (~ In "@"%char (trim value) -> isValidEmail value = false)
  /\ (forall loc dom, trim value = loc ++ "@"%char :: dom -> ~ In "."%char dom ->
        isValidEmail value = false)
  /\ (forall db b, email b = value -> isValidEmail value = false ->
        exists errors, Booking_save db b = (db, Throw (ValidationError errors))
                       /\ In "email"%string (map fst errors)).
Proof.
  split; [apply isValidEmail_shape|]. split; [|split].
  - intros Hno. destruct (isValidEmail value) eqn:E; [|reflexivity].
    apply isValidEmail_shape in E. destruct E as (loc & d1 & d2 & E & _).
    exfalso. apply Hno. rewrite E. apply in_or_app. right. left. reflexivity.
  - intros loc dom Hsplit Hdot. destruct (isValidEmail value) eqn:E; [|reflexivity].
    apply isValidEmail_shape in E.
    destruct E as (loc' & d1 & d2 & E & _ & _ & _ & Pl & P1 & P2).
    exfalso. rewrite Hsplit in E.
    destruct (split_at_unique "@"%char loc' (d1 ++ "."%char :: d2) loc dom) as [_ <-].
    + apply all_plain_no_at. exact Pl.
    + intros Hin. apply in_app_or in Hin. destruct Hin as [Hin|[Hin|Hin]].
      * revert Hin. apply all_plain_no_at. exact P1.
      * discriminate.
      * revert Hin. apply all_plain_no_at. exact P2.
    + symmetry. exact E.
    + apply Hdot. apply in_or_app. right. left. reflexivity.
  - intros db b <- Hbad. unfold Booking_save, validate_booking. rewrite Hbad.
    destruct (Nat.eqb (length (email b)) 0); eexists; (split; [reflexivity|left; reflexivity]).
Qed.

(** C6 as stated fails: a dot that ends the domain, or begins it, is a dot in
    the domain, and the check refuses both. *)
Lemma isValidEmail_dot_at_edge :
  local_at_domain_with_dot (trim (str "a@b.")) /\ isValidEmail (str "a@b.") = false
  /\ local_at_domain_with_dot (trim (str "a@.b")) /\ isValidEmail (str "a@.b") = false.
Proof.
  repeat split; try reflexivity.
  - exists (str "a"), (str "b."). repeat split; try reflexivity; try discriminate.
    right. left. reflexivity.
  - exists (str "a"), (str ".b"). repeat split; try reflexivity; try discriminate.
    left. reflexivity.
Qed.

(** C7, at the input where it fails.  A date of the year 10000 is a date the
    parser reads, and [normalizeDate] returns the first ten code units of
    +010000-01-01T00:00:00.000Z: not the year-month-day shape. *)
Theorem normalizeDate_year_10000 impl :
  normalizeDate impl (str "+010000-01-01") = Ok (str "+010000-01")
  /\ year_month_day (str "+010000-01") = false.
Proof. split; vm_compute; reflexivity. Qed.



(** C9.  Callers that invoke [connectToDatabase] while the cache holds neither
    a connection nor a promise, none of them resumed in between, start
    exactly one attempt and all await its promise. *)
Theorem concurrent_calls_share_one_attempt (w0 : World) (callers : list nat) :
  conn (cached w0) = None -> promise (cached w0) = None ->
  List.NoDup callers -> callers <> [] ->
  (forall i, In i callers -> calls w0 !! i = None) ->
  exists w, run (map Call callers) w0 = Some w /\
    attempts w = S (attempts w0) /\
    forall i, In i callers -> calls w !! i = Some (Awaiting (attempts w0)).
Proof.
  intros Hc Hp Hnd Hne Hfresh. destruct callers as [|i callers]; [congruence|].
  apply List.NoDup_cons_iff in Hnd. destruct Hnd as [Hi Hnd].
  cbn [map run step]. rewrite (Hfresh i) by (left; reflexivity).
  set (p := attempts w0).
  set (w1 := connectToDatabase i w0).
  assert (E1 : w1 = {| cached := {| conn := None; promise := Some p |};
                       promises := promises w0 ++ [None];
                       calls := <[i := Awaiting p]> (calls w0) |}).
  { unfold w1, connectToDatabase. rewrite Hc, Hp.
    rewrite lookup_app_r by lia. rewrite Nat.sub_diag. reflexivity. }
  destruct (run_calls_pending callers w1 p) as (w & Hr & Hc' & Hp' & Hin & Hout).
  - rewrite E1. reflexivity.
  - rewrite E1. reflexivity.
  - rewrite E1. cbn. unfold p, attempts. rewrite lookup_app_r by lia.
    rewrite Nat.sub_diag. reflexivity.
  - exact Hnd.
  - intros j Hj. rewrite E1. cbn. rewrite lookup_insert_ne.
    + apply Hfresh. right. exact Hj.
    + intros ->. contradiction.
  - exists w. split; [exact Hr|]. split.
    + subst p. unfold attempts. rewrite Hp', E1. cbn. rewrite length_app. cbn. lia.
    + intros j [<-|Hj]; [|apply Hin; exact Hj].
      rewrite (Hout i Hi), E1. cbn. apply lookup_insert_eq.
Qed.


(** C10.  A title whose characters, lower-cased, are neither lowercase
    letters, digits, whitespace nor hyphens has the empty slug; such is !!!,
    which is not empty after trimming.  An Event with that title passes the
    validators and is stored with the empty slug; ??? is another title with
    the same slug. *)
Theorem empty_slug_persisted :
  (forall title,
     forallb (fun c => negb (slug_or_space (toLowerUnit c))) title = true ->
     slugify title = [])
  /\ nonEmptyString (str "!!!") = true
  /\ slugify (str "!!!") = []
  /\ (forall impl,
        validate (event_titled (str "!!!")) = []
        /\ exists db' d',
             Event_save impl empty_db (new_event 1%N (event_titled (str "!!!"))) = (db', Ok d')
             /\ slug (event_attrs d') = Some []
             /\ slug <$> (events db' !! 1%N) = Some (Some []))
  /\ str "!!!" <> str "???"
  /\ nonEmptyString (str "???") = true
  /\ slugify (str "???") = slugify (str "!!!").
Proof.
  split; [exact slugify_no_slug_chars|].
  repeat split; try (vm_compute; reflexivity); try discriminate.
  do 2 eexists. split; [vm_compute; reflexivity|]. split; vm_compute; reflexivity.
Qed.

End Claims.

(** * The claims at concrete inputs *)

Section Witnesses.

Import SlugSpec Sample Mongo.


Lemma Booking_save_missing_event_witness :
  Booking_save empty_db (new_booking 1%N 7%N (str "ada@example.org"))
  = (empty_db, Throw (Error msg_no_event)).
Proof.
  destruct (Booking_save_missing_event empty_db (new_booking 1%N 7%N (str "ada@example.org"))
              eq_refl) as (Hdb & Herr & _).
  specialize (Herr eq_refl).
  destruct (Booking_save empty_db (new_booking 1%N 7%N (str "ada@example.org"))) as [db' r].
  cbn in Hdb, Herr. rewrite Hdb, Herr. reflexivity.
Defined.

Lemma concurrent_calls_witness :
  exists w, run (map Call [1; 2; 3]) init = Some w /\
    attempts w = 1 /\
    forall i, In i [1; 2; 3] -> calls w !! i = Some (Awaiting 0).
Proof.
  apply (concurrent_calls_share_one_attempt init [1; 2; 3]).
  - reflexivity.
  - reflexivity.
  - repeat constructor; cbn; intuition lia.
  - discriminate.
  - intros i _. apply lookup_empty.
Defined.



End Witnesses.

(** * Further properties of the models *)

Section Strings.

Import SlugSpec Words.

(** X1.  [nonEmptyString] holds exactly of the strings with a code unit that
    is not white space. *)
Theorem nonEmptyString_spec (value : jsstring) :
  nonEmptyString value = true <-> exists c, In c value /\ isWhiteSpace c = false.
Proof.
  unfold nonEmptyString. split.
  - intros H. destruct (forallb isWhiteSpace value) eqn:E.
    + apply trim_nil_iff in E. rewrite E in H. discriminate.
    + assert (Hex : existsb (fun c => negb (isWhiteSpace c)) value = true).
      { clear H. induction value as [|a v IH]; [discriminate|].
        cbn in E |- *. destruct (isWhiteSpace a); cbn in *; [apply IH; exact E|reflexivity]. }
      apply existsb_exists in Hex. destruct Hex as (c & Hin & Hc).
      exists c. split; [exact Hin|]. apply negb_true_iff. exact Hc.
  - intros (c & Hin & Hc). destruct (trim value) as [|a l] eqn:E; [|reflexivity].
    apply trim_nil_iff in E. rewrite forallb_forall in E. rewrite (E c Hin) in Hc. discriminate.
Qed.

(** X2.  White space around the input changes nothing: [nonEmptyString],
    [slugify], [normalizeTime] and [isValidEmail] give the same result on a
    string and on that string with white space before and after it. *)
Theorem surrounding_space_is_ignored (l v r : jsstring) :
  forallb isWhiteSpace l = true -> forallb isWhiteSpace r = true ->
  nonEmptyString (l ++ v ++ r) = nonEmptyString v
  /\ slugify (l ++ v ++ r) = slugify v
  /\ normalizeTime (l ++ v ++ r) = normalizeTime v
  /\ isValidEmail (l ++ v ++ r) = isValidEmail v.
Proof.
  intros Hl Hr. pose proof (trim_surrounded l v r Hl Hr) as E.
  unfold nonEmptyString, slugify, normalizeTime, isValidEmail.
  unfold toLowerCase. rewrite !map_app. fold (toLowerCase l) (toLowerCase v) (toLowerCase r).
  rewrite (toLowerCase_space l Hl), (toLowerCase_space r Hr).
  rewrite (trim_surrounded l (toLowerCase v) r Hl Hr), E. repeat split.
Qed.

(** X3.  The strings [slugify] leaves as they are, are the strings of
    lowercase letters, digits and hyphens without two adjacent hyphens. *)
Theorem slugify_fixed_points (s : jsstring) :
  slugify s = s <-> forallb slug_char s = true /\ adjacent_hyphens s = false.
Proof.
  rewrite slugify_spec. split.
  - intros H. rewrite <- H. split.
    + apply slug_of_title_chars.
    + apply collapse_no_adjacent_hyphens.
  - intros [Hc Ha]. apply slug_of_title_fixed; assumption.
Qed.

(** X4.  [slugify] is idempotent: the slug of a slug is that slug. *)
Theorem slugify_idempotent (title : jsstring) :
  slugify (slugify title) = slugify title.
Proof.
  rewrite (slugify_spec (slugify title)). apply slug_of_title_fixed.
  - rewrite slugify_spec. apply slug_of_title_chars.
  - rewrite slugify_spec. apply collapse_no_adjacent_hyphens.
Qed.

(** X5.  A slug is never longer than the title it is derived from. *)
Theorem slugify_not_longer (title : jsstring) :
  length (slugify title) <= length title.
Proof.
  rewrite slugify_spec. unfold slug_of_title.
  pose proof (length_collapse is_hyphen
     (collapse isWhiteSpace (List.filter slug_or_space (trim (toLowerCase title))))).
  pose proof (length_collapse isWhiteSpace (List.filter slug_or_space (trim (toLowerCase title)))).
  pose proof (filter_length_le slug_or_space (trim (toLowerCase title))).
  pose proof (length_trim (toLowerCase title)).
  unfold toLowerCase in *. rewrite length_map in *. lia.
Qed.

(** X6.  A title made of words of letters and digits with white space
    between them has the slug made of the words in lower case with one hyphen
    between them. *)
Theorem slugify_words (w : jsstring) (rest : list (jsstring * jsstring)) :
  word w -> words_and_gaps rest ->
  slugify (spaced w rest) = toLowerCase (hyphenated w rest).
Proof.
  intros [Hne Hall] Hr. rewrite slugify_spec. unfold slug_of_title.
  rewrite (toLowerCase_spaced w rest Hr), toLowerCase_hyphenated.
  destruct (spaced_kept rest w Hne Hall Hr) as (K & (a & x & E1 & Ha) & (y & z & E2 & Hz)).
  cbv zeta in K, E1, E2.
  set (rest' := map (fun q => (fst q, toLowerCase (snd q))) rest) in *.
  rewrite (trim_ends _ a x y z E1 Ha E2 Hz), (forallb_filter_id _ _ K).
  assert (Hlw : toLowerCase w <> [] /\
                forall c, In c (toLowerCase w) ->
                          isWhiteSpace c = false /\ is_hyphen c = false).
  { split; [destruct w; [congruence|discriminate]|].
    intros c Hc. unfold toLowerCase in Hc. apply in_map_iff in Hc.
    destruct Hc as (c0 & <- & Hc0). rewrite forallb_forall in Hall.
    destruct (alnum_lower c0 (Hall c0 Hc0)) as (H1 & H2 & _). split; assumption. }
  assert (Hrest' : Forall (fun q => (fst q <> [] /\ forallb isWhiteSpace (fst q) = true) /\
                                    (snd q <> [] /\
                                     forall c, In c (snd q) ->
                                               isWhiteSpace c = false /\ is_hyphen c = false))
                          rest').
  { unfold rest'. apply Forall_map. eapply Forall_impl; [exact Hr|].
    intros [g w'] [[Hg1 Hg2] [Hw1 Hw2]]. cbn [fst snd] in *. split; [split; assumption|].
    split; [destruct w'; [congruence|discriminate]|].
    intros c Hc. unfold toLowerCase in Hc. apply in_map_iff in Hc.
    destruct Hc as (c0 & <- & Hc0). rewrite forallb_forall in Hw2.
    destruct (alnum_lower c0 (Hw2 c0 Hc0)) as (H1 & H2 & _). split; assumption. }
  rewrite (collapse_spaced isWhiteSpace rest' (toLowerCase w)).
  - rewrite hyphenated_as_spaced.
    rewrite (collapse_spaced is_hyphen).
    + rewrite <- hyphenated_as_spaced.
      clear. generalize (toLowerCase w) as u. induction rest' as [|[g w'] r IH]; intros u;
        cbn [map hyphenated snd]; [reflexivity|]. rewrite IH. reflexivity.
    + apply Hlw.
    + apply forallb_forall. intros c Hc. destruct Hlw as [_ H]. rewrite (proj2 (H c Hc)).
      reflexivity.
    + apply Forall_map. eapply Forall_impl; [exact Hrest'|].
      intros [g w'] [_ [Hw1 Hw2]]. cbn [fst snd] in *. split; [split; [discriminate|reflexivity]|].
      split; [exact Hw1|]. apply forallb_forall. intros c Hc. rewrite (proj2 (Hw2 c Hc)).
      reflexivity.
  - apply Hlw.
  - apply forallb_forall. intros c Hc. destruct Hlw as [_ H]. rewrite (proj1 (H c Hc)).
    reflexivity.
  - eapply Forall_impl; [exact Hrest'|].
    intros [g w'] [Hg [Hw1 Hw2]]. cbn [fst snd] in *. split; [exact Hg|].
    split; [exact Hw1|]. apply forallb_forall. intros c Hc. rewrite (proj1 (Hw2 c Hc)).
    reflexivity.
Qed.

End Strings.

Section TimesAndDates.

Import TimeSpec DateSpec.
Local Open Scope Z_scope.

(** X7.  What [normalizeTime] returns is five code units long and is its own
    normal form: normalizing it again returns it unchanged. *)
Theorem normalizeTime_idempotent (value out : jsstring) :
  normalizeTime value = Ok out ->
  normalizeTime out = Ok out /\ length out = 5%nat.
Proof.
  intros H. apply normalizeTime_Ok_inv in H. destruct H as (p & Hw & _ & Hr & ->).
  split; [apply normalizeTime_stored; assumption|].
  unfold stored, two_digits. rewrite length_app. reflexivity.
Qed.

(** X8.  A text of the shape YYYY-MM-DD that names a day of the calendar is
    accepted whatever the engine makes of other texts, and is returned as it
    is. *)
Theorem normalizeDate_keeps_calendar_dates impl (s : jsstring) y m d :
  year_month_day s = true ->
  Date.parse_date_only s = Some (y, m, d) ->
  Date.validDate y m d = true ->
  normalizeDate impl s = Ok s.
Proof.
  intros Hs Hp Hv.
  destruct (year_month_day_parse s Hs) as (y' & m' & d' & Hp' & Hy & _ & _ & E).
  rewrite Hp in Hp'. injection Hp' as <- <- <-.
  rewrite E. apply (normalizeDate_ymd impl y m d Hy Hv).
Qed.

(** X9.  [normalizeDate] keeps the UTC day of the instant the input stands
    for and drops the time of day: for an instant of the years 0..9999 the
    result is the text YYYY-MM-DD of that day, which has the year-month-day
    shape and is its own normal form. *)
Theorem normalizeDate_utc_day impl (value : jsstring) t y m d :
  Date.new impl value = Some t ->
  Date.civil (t / Date.msPerDay) = (y, m, d) ->
  0 <= y <= 9999 ->
  normalizeDate impl value = Ok (ymd y m d)
  /\ year_month_day (ymd y m d) = true
  /\ normalizeDate impl (ymd y m d) = Ok (ymd y m d).
Proof.
  intros Hnew Hc Hy. unfold ymd.
  pose proof (civil_range (t / Date.msPerDay)) as Hr. rewrite Hc in Hr.
  destruct (civil_ok_inv _ _ _ _ Hc) as [Hv _].
  destruct (parse_date_only_ymd y m d Hy ltac:(lia) ltac:(lia)) as [Hshape _].
  split; [|split].
  - unfold normalizeDate. rewrite Hnew. f_equal. apply toISOString_date; assumption.
  - exact Hshape.
  - apply (normalizeDate_ymd impl y m d Hy Hv).
Qed.

End TimesAndDates.

Section EventSaves.

Import SlugSpec EventSpec DateSpec TimeSpec.
Local Open Scope Z_scope.

(** X10.  The validation error of a save names exactly the paths whose field
    check fails (never [slug], never a path that passes), there is at least
    one, and the store is as it was. *)
Theorem Event_save_validation_paths impl (db : Database) (d : EventDocument) db' errors :
  Event_save impl db d = (db', Throw (ValidationError errors)) ->
  db' = db /\ errors <> [] /\
  forall p, In p (map fst errors) <->
            exists f, field_path f = p /\ field_ok f (event_attrs d) = false.
Proof.
  intros H. destruct (Event_save_Throw _ _ _ _ _ H) as (-> & [[E Hne]|[[_ Hp]|(_ & d1 & _ & Hw)]]).
  - injection E as ->. repeat split; try assumption.
    + apply validate_In.
    + intros (f & <- & Hf). apply validate_error. exact Hf.
  - exfalso. apply event_pre_save_Throw in Hp. destruct Hp as [Hp|[_ Hp]].
    + apply normalizeDate_Throw in Hp. destruct Hp as [Hp _]. discriminate.
    + apply normalizeTime_Throw in Hp. destruct Hp; discriminate.
  - exfalso. apply write_event_Throw in Hw. destruct Hw as [Hw|[Hw|Hw]]; discriminate.
Qed.

(** X11.  The hook checks the date before the time: a document that passes
    the validators and whose date is no date is refused with the date error
    whatever its time; one whose date is a date and whose time is refused by
    [normalizeTime] is refused with that error, one of the two time errors.
    Nothing is stored in either case. *)
Theorem Event_save_hook_errors impl (db : Database) (d : EventDocument) :
  validate (event_attrs d) = [] ->
  (Date.new impl (date (event_attrs d)) = None ->
     Event_save impl db d = (db, Throw (Error msg_date)))
  /\ (forall dt e, normalizeDate impl (date (event_attrs d)) = Ok dt ->
        normalizeTime (time (event_attrs d)) = Throw e ->
        Event_save impl db d = (db, Throw e)
        /\ (e = Error msg_time_format \/ e = Error msg_time_range)).
Proof.
  intros Hv. pose proof (validate_nil_title _ Hv) as Ht. split.
  - intros Hnone. unfold Event_save, event_pre_save, bind. rewrite Hv.
    destruct ((isModified "title" d || slug_unset (event_attrs d))
              && nonEmptyString (title (event_attrs d)));
      cbn [assign event_attrs with_slug date]; unfold normalizeDate; rewrite Hnone; reflexivity.
  - intros dt e Ed Em. split.
    + unfold Event_save, event_pre_save, bind. rewrite Hv.
      destruct ((isModified "title" d || slug_unset (event_attrs d))
                && nonEmptyString (title (event_attrs d)));
        cbn [assign event_attrs with_slug with_date date time]; rewrite Ed;
        cbn [assign event_attrs with_slug with_date date time]; rewrite Em; reflexivity.
    + apply (normalizeTime_Throw _ _ Em).
Qed.

(** X12.  A save of a new Event succeeds exactly when the document passes
    the validators, its date is a date, its time is accepted by
    [normalizeTime], no stored event holds the slug the hook leaves, and no
    stored event has its identifier. *)
Theorem Event_save_success impl (db : Database) (d : EventDocument) :
  event_isNew d = true ->
  ((exists db' d', Event_save impl db d = (db', Ok d'))
   <-> (validate (event_attrs d) = []
        /\ (exists dt, normalizeDate impl (date (event_attrs d)) = Ok dt)
        /\ (exists tm, normalizeTime (time (event_attrs d)) = Ok tm)
        /\ slug_taken (events db) (event_id d) (hook_slug d) = false
        /\ events db !! event_id d = None)).
Proof.
  intros Hisnew. split.
  - intros (db' & d' & H).
    destruct (Event_save_Ok _ _ _ _ _ H) as (Hv & dt & tm & Ed & Em & _ & _ & Hs & Hn).
    rewrite Hisnew in Hn. repeat split; eauto.
  - intros (Hv & [dt Ed] & [tm Em] & Hs & Hn).
    destruct (event_pre_save_intro impl d dt tm (validate_nil_title _ Hv) Ed Em)
      as (d1 & E1 & Ha & Hi & Hnew).
    assert (Hw : exists db', write_event db d1 = Ok db').
    { unfold write_event. rewrite Hnew, Hi, Ha. cbn [slug with_hook_paths].
      rewrite Hs, Hisnew, Hn. eexists. reflexivity. }
    destruct Hw as [db' Hw]. exists db', (saved d1).
    unfold Event_save. rewrite Hv, E1, Hw. reflexivity.
Qed.

(** X13.  What a save of a new Event that succeeds does: the document
    returned has the identifier of the one saved and its attributes, but for
    the date and the time, which are the normal forms of the ones given, and
    the slug, which is the slug of the title when the title was modified or no
    slug was set and the slug given otherwise; the store holds these
    attributes under the identifier, which it did not hold before, and its
    other events and its bookings are as they were. *)
Theorem Event_save_result impl (db : Database) (d : EventDocument) db' d' :
  event_isNew d = true ->
  Event_save impl db d = (db', Ok d') ->
  events db !! event_id d = None /\
  exists dt tm,
    normalizeDate impl (date (event_attrs d)) = Ok dt /\
    normalizeTime (time (event_attrs d)) = Ok tm /\
    event_id d' = event_id d /\
    event_attrs d' = with_hook_paths (hook_slug d) dt tm (event_attrs d) /\
    events db' = <[event_id d := event_attrs d']> (events db) /\
    bookings db' = bookings db.
Proof.
  intros Hisnew H.
  destruct (Event_save_Ok _ _ _ _ _ H) as (_ & dt & tm & Ed & Em & -> & -> & _ & Hn).
  rewrite Hisnew in Hn. split; [exact Hn|].
  exists dt, tm. repeat split; assumption.
Qed.

(** X14.  Saving again what a save returned changes nothing, for a date of
    the years 0..9999: the second save succeeds, returns the same document
    and leaves the store as the first save left it. *)
Theorem Event_save_again impl (db : Database) (d : EventDocument) db' d' t y m dd :
  Event_save impl db d = (db', Ok d') ->
  Date.new impl (date (event_attrs d)) = Some t ->
  Date.civil (t / Date.msPerDay) = (y, m, dd) -> 0 <= y <= 9999 ->
  Event_save impl db' d' = (db', Ok d').
Proof.
  intros H Hnew Hc Hy.
  destruct (Event_save_Ok _ _ _ _ _ H) as (Hv & dt & tm & Ed & Em & Hd' & Hdb' & Hs & _).
  destruct (normalizeDate_years_0_9999 impl _ t Hnew) as (r & Er & _ & Ed2);
    [rewrite Hc; exact Hy|].
  rewrite Ed in Er. injection Er as <-.
  assert (Em2 : normalizeTime tm = Ok tm).
  { apply normalizeTime_Ok_inv in Em. destruct Em as (p & Hw & _ & Hr & ->).
    apply normalizeTime_stored; assumption. }
  destruct (normalizeDate_no_space _ _ _ Ed) as [_ Nd].
  destruct (normalizeTime_no_space _ _ Em) as [_ Nt].
  pose proof (validate_nil_title _ Hv) as Ht.
  assert (Hv' : validate (event_attrs d') = []).
  { rewrite Hd'. cbn [event_attrs]. apply validate_with_hook_paths; assumption. }
  assert (Hpre : exists d2, event_pre_save impl d' = Ok d2 /\
                            event_attrs d2 = with_hook_paths (hook_slug d) dt tm (event_attrs d) /\
                            event_id d2 = event_id d /\ event_isNew d2 = false).
  { destruct (event_pre_save_intro impl d' dt tm) as (d2 & E2 & Ha2 & Hi2 & Hn2).
    - rewrite Hd'. exact Ht.
    - rewrite Hd'. exact Ed2.
    - rewrite Hd'. exact Em2.
    - exists d2. split; [exact E2|]. rewrite Ha2, Hi2, Hn2, Hd'.
      rewrite (hook_slug_saved d dt tm). cbn [event_attrs event_id event_isNew].
      repeat split. }
  destruct Hpre as (d2 & E2 & Ha2 & Hi2 & Hn2).
  set (a' := with_hook_paths (hook_slug d) dt tm (event_attrs d)) in *.
  assert (Hev : events db' = <[event_id d := a']> (events db)).
  { rewrite Hdb', Hd'. reflexivity. }
  assert (Hw : write_event db' d2 = Ok db').
  { unfold write_event. rewrite Hn2, Hi2, Ha2, Hev, lookup_insert_eq.
    change (slug a') with (hook_slug d). rewrite slug_taken_insert, Hs, insert_insert_eq.
    rewrite Hdb', Hd'. reflexivity. }
  unfold Event_save. rewrite Hv', E2, Hw. f_equal. f_equal.
  unfold saved. rewrite Hi2, Ha2, Hd'. reflexivity.
Qed.

(** X15.  The unique index holds of the store: when no two events of the
    store have the same slug, no two have after a save, whether it succeeds
    or fails. *)
Theorem Event_save_keeps_slugs_unique impl (db : Database) (d : EventDocument) db' r :
  unique_slugs (events db) ->
  Event_save impl db d = (db', r) ->
  unique_slugs (events db').
Proof.
  intros Hu H. destruct r as [d'|e].
  - destruct (Event_save_Ok _ _ _ _ _ H) as (_ & dt & tm & _ & _ & Hd' & -> & Hs & _).
    cbn [events with_events]. rewrite Hd'. cbn [event_attrs].
    pose proof (proj1 (slug_taken_false _ _ _) Hs) as Hfree.
    intros i j a b Hi Hj Hne.
    destruct (same_slug (slug a) (slug b)) eqn:E; [exfalso|reflexivity].
    apply same_slug_eq in E.
    destruct (decide (i = event_id d)) as [->|Hi'], (decide (j = event_id d)) as [->|Hj'].
    + congruence.
    + rewrite lookup_insert_eq in Hi. rewrite lookup_insert_ne in Hj by congruence.
      injection Hi as <-. cbn [slug with_hook_paths] in E.
      exact (Hfree j b Hj Hj' (eq_sym E)).
    + rewrite lookup_insert_eq in Hj. rewrite lookup_insert_ne in Hi by congruence.
      injection Hj as <-. cbn [slug with_hook_paths] in E.
      exact (Hfree i a Hi Hi' E).
    + rewrite lookup_insert_ne in Hi, Hj by congruence.
      pose proof (Hu i j a b Hi Hj Hne) as F. rewrite E in F.
      rewrite (proj2 (same_slug_eq _ _) eq_refl) in F. discriminate.
  - destruct (Event_save_Throw _ _ _ _ _ H) as [-> _]. exact Hu.
Qed.

(** X16.  A new Event whose title has the slug of a stored event is refused
    by the unique index, with the store as it was: two titles with one slug
    cannot both be saved. *)
Theorem Event_save_slug_collision impl (db : Database) (d : EventDocument) j b dt tm :
  validate (event_attrs d) = [] ->
  normalizeDate impl (date (event_attrs d)) = Ok dt ->
  normalizeTime (time (event_attrs d)) = Ok tm ->
  event_isNew d = true -> isModified "title" d = true ->
  events db !! event_id d = None ->
  events db !! j = Some b -> slug b = Some (slugify (title (event_attrs d))) ->
  Event_save impl db d = (db, Throw (DuplicateKey "slug_1")).
Proof.
  intros Hv Ed Em Hnew Hmod Hid Hj Hs.
  destruct (event_pre_save_intro impl d dt tm (validate_nil_title _ Hv) Ed Em)
    as (d1 & E1 & Ha & Hi & Hn).
  unfold Event_save. rewrite Hv, E1. unfold write_event. rewrite Hn, Hnew, Hi, Hid, Ha.
  cbn [slug with_hook_paths]. unfold hook_slug. rewrite Hmod. cbn [orb].
  assert (T : slug_taken (events db) (event_id d)
                (Some (slugify (title (event_attrs d)))) = true).
  { destruct (slug_taken _ _ _) eqn:E; [reflexivity|]. exfalso.
    apply (proj1 (slug_taken_false _ _ _) E j b Hj); [congruence|exact Hs]. }
  rewrite T. reflexivity.
Qed.

End EventSaves.

Section BookingSaves.

(** X17.  A save of a new Booking succeeds exactly when the email passes
    the email check, the event referred to is stored, and no stored booking
    has its identifier.  It then stores the event identifier and the email of
    the document under that identifier and changes nothing else. *)
Theorem Booking_save_success (db : Database) (b : BookingDocument) :
  booking_isNew b = true ->
  ((exists db' b', Booking_save db b = (db', Ok b'))
   <-> (isValidEmail (email b) = true /\ Event_exists db (eventId b) = true /\
        bookings db !! booking_id b = None))
  /\ (forall db' b', Booking_save db b = (db', Ok b') ->
        bookings db' = <[booking_id b := (eventId b, email b)]> (bookings db)
        /\ events db' = events db /\ b' = saved_booking b).
Proof.
  intros Hisnew. split; [split|].
  - intros (db' & b' & H). destruct (Booking_save_Ok _ _ _ _ H) as (Hm & He & Hw & _).
    destruct (write_booking_Ok _ _ _ Hw) as [_ Hn]. rewrite Hisnew in Hn.
    repeat split; assumption.
  - intros (Hm & He & Hn).
    exists (with_bookings (<[booking_id b := (eventId b, email b)]> (bookings db)) db),
           (saved_booking b).
    apply Booking_save_intro; try assumption. apply write_booking_new; assumption.
  - intros db' b' H. destruct (Booking_save_Ok _ _ _ _ H) as (_ & _ & Hw & ->).
    destruct (write_booking_Ok _ _ _ Hw) as [-> _]. repeat split.
Qed.

(** X18.  A save of a Booking that fails leaves the store as it was and
    fails in one of three ways: with the validation error of the email path
    when the email fails the email check, with the error that the event does
    not exist when the email passes and the event is not stored, and with an
    error of the write otherwise.  The error of the hook's own email check
    never comes out of a save: the validators have refused such an email
    before the hook runs. *)
Theorem Booking_save_failure (db : Database) (b : BookingDocument) db' e :
  Booking_save db b = (db', Throw e) ->
  db' = db /\ e <> Error msg_email_hook /\
  ((isValidEmail (email b) = false /\
    exists message, e = ValidationError [("email"%string, message)])
   \/ (isValidEmail (email b) = true /\ Event_exists db (eventId b) = false /\
       e = Error msg_no_event)
   \/ (isValidEmail (email b) = true /\ Event_exists db (eventId b) = true /\
       (e = DuplicateKey "_id_" \/ e = DocumentNotFound))).
Proof.
  intros H. destruct (Booking_save_Throw _ _ _ _ H) as (-> & C). split; [reflexivity|].
  destruct C as [(Hm & m & ->)|[(Hm & He & ->)|(Hm & He & Hw)]].
  - split; [discriminate|]. left. split; [exact Hm|]. exists m. reflexivity.
  - split; [discriminate|]. right. left. repeat split; assumption.
  - assert (E : e = DuplicateKey "_id_" \/ e = DocumentNotFound).
    { unfold write_booking in Hw.
      destruct (bookings db !! booking_id b), (booking_isNew b); try discriminate;
        injection Hw as <-; auto. }
    split; [destruct E as [-> | ->]; discriminate|]. right. right. repeat split; assumption.
Qed.


(** X20.  The reference of a booking never dangles: when every booking of
    the store refers to a stored event, so does every booking after a save of
    an Event or of a Booking, whether the save succeeds or fails. *)
Theorem saves_keep_bookings_referring impl (db : Database) :
  bookings_refer db ->
  (forall d, bookings_refer (fst (Event_save impl db d)))
  /\ (forall b, bookings_refer (fst (Booking_save db b))).
Proof.
  intros Hr. split.
  - intros d. destruct (Event_save impl db d) as [db' [d'|e]] eqn:H; cbn [fst].
    + destruct (Event_save_Ok _ _ _ _ _ H) as (_ & dt & tm & _ & _ & _ & -> & _).
      intros k e mail Hk. cbn [bookings with_events] in Hk.
      apply Event_exists_insert. exact (Hr k e mail Hk).
    + destruct (Event_save_Throw _ _ _ _ _ H) as [-> _]. exact Hr.
  - intros b. destruct (Booking_save db b) as [db' [b'|e]] eqn:H; cbn [fst].
    + destruct (Booking_save_Ok _ _ _ _ H) as (_ & Hex & Hw & _).
      destruct (write_booking_Ok _ _ _ Hw) as [-> _].
      intros k e mail Hk. cbn [bookings with_bookings] in Hk.
      change (Event_exists db e = true).
      destruct (decide (k = booking_id b)) as [->|Hne].
      * rewrite lookup_insert_eq in Hk. injection Hk as <- _. exact Hex.
      * rewrite lookup_insert_ne in Hk by congruence. exact (Hr k e mail Hk).
    + destruct (Booking_save_Throw _ _ _ _ H) as [-> _]. exact Hr.
Qed.

End BookingSaves.

Section Connections.

Import Mongo MongoCount.




End Connections.

Section Reloads.

Import Mongo TopLevel.


(** X25.  Without the connection string nothing connects: when the variable
    is undefined or empty at every evaluation of the module, each evaluation
    throws the configuration error, the process stays as it started (no cache
    on the global object, no attempt), and the trace holds no call. *)
Theorem without_uri_nothing_connects (trace : list TopLevel.event) (pr : Process) :
  TopLevel.run trace boot = Some pr ->
  (forall uri, In (Load uri) trace -> missing uri = true) ->
  pr = boot /\ runs trace = []
  /\ forall uri, In (Load uri) trace -> load uri boot = Throw (Error msg_uri).
Proof.
  intros Hr Hall. split; [|split].
  - revert pr Hr. induction trace as [|e trace IH]; intros pr; cbn [TopLevel.run].
    + intros [= <-]. reflexivity.
    + destruct e as [uri|e]; cbn [TopLevel.step]; [|cbn; discriminate].
      unfold load. rewrite (Hall uri (or_introl eq_refl)).
      apply IH. intros u Hu. apply Hall. right. exact Hu.
  - revert pr Hr. induction trace as [|e trace IH]; intros pr; cbn [TopLevel.run runs].
    + reflexivity.
    + destruct e as [uri|e]; cbn [TopLevel.step]; [|cbn; discriminate].
      unfold load. rewrite (Hall uri (or_introl eq_refl)).
      apply IH. intros u Hu. apply Hall. right. exact Hu.
  - intros uri Hin. unfold load. rewrite (Hall uri Hin). reflexivity.
Qed.

End Reloads.

(** * The further properties at concrete inputs *)

Section MoreWitnesses.

Import SlugSpec Words EventSpec DateSpec TimeSpec Sample Mongo MongoCount.

Lemma surrounding_space_is_ignored_witness :
  normalizeTime (str "  9:05 ") = normalizeTime (str "9:05")
  /\ isValidEmail (str "  ada@example.org ") = isValidEmail (str "ada@example.org").
Proof.
  destruct (surrounding_space_is_ignored (str "  ") (str "9:05") (str " ") eq_refl eq_refl)
    as (_ & _ & H1 & _).
  destruct (surrounding_space_is_ignored (str "  ") (str "ada@example.org") (str " ")
              eq_refl eq_refl) as (_ & _ & _ & H2).
  split; [exact H1|exact H2].
Defined.

Lemma slugify_words_witness :
  slugify (str "Hello   Big World2") = str "hello-big-world2".
Proof.
  refine (eq_trans (slugify_words (str "Hello")
                      [(str "   ", str "Big"); (str " ", str "World2")] _ _) _).
  - split; [discriminate|reflexivity].
  - repeat constructor; try discriminate; reflexivity.
  - vm_compute. reflexivity.
Defined.

Lemma normalizeTime_idempotent_witness :
  normalizeTime (str " 9:05:30 ") = Ok (str "09:05")
  /\ normalizeTime (str "09:05") = Ok (str "09:05").
Proof.
  assert (H : normalizeTime (str " 9:05:30 ") = Ok (str "09:05")) by (vm_compute; reflexivity).
  split; [exact H|]. exact (proj1 (normalizeTime_idempotent _ _ H)).
Defined.

Lemma normalizeDate_keeps_calendar_dates_witness :
  normalizeDate date_only_engine (str "2024-02-29") = Ok (str "2024-02-29").
Proof.
  apply (normalizeDate_keeps_calendar_dates _ _ 2024 2 29); vm_compute; reflexivity.
Defined.

(** An engine that reads 2024-03-05T10:00:00Z, ten hours into the day. *)
Lemma normalizeDate_utc_day_witness :
  normalizeDate (fun _ => Some 1709632800000%Z) (str "2024-03-05T10:00:00Z")
  = Ok (str "2024-03-05").
Proof.
  destruct (normalizeDate_utc_day (fun _ => Some 1709632800000%Z)
              (str "2024-03-05T10:00:00Z") 1709632800000 2024 3 5) as (H & _).
  - vm_compute. reflexivity.
  - vm_compute. reflexivity.
  - lia.
  - refine (eq_trans H _). vm_compute. reflexivity.
Defined.

Lemma Event_save_validation_paths_witness :
  exists f, field_path f = "title"%string
            /\ field_ok f (event_titled (str "   ")) = false.
Proof.
  assert (H : Event_save date_only_engine empty_db (new_event 1%N (event_titled (str "   ")))
              = (empty_db,
                 Throw (ValidationError [("title", "Path `title` is required.")%string])))
    by (vm_compute; reflexivity).
  destruct (Event_save_validation_paths _ _ _ _ _ H) as (_ & _ & Hp).
  apply Hp. left. reflexivity.
Defined.

(** A document whose date and time are both refused: the date error comes
    out. *)
Lemma Event_save_hook_errors_witness :
  let a := event_titled (str "Meetup") in
  Event_save date_only_engine empty_db
    (new_event 1%N (with_hook_paths None (str "someday") (str "25:00") a))
  = (empty_db, Throw (Error msg_date)).
Proof.
  cbv zeta.
  apply (Event_save_hook_errors date_only_engine empty_db
           (new_event 1%N (with_hook_paths None (str "someday") (str "25:00")
                             (event_titled (str "Meetup"))))).
  - vm_compute. reflexivity.
  - vm_compute. reflexivity.
Defined.

(** The sample event is not stored yet, its date is a date and its time a
    time: it is saved. *)
Lemma Event_save_success_witness :
  exists db' d', Event_save date_only_engine empty_db meetup = (db', Ok d').
Proof.
  apply (Event_save_success date_only_engine empty_db meetup eq_refl).
  split; [vm_compute; reflexivity|].
  split; [eexists; vm_compute; reflexivity|].
  split; [eexists; vm_compute; reflexivity|].
  split; vm_compute; reflexivity.
Defined.

(** The title is given with white space around it: the document made of it
    holds it trimmed, and so do the document returned and the store. *)
Lemma Event_save_result_witness :
  exists db' d',
    Event_save date_only_engine empty_db
      (new_event 1%N (event_titled (str "  My Awesome Dev Meetup!! "))) = (db', Ok d')
    /\ event_attrs d'
       = with_hook_paths (Some (str "my-awesome-dev-meetup")) (str "2024-03-05") (str "09:05")
           (event_titled (str "My Awesome Dev Meetup!!"))
    /\ events db' !! 1%N = Some (event_attrs d').
Proof.
  set (d := new_event 1%N (event_titled (str "  My Awesome Dev Meetup!! "))).
  assert (H : exists db' d', Event_save date_only_engine empty_db d = (db', Ok d'))
    by (do 2 eexists; vm_compute; reflexivity).
  destruct H as (db' & d' & H). exists db', d'. split; [exact H|].
  destruct (Event_save_result date_only_engine empty_db d db' d' eq_refl H)
    as (_ & dt & tm & Ed & Em & _ & Ha & Hev & _).
  assert (Edt : dt = str "2024-03-05").
  { assert (E : normalizeDate date_only_engine (date (event_attrs d))
                = Ok (str "2024-03-05")) by (vm_compute; reflexivity).
    rewrite E in Ed. injection Ed as <-. reflexivity. }
  assert (Etm : tm = str "09:05").
  { assert (E : normalizeTime (time (event_attrs d)) = Ok (str "09:05"))
      by (vm_compute; reflexivity).
    rewrite E in Em. injection Em as <-. reflexivity. }
  subst dt tm. split.
  - refine (eq_trans Ha _). vm_compute. reflexivity.
  - rewrite Hev. apply lookup_insert_eq.
Defined.

Lemma Event_save_again_witness :
  exists db' d',
    Event_save date_only_engine empty_db meetup = (db', Ok d')
    /\ Event_save date_only_engine db' d' = (db', Ok d').
Proof.
  assert (H : exists db' d', Event_save date_only_engine empty_db meetup = (db', Ok d'))
    by (do 2 eexists; vm_compute; reflexivity).
  destruct H as (db' & d' & H). exists db', d'. split; [exact H|].
  apply (Event_save_again _ _ _ _ _ 1709596800000%Z 2024%Z 3%Z 5%Z H).
  - vm_compute. reflexivity.
  - vm_compute. reflexivity.
  - lia.
Defined.

Lemma Event_save_keeps_slugs_unique_witness :
  exists db', fst (Event_save date_only_engine empty_db meetup) = db'
              /\ unique_slugs (events db').
Proof.
  eexists. split; [reflexivity|].
  apply (Event_save_keeps_slugs_unique date_only_engine empty_db meetup _
           (snd (Event_save date_only_engine empty_db meetup))).
  - intros i j a b Hi. unfold empty_db in Hi. cbn [events] in Hi.
    rewrite lookup_empty in Hi. discriminate.
  - destruct (Event_save date_only_engine empty_db meetup). reflexivity.
Defined.

(** A title that differs from a stored one in its capitals and its
    punctuation only. *)
Lemma Event_save_slug_collision_witness :
  exists db1,
    fst (Event_save date_only_engine empty_db meetup) = db1
    /\ Event_save date_only_engine db1
         (new_event 2%N (event_titled (str "my awesome dev meetup")))
       = (db1, Throw (DuplicateKey "slug_1")).
Proof.
  eexists. split; [reflexivity|].
  eapply (Event_save_slug_collision date_only_engine _
            (new_event 2%N (event_titled (str "my awesome dev meetup"))) 1%N);
    vm_compute; reflexivity.
Defined.

(** The email is given with white space around it and stored without. *)
Lemma Booking_save_success_witness :
  exists db1 db',
    fst (Event_save date_only_engine empty_db meetup) = db1
    /\ Booking_save db1 (new_booking 1%N 1%N (str " ada@example.org "))
       = (db', Ok (saved_booking (new_booking 1%N 1%N (str " ada@example.org "))))
    /\ bookings db' !! 1%N = Some (1%N, str "ada@example.org").
Proof.
  eexists.
  destruct (Booking_save_success (fst (Event_save date_only_engine empty_db meetup))
              (new_booking 1%N 1%N (str " ada@example.org ")) eq_refl) as [Hiff Hst].
  destruct (proj2 Hiff) as (db' & b' & H).
  { repeat split; vm_compute; reflexivity. }
  destruct (Hst db' b' H) as (Hb & _ & ->).
  exists db'. split; [reflexivity|]. split; [exact H|].
  rewrite Hb. apply lookup_insert_eq.
Defined.

Lemma Booking_save_failure_witness :
  Booking_save empty_db (new_booking 1%N 7%N (str "ada@example.org"))
  = (empty_db, Throw (Error msg_no_event))
  /\ Error msg_no_event <> Error msg_email_hook.
Proof.
  assert (H : Booking_save empty_db (new_booking 1%N 7%N (str "ada@example.org"))
              = (empty_db, Throw (Error msg_no_event))) by (vm_compute; reflexivity).
  destruct (Booking_save_failure _ _ _ _ H) as (_ & Hne & _).
  split; [exact H|exact Hne].
Defined.


Lemma saves_keep_bookings_referring_witness :
  exists db1,
    fst (Event_save date_only_engine empty_db meetup) = db1
    /\ bookings_refer
         (fst (Booking_save db1 (new_booking 1%N 1%N (str "ada@example.org")))).
Proof.
  eexists. split; [reflexivity|].
  assert (H0 : bookings_refer empty_db).
  { intros k e mail Hk. unfold empty_db in Hk. cbn [bookings] in Hk.
    rewrite lookup_empty in Hk. discriminate. }
  pose proof (proj1 (saves_keep_bookings_referring date_only_engine empty_db H0) meetup) as H1.
  exact (proj2 (saves_keep_bookings_referring date_only_engine _ H1) _).
Defined.





Lemma without_uri_nothing_connects_witness :
  TopLevel.run [TopLevel.Load None; TopLevel.Load (Some [])] TopLevel.boot
  = Some TopLevel.boot
  /\ TopLevel.load (Some []) TopLevel.boot = Throw (Error TopLevel.msg_uri).
Proof.
  assert (H : TopLevel.run [TopLevel.Load None; TopLevel.Load (Some [])] TopLevel.boot
              = Some TopLevel.boot) by reflexivity.
  split; [exact H|].
  destruct (without_uri_nothing_connects _ _ H) as (_ & _ & Hl).
  - intros uri [E|[E|[]]]; injection E as <-; reflexivity.
  - apply Hl. right. left. reflexivity.
Defined.

End MoreWitnesses.
